(** * Mini Pyro: effect handlers, dispatch and ELBO

    A shallow embedding of [pyro/contrib/minipyro.py].  The two pieces of
    process-wide state of the module ([PYRO_STACK] and [PARAM_STORE]) are
    threaded explicitly through a state-and-exception monad; Python
    exceptions keep the state reached when they were raised.  The numeric
    engine ([torch]) is an interface, instantiated with integers for the
    concrete runs at the end of the file.  [Adam.__call__] is embedded
    over an interface for [torch.optim.Adam]; of [SVI.step] the scope
    that captures the parameters is, and the steps that drive the
    autograd engine are not. *)

From Stdlib Require Import ZArith.
From stdpp Require Import gmap strings list fin_maps.

Open Scope Z_scope.

(** ** The collaborators: tensors, distributions, constraint transforms *)

Class Torch := {
  tensor : Type;
  constraint : Type;
  dist : Type;
  (* state of the global random number generator *)
  generator : Type;
  (* torch.distributions.constraints.real *)
  real : constraint;
  (* torch.distributions.transform_to(c)(u) and transform_to(c).inv(x) *)
  transform_to : constraint -> tensor -> tensor;
  transform_to_inv : constraint -> tensor -> tensor;
  detach : tensor -> tensor;
  (* d.batch_shape, d.expand(shape) (which raises on incompatible shapes),
     d() and d.log_prob(x) *)
  batch_shape : dist -> list Z;
  expand : dist -> list Z -> option dist;
  dist_call : dist -> generator -> tensor * generator;
  log_prob : dist -> tensor -> tensor;
  (* x.sum(), the float 0., and + - and unary - on tensors *)
  tsum : tensor -> tensor;
  tzero : tensor;
  tadd : tensor -> tensor -> tensor;
  tsub : tensor -> tensor -> tensor;
  tneg : tensor -> tensor
}.

(** The arithmetic laws under which sums of log-probabilities may be
    regrouped (exact arithmetic; floating point rounding is not modelled). *)
Class ExactArith (T : Torch) : Prop := {
  tadd_0_l : forall x : tensor, tadd tzero x = x;
  tadd_0_r : forall x : tensor, tadd x tzero = x;
  tadd_assoc : forall x y z : tensor, tadd x (tadd y z) = tadd (tadd x y) z;
  tsub_0_r : forall x : tensor, tsub x tzero = x;
  tsub_tadd : forall x y z : tensor, tsub x (tadd y z) = tsub (tsub x y) z
}.

(** ** Python values and exceptions *)

Inductive exn :=
| AssertionError
| UnboundLocalError
| IndexError
| TypeError
| AttributeError
| KeyError
| RuntimeError.

Inductive result (A : Type) :=
| Ok (a : A)
| Raise (e : exn).
Arguments Ok {A} a.
Arguments Raise {A} e.

(** [l[i]] and [l[i] = x] with Python's negative indices. *)
Definition py_index {A} (l : list A) (i : Z) : option A :=
  let n := Z.of_nat (length l) in
  if (i <? 0) then (if (n + i <? 0) then None else l !! Z.to_nat (n + i))
  else l !! Z.to_nat i.

Definition py_setitem {A} (l : list A) (i : Z) (x : A) : option (list A) :=
  let n := Z.of_nat (length l) in
  let j := if (i <? 0) then n + i else i in
  if (j <? 0) || (n <=? j) then None else Some (<[Z.to_nat j := x]> l).

(** [l[start:]]: a negative start counts from the end, and both ends clamp. *)
Definition py_slice_from {A} (l : list A) (start : Z) : list A :=
  let n := Z.of_nat (length l) in
  let i := if (start <? 0) then Z.max (n + start) 0 else Z.min start n in
  drop (Z.to_nat i) l.

(** [enumerate(l)] *)
Definition enumerate {A} (l : list A) : list (nat * A) :=
  zip (seq 0 (length l)) l.

(** [range(n)] as a list (what iterating over it produces) *)
Definition range (n : Z) : list Z := Z.of_nat <$> seq 0 (Z.to_nat n).

Section MiniPyro.
Context `{T : Torch}.

(** ** Messages *)

Inductive msg_type := sample_type | param_type.

Definition msg_type_eqb (a b : msg_type) : bool :=
  match a, b with
  | sample_type, sample_type | param_type, param_type => true
  | _, _ => false
  end.

(** The ["fn"] entry: a distribution for [sample]; for [param] the inner
    closure [fn], which captures [name]. *)
Inductive descriptor :=
| DistFn (d : dist)
| ParamFn (name : string).

(** The ["args"] entry: [()] for [sample], [(init_value, constraint)] for
    [param]. *)
Inductive arguments :=
| NoArgs
| ParamArgs (init_value : option tensor) (c : constraint).

(** The message dictionary.  ["value"] holding [None] is [m_value = None];
    a missing ["stop"] key is [m_stop = false] ([msg.get("stop")] is falsy). *)
Record message := Message {
  m_type : msg_type;
  m_name : string;
  m_fn : descriptor;
  m_args : arguments;
  m_value : option tensor;
  m_stop : bool
}.

Definition set_value (msg : message) (v : option tensor) : message :=
  Message (m_type msg) (m_name msg) (m_fn msg) (m_args msg) v (m_stop msg).
Definition set_stop (msg : message) (b : bool) : message :=
  Message (m_type msg) (m_name msg) (m_fn msg) (m_args msg) (m_value msg) b.
Definition set_fn (msg : message) (f : descriptor) : message :=
  Message (m_type msg) (m_name msg) f (m_args msg) (m_value msg) (m_stop msg).

(** ** Traces: an [OrderedDict] from site name to message *)

Definition OrderedDict := list (string * message).

(** [name in d] *)
Definition od_contains (d : OrderedDict) (name : string) : bool :=
  existsb (fun e => String.eqb (fst e) name) d.

(** [d[name]] *)
Fixpoint od_get (d : OrderedDict) (name : string) : option message :=
  match d with
  | [] => None
  | (k, v) :: d' => if String.eqb k name then Some v else od_get d' name
  end.

(** [d[name] = v]: an existing key keeps its position, a new one goes last. *)
Fixpoint od_set (d : OrderedDict) (name : string) (v : message) : OrderedDict :=
  match d with
  | [] => [(name, v)]
  | (k, v') :: d' =>
      if String.eqb k name then (k, v) :: d' else (k, v') :: od_set d' name v
  end.

(** [d.values()] *)
Definition od_values (d : OrderedDict) : list message := snd <$> d.
Definition od_keys (d : OrderedDict) : list string := fst <$> d.

(** ** Handlers *)

(** The classes, with the fields their constructors set and never change.
    [fn], the wrapped callable, is an argument of [__call__] instead.  The
    reference trace of [replay] is held by value: [trace.__enter__] makes a
    new dictionary at every entry, so the dictionary that a scope has
    returned is not written to once the scope has ended. *)
Inductive handler :=
| Messenger
| trace
| replay (guide_trace : OrderedDict)
| block (hide_fn : message -> bool)
| PlateMessenger (size : Z) (dim : Z).

(** A reference to a handler object: [is] compares [hid]. *)
Record href := Href { hid : nat; hcls : handler }.

(** A ghost log of the calls whose order and number the properties
    below are about. *)
Inductive event :=
| EvProcess (h : nat)         (* handler.process_message(msg) *)
| EvPostprocess (h : nat)     (* handler.postprocess_message(msg) *)
| EvDraw                      (* a distribution was called *)
| EvParamFn (name : string).  (* the closure fn of param(name, ..) was called *)

Record state := State {
  PYRO_STACK : list href;
  PARAM_STORE : gmap string (tensor * constraint);
  (* the attribute self.trace of every trace object that has one *)
  traces : gmap nat OrderedDict;
  (* object allocation *)
  next_id : nat;
  rng : generator;
  events : list event
}.

Definition set_stack (s : state) (st : list href) : state :=
  State st (PARAM_STORE s) (traces s) (next_id s) (rng s) (events s).
Definition set_store (s : state) (ps : gmap string (tensor * constraint)) : state :=
  State (PYRO_STACK s) ps (traces s) (next_id s) (rng s) (events s).
Definition set_traces (s : state) (tr : gmap nat OrderedDict) : state :=
  State (PYRO_STACK s) (PARAM_STORE s) tr (next_id s) (rng s) (events s).
Definition set_next_id (s : state) (n : nat) : state :=
  State (PYRO_STACK s) (PARAM_STORE s) (traces s) n (rng s) (events s).
Definition set_rng (s : state) (g : generator) : state :=
  State (PYRO_STACK s) (PARAM_STORE s) (traces s) (next_id s) g (events s).
Definition log (s : state) (e : event) : state :=
  State (PYRO_STACK s) (PARAM_STORE s) (traces s) (next_id s) (rng s)
        (events s ++ [e]).

(** ** The monad *)

Definition M (A : Type) : Type := state -> result A * state.

Definition ret {A} (a : A) : M A := fun s => (Ok a, s).
Definition raise {A} (e : exn) : M A := fun s => (Raise e, s).
Definition bind {A B} (m : M A) (k : A -> M B) : M B := fun s =>
  match m s with
  | (Ok a, s') => k a s'
  | (Raise e, s') => (Raise e, s')
  end.

Notation "'do' x <- m ; k" := (bind m (fun x => k))
  (at level 10, x name, m at level 100, k at level 200).
Notation "m ;; k" := (bind m (fun _ => k))
  (at level 100, k at level 200, right associativity).

(** ** Messenger and its subclasses *)

(** [PYRO_STACK.append(self)]; [trace] also rebinds [self.trace] to a fresh
    [OrderedDict()] and returns it. *)
Definition __enter__ (self : href) : M (option OrderedDict) := fun s =>
  let s1 := set_stack s (PYRO_STACK s ++ [self]) in
  match hcls self with
  | trace => (Ok (Some []), set_traces s1 (<[hid self := []]> (traces s1)))
  | _ => (Ok None, s1)
  end.

(** [assert PYRO_STACK[-1] is self; PYRO_STACK.pop()] *)
Definition __exit__ (self : href) : M unit := fun s =>
  match py_index (PYRO_STACK s) (-1) with
  | None => (Raise IndexError, s)
  | Some top =>
      if Nat.eqb (hid top) (hid self)
      then (Ok tt, set_stack s (removelast (PYRO_STACK s)))
      else (Raise AssertionError, s)
  end.

(** [with self: body].  [__exit__] runs on both exits of the body; it
    returns [None], so an exception of the body propagates unless
    [__exit__] raises one itself. *)
Definition with_ {A} (self : href) (body : M A) : M A := fun s =>
  match __enter__ self s with
  | (Raise e, s1) => (Raise e, s1)
  | (Ok _, s1) =>
      match body s1 with
      | (Ok a, s2) =>
          match __exit__ self s2 with
          | (Ok _, s3) => (Ok a, s3)
          | (Raise e', s3) => (Raise e', s3)
          end
      | (Raise e, s2) =>
          match __exit__ self s2 with
          | (Ok _, s3) => (Raise e, s3)
          | (Raise e', s3) => (Raise e', s3)
          end
      end
  end.

(** [Messenger.__call__]: [with self: return self.fn(..)] *)
Definition __call__ {A} (self : href) (fn : M A) : M A := with_ self fn.

(** [process_message]: only the message is changed. *)
Definition process_message (self : href) (msg : message) : result message :=
  match hcls self with
  | Messenger | trace => Ok msg
  | replay guide_trace =>
      if od_contains guide_trace (m_name msg) then
        match od_get guide_trace (m_name msg) with
        | Some site => Ok (set_value msg (m_value site))
        | None => Raise KeyError
        end
      else Ok msg
  | block hide_fn =>
      if hide_fn msg then Ok (set_stop msg true) else Ok msg
  | PlateMessenger size dim =>
      if msg_type_eqb (m_type msg) sample_type then
        match m_fn msg with
        | ParamFn _ => Raise AttributeError
        | DistFn d =>
            let shape := batch_shape d in
            let len := Z.of_nat (length shape) in
            let differs :=
              if (len <? - dim) then Ok true
              else match py_index shape dim with
                   | Some n => Ok (negb (n =? size))
                   | None => Raise IndexError
                   end in
            match differs with
            | Raise e => Raise e
            | Ok false => Ok msg
            | Ok true =>
                let shape1 := replicate (Z.to_nat (- dim - len)) 1 ++ shape in
                match py_setitem shape1 dim size with
                | None => Raise IndexError
                | Some shape2 =>
                    match expand d shape2 with
                    | Some d' => Ok (set_fn msg (DistFn d'))
                    | None => Raise RuntimeError
                    end
                end
            end
        end
      else Ok msg
  end.

(** [postprocess_message]: [trace] records a copy of the message. *)
Definition postprocess_message (self : href) (msg : message) : M unit := fun s =>
  match hcls self with
  | trace =>
      match traces s !! hid self with
      | None => (Raise AttributeError, s)
      | Some tr =>
          if od_contains tr (m_name msg) then (Raise AssertionError, s)
          else (Ok tt, set_traces s (<[hid self := od_set tr (m_name msg) msg]> (traces s)))
      end
  | _ => (Ok tt, s)
  end.

(** Objects are created by calling the class; [PlateMessenger.__init__]
    starts with [assert dim < 0]. *)
Definition new (c : handler) : M href := fun s =>
  let created := (Ok (Href (next_id s) c), set_next_id s (S (next_id s))) in
  match c with
  | PlateMessenger size dim =>
      if (dim <? 0) then created else (Raise AssertionError, s)
  | _ => created
  end.

(** [plate(name, size, dim)] *)
Definition plate (name : string) (size dim : Z) : M href :=
  new (PlateMessenger size dim).

(** [trace.get_trace]: [self(..); return self.trace] *)
Definition get_trace {A} (self : href) (fn : M A) : M OrderedDict :=
  __call__ self fn ;;
  fun s => match traces s !! hid self with
           | Some tr => (Ok tr, s)
           | None => (Raise AttributeError, s)
           end.

(** ** Iterating over a plate *)

(** The two kinds of object that [PlateMessenger.__iter__] and the
    iteration protocol meet: a [range] object, which is iterable but has
    no [__next__], and the iterator [iter(range(..))] makes from it. *)
Inductive pyobject :=
| RangeObject (n : Z)
| RangeIterator (next stop : Z).

(** [PlateMessenger.__iter__]: [return range(self.size)]; the other
    classes define no [__iter__]. *)
Definition __iter__ (self : href) : result pyobject :=
  match hcls self with
  | PlateMessenger size dim => Ok (RangeObject size)
  | _ => Raise TypeError
  end.

Definition has_next (o : pyobject) : bool :=
  match o with
  | RangeIterator _ _ => true
  | RangeObject _ => false
  end.

(** [iter(self)], as a [for] loop over [self] starts: the object that
    [__iter__] returns must be an iterator, or [TypeError] is raised
    (iter() returned non-iterator). *)
Definition iter (self : href) : result pyobject :=
  match __iter__ self with
  | Raise e => Raise e
  | Ok o => if has_next o then Ok o else Raise TypeError
  end.

(** [list(o)] for an iterator [o]. *)
Definition drain (o : pyobject) : result (list Z) :=
  match o with
  | RangeIterator next stop => Ok ((fun i => next + i) <$> range (stop - next))
  | RangeObject _ => Raise TypeError
  end.

(** [[i for i in self]] *)
Definition iterate (self : href) : result (list Z) :=
  match iter self with
  | Raise e => Raise e
  | Ok o => drain o
  end.

(** ** apply_stack *)

(** Calling a distribution draws from it. *)
Definition draw (d : dist) : M tensor := fun s =>
  let '(v, g) := dist_call d (rng s) in
  (Ok v, set_rng (log s EvDraw) g).

(** The closure [fn(init_value, constraint)] inside [param(name, ..)].
    Gradient tracking and the weak back-reference from the constrained
    to the unconstrained tensor belong to the autograd engine and are
    left out. *)
Definition param_fn (name : string) (init_value : option tensor)
    (c : constraint) : M tensor := fun s0 =>
  let s := log s0 (EvParamFn name) in
  match PARAM_STORE s !! name with
  | Some (unconstrained_value, c') =>
      (Ok (transform_to c' unconstrained_value), s)
  | None =>
      match init_value with
      | None => (Raise AssertionError, s)
      | Some init =>
          let constrained_value := detach init in
          let unconstrained_value := transform_to_inv c constrained_value in
          (Ok (transform_to c unconstrained_value),
           set_store s (<[name := (unconstrained_value, c)]> (PARAM_STORE s)))
      end
  end.

(** The call of [msg["fn"]] on the unpacked tuple [msg["args"]]. *)
Definition call_fn (msg : message) : M tensor :=
  match m_fn msg, m_args msg with
  | DistFn d, NoArgs => draw d
  | ParamFn name, ParamArgs init_value c => param_fn name init_value c
  | _, _ => raise TypeError
  end.

(** The first loop.  [pointer] is [None] while the loop variable is
    still unbound. *)
Fixpoint process_loop (it : list (nat * href)) (pointer : option nat)
    (msg : message) : M (option nat * message) :=
  match it with
  | [] => ret (pointer, msg)
  | (i, handler) :: it' => fun s =>
      let s1 := log s (EvProcess (hid handler)) in
      match process_message handler msg with
      | Raise e => (Raise e, s1)
      | Ok msg1 =>
          if m_stop msg1 then (Ok (Some i, msg1), s1)
          else process_loop it' (Some i) msg1 s1
      end
  end.

(** The second loop. *)
Fixpoint postprocess_loop (hs : list href) (msg : message) : M unit :=
  match hs with
  | [] => ret tt
  | handler :: hs' => fun s =>
      (postprocess_message handler msg ;; postprocess_loop hs' msg)
        (log s (EvPostprocess (hid handler)))
  end.

Definition fill_value (msg : message) : M message :=
  match m_value msg with
  | None => do v <- call_fn msg; ret (set_value msg (Some v))
  | Some _ => ret msg
  end.

Definition apply_stack (msg : message) : M message :=
  do r <- (fun s => process_loop (enumerate (reverse (PYRO_STACK s))) None msg s);
  do msg1 <- fill_value (snd r);
  match fst r with
  | None => raise UnboundLocalError
  | Some pointer =>
      (fun s => postprocess_loop
                  (py_slice_from (PYRO_STACK s) (- Z.of_nat pointer - 1)) msg1 s) ;;
      ret msg1
  end.

(** [msg["value"]] of the message that [apply_stack] returns; it is never
    [None] there (see [apply_stack_value]). *)
Definition value_of (msg : message) : M tensor :=
  match m_value msg with
  | Some v => ret v
  | None => raise TypeError
  end.

(** ** The primitives *)

Definition sample (name : string) (fn : dist) (obs : option tensor) : M tensor :=
  fun s =>
  match PYRO_STACK s with
  | [] => draw fn s
  | _ :: _ =>
      let initial_msg := Message sample_type name (DistFn fn) NoArgs obs false in
      (do msg <- apply_stack initial_msg; value_of msg) s
  end.

Definition param (name : string) (init_value : option tensor) (c : constraint)
    : M tensor := fun s =>
  match PYRO_STACK s with
  | [] => param_fn name init_value c s
  | _ :: _ =>
      let initial_msg :=
        Message param_type name (ParamFn name) (ParamArgs init_value c) None false in
      (do msg <- apply_stack initial_msg; value_of msg) s
  end.

(** ** elbo *)

(** [site["fn"].log_prob(site["value"]).sum()] *)
Definition site_log_prob (site : message) : result tensor :=
  match m_fn site with
  | DistFn d =>
      match m_value site with
      | Some v => Ok (tsum (log_prob d v))
      | None => Raise TypeError
      end
  | ParamFn _ => Raise AttributeError
  end.

(** One of the two loops of [elbo]: [op] is [+] for the model trace and
    [-] for the guide trace. *)
Fixpoint elbo_loop (op : tensor -> tensor -> tensor) (sites : list message)
    (acc : tensor) : result tensor :=
  match sites with
  | [] => Ok acc
  | site :: rest =>
      if msg_type_eqb (m_type site) sample_type then
        match site_log_prob site with
        | Ok x => elbo_loop op rest (op acc x)
        | Raise e => Raise e
        end
      else elbo_loop op rest acc
  end.

Definition lift {A} (r : result A) : M A := fun s => (r, s).

Definition elbo {A B} (model : M A) (guide : M B) : M tensor :=
  do t1 <- new trace;
  do guide_trace <- get_trace t1 guide;
  do r <- new (replay guide_trace);
  do t2 <- new trace;
  do model_trace <- get_trace t2 (__call__ r model);
  do acc1 <- lift (elbo_loop tadd (od_values model_trace) tzero);
  do acc2 <- lift (elbo_loop tsub (od_values guide_trace) acc1);
  ret (tneg acc2).

(** ** Models

    A model or guide is Python code that reaches this module only through
    [sample], [param], handler scopes and [get_trace]; what it does with
    the values in between is the continuation. *)
Inductive prog : Type -> Type :=
| Ret {A} (a : A) : prog A
| Sample {A} (name : string) (fn : dist) (obs : option tensor)
    (k : tensor -> prog A) : prog A
| Param {A} (name : string) (init_value : option tensor) (c : constraint)
    (k : tensor -> prog A) : prog A
| With {A B} (h : handler) (body : prog B) (k : B -> prog A) : prog A
| GetTrace {A B} (body : prog B) (k : OrderedDict -> prog A) : prog A.

Fixpoint run {A} (p : prog A) : M A :=
  match p with
  | Ret a => ret a
  | Sample name fn obs k => do v <- sample name fn obs; run (k v)
  | Param name init_value c k => do v <- param name init_value c; run (k v)
  | With h body k =>
      do self <- new h; do b <- __call__ self (run body); run (k b)
  | GetTrace body k =>
      do self <- new trace; do tr <- get_trace self (run body); run (k tr)
  end.

(** ** The dispatch protocol as the specification words it *)

(** The pre-phase over the handlers listed innermost first: the handlers
    whose [process_message] hook runs, and the message (or the exception)
    they leave.  The first hook after which [stop] is set ends it. *)
Fixpoint pre_phase (hs : list href) (msg : message) : list href * result message :=
  match hs with
  | [] => ([], Ok msg)
  | h :: hs' =>
      match process_message h msg with
      | Raise e => ([h], Raise e)
      | Ok msg1 =>
          if m_stop msg1 then ([h], Ok msg1)
          else let r := pre_phase hs' msg1 in (h :: r.1, r.2)
      end
  end.

Definition log_all (s : state) (evs : list event) : state :=
  State (PYRO_STACK s) (PARAM_STORE s) (traces s) (next_id s) (rng s)
        (events s ++ evs).

Definition is_hook_event (e : event) : bool :=
  match e with
  | EvProcess _ | EvPostprocess _ => true
  | _ => false
  end.

Definition is_descriptor_event (e : event) : bool :=
  match e with
  | EvDraw | EvParamFn _ => true
  | _ => false
  end.

(** How many times a descriptor was invoked in a stretch of the log. *)
Fixpoint invocations (evs : list event) : nat :=
  match evs with
  | [] => 0
  | e :: evs' => ((if is_descriptor_event e then 1 else 0) + invocations evs')%nat
  end.

(** What [apply_stack] appended to the log of [s]. *)
Definition new_events (s s' : state) : list event :=
  drop (length (events s)) (events s').

(** Messages as [sample] and [param] build them: a distribution with no
    arguments, or the closure of [param] with its two arguments. *)
Definition well_formed (msg : message) : bool :=
  match m_fn msg, m_args msg with
  | DistFn _, NoArgs | ParamFn _, ParamArgs _ _ => true
  | _, _ => false
  end.

(** A replay handler that leaves messages named [name] alone; every
    handler of another class does. *)
Definition leaves_value (name : string) (h : href) : bool :=
  match hcls h with
  | replay guide_trace => negb (od_contains guide_trace name)
  | _ => true
  end.

(** Handlers whose hooks cannot raise. *)
Definition quiet (h : href) : bool :=
  match hcls h with
  | trace | PlateMessenger _ _ => false
  | _ => true
  end.

(** [hide_fn=lambda msg: msg["type"] == "sample"] *)
Definition is_sample (msg : message) : bool := msg_type_eqb (m_type msg) sample_type.

(** The dispatch protocol as the specification describes it, over the
    handlers [hs] in entry order: the pre-phase, the descriptor when the
    value is still unset, then the post-hooks of the handlers reached, in
    entry order.  It is defined for zero handlers too. *)
Definition dispatch_spec (hs : list href) (msg : message) : M message := fun s =>
  let pre := pre_phase (reverse hs) msg in
  let s1 := log_all s ((fun h => EvProcess (hid h)) <$> pre.1) in
  match pre.2 with
  | Raise e => (Raise e, s1)
  | Ok msg1 =>
      (do msg2 <- fill_value msg1;
       postprocess_loop (reverse pre.1) msg2 ;; ret msg2) s1
  end.

(** [sample] and [param] as that protocol over zero handlers. *)
Definition sample_by_dispatch (name : string) (fn : dist) (obs : option tensor)
    : M tensor :=
  do msg <- dispatch_spec [] (Message sample_type name (DistFn fn) NoArgs obs false);
  value_of msg.

Definition param_by_dispatch (name : string) (init_value : option tensor)
    (c : constraint) : M tensor :=
  do msg <- dispatch_spec []
              (Message param_type name (ParamFn name) (ParamArgs init_value c) None false);
  value_of msg.

(** The kind of a message agrees with its descriptor, as in the messages
    that [sample] and [param] build. *)
Definition consistent (msg : message) : bool :=
  match m_type msg, m_fn msg with
  | sample_type, DistFn _ | param_type, ParamFn _ => true
  | _, _ => false
  end.

(** What a post-hook is handed: a consistent message with its value set. *)
Definition recordable (msg : message) : bool :=
  match m_value msg with
  | Some _ => consistent msg
  | None => false
  end.

(** A property of the trace that the object [tid] holds, if any. *)
Definition slot (Q : OrderedDict -> Prop) (tid : nat) (s : state) : Prop :=
  forall tr, traces s !! tid = Some tr -> Q tr.

Definition preserves {A} (I : state -> Prop) (m : M A) : Prop :=
  forall s, I s -> I (m s).2.

(** The terms [fn.log_prob(value).sum()] of the Sample-type sites of a
    trace, in order; undefined when one of these sites has no distribution
    or no value. *)
Fixpoint site_terms (sites : list message) : option (list tensor) :=
  match sites with
  | [] => Some []
  | site :: rest =>
      if is_sample site then
        match m_fn site, m_value site, site_terms rest with
        | DistFn d, Some v, Some terms => Some (tsum (log_prob d v) :: terms)
        | _, _, _ => None
        end
      else site_terms rest
  end.

(** The sum of a list of terms. *)
Definition tsum_list (terms : list tensor) : tensor := foldr tadd tzero terms.

(** The two traced runs inside [elbo]. *)
Definition guide_run {B} (guide : M B) : M OrderedDict :=
  do t1 <- new trace; get_trace t1 guide.

Definition model_run {A} (model : M A) (guide_trace : OrderedDict) : M OrderedDict :=
  do r <- new (replay guide_trace);
  do t2 <- new trace;
  get_trace t2 (__call__ r model).

(** Any two distinct entries of a trace have different names. *)
Definition unique_names (tr : OrderedDict) : Prop :=
  forall i j e1 e2, i <> j -> tr !! i = Some e1 -> tr !! j = Some e2 -> e1.1 <> e2.1.

(** A trace without Sample-type entries. *)
Definition no_sample_sites (tr : OrderedDict) : bool :=
  forallb (fun site => negb (is_sample site)) (od_values tr).

(** The handler object [tid] sits outside a block that hides every
    Sample-type message, and every handler entered after that block is
    another object. *)
Definition hidden_from (tid : nat) (st : list href) : Prop :=
  exists pre b f extra,
    st = pre ++ b :: extra /\ hcls b = block f /\
    (forall m, is_sample m = true -> f m = true) /\
    Forall (fun h => hid h <> tid) extra.

(** [self.trace] of the object [tid], if it has one, has no Sample-type
    entries. *)
Definition clean (tid : nat) (s : state) : Prop :=
  forall tr, traces s !! tid = Some tr -> no_sample_sites tr = true.

(** The value of [pointer] after the first loop has gone through
    [reached], when it started at index [i]. *)
Definition pointer_after (i : nat) (pointer : option nat) (reached : list href)
    : option nat :=
  match reached with
  | [] => pointer
  | _ :: _ => Some (i + length reached - 1)%nat
  end.

(** A computation that leaves the handler stack as it found it, whether
    it returns or raises. *)
Definition balanced {A} (m : M A) : Prop :=
  forall s, PYRO_STACK (m s).2 = PYRO_STACK s.

(** What a model keeps true of the trace object [tid] while that object
    stays hidden behind a block. *)
Definition keeps {A} (tid : nat) (m : M A) : Prop :=
  forall s, hidden_from tid (PYRO_STACK s) ->
            (tid < next_id s)%nat -> clean tid s ->
            (tid < next_id (m s).2)%nat /\ clean tid (m s).2.

(** Every entry of a trace is a consistent message with its value set. *)
Definition all_recordable (tr : OrderedDict) : Prop :=
  Forall (fun e => recordable e.2 = true) tr.


(** The default [hide_fn] of [block]: hide everything. *)
Definition default_hide_fn (msg : message) : bool := true.

End MiniPyro.

(** ** A concrete numeric engine

    Integers for tensors; a constraint [k] is the shift by [k]; a
    distribution is a location and a batch shape, and drawing adds the seed
    to the location and advances the seed. *)

Definition ZTorch : Torch := {|
  tensor := Z;
  constraint := Z;
  dist := Z * list Z;
  generator := Z;
  real := 0;
  transform_to := fun k u => u + k;
  transform_to_inv := fun k x => x - k;
  detach := fun x => x;
  batch_shape := fun d => d.2;
  expand := fun d shape => Some (d.1, shape);
  dist_call := fun d g => (d.1 + g, g + 1);
  log_prob := fun d x => - Z.abs (x - d.1);
  tsum := fun x => x;
  tzero := 0;
  tadd := Z.add;
  tsub := Z.sub;
  tneg := Z.opp
|}.

Module Concrete.
#[local] Existing Instance ZTorch.

Definition d1 : dist := (10, []).
Definition d2 : dist := (20, []).

(** The state of a fresh process, the seed being 5. *)
Definition s_init : state := State [] ∅ ∅ 0%nat 5 [].

Definition site_x : message :=
  Message sample_type "x" (DistFn d2) NoArgs (Some 25) false.
Definition g_x : OrderedDict := [("x", site_x)].

Definition t0 : href := Href 0 trace.
Definition b1 : href := Href 1 (block is_sample).
Definition t2 : href := Href 2 trace.
Definition r3 : href := Href 3 (replay g_x).
Definition m4 : href := Href 4 Messenger.

(** [with trace(): with block(hide_fn=is_sample): with trace(): ..] *)
Definition s_nested : state :=
  State [t0; b1; t2] ∅ (<[0%nat := []]> (<[2%nat := []]> ∅)) 3%nat 5 [].

(** [with replay(guide_trace=g_x): ..] and the same inside a Messenger. *)
Definition s_replay : state := State [r3] ∅ ∅ 4%nat 5 [].
Definition s_replay_in : state := State [m4; r3] ∅ ∅ 5%nat 5 [].

(** Under a trace handler that has recorded the site x. *)
Definition s_traced : state := State [t0] ∅ (<[0%nat := g_x]> ∅) 1%nat 5 [].

(** Under a plain Messenger; with p in the parameter store. *)
Definition s_plain : state := State [m4] ∅ ∅ 5%nat 5 [].
Definition s_stored : state := State [] (<["p" := (7, 2)]> ∅) ∅ 0%nat 5 [].
Definition s_stored_in : state := State [m4] (<["p" := (7, 2)]> ∅) ∅ 5%nat 5 [].

Definition msg_x : message := Message sample_type "x" (DistFn d1) NoArgs None false.
Definition msg_p : message :=
  Message param_type "p" (ParamFn "p") (ParamArgs (Some 9) 2) None false.

(** A model with a sample site and a param site, and a guide. *)
Definition model1 : prog tensor :=
  Sample "x" d1 None (fun x => Param "p" (Some x) 2 (fun p => Ret (x + p))).
Definition guide1 : prog tensor := Sample "x" d2 None Ret.

End Concrete.

(** ** Further notions used by the properties of the rest of the module *)

Section MiniPyroRest.
Context `{T : Torch}.

Notation "'do' x <- m ; k" := (bind m (fun x => k))
  (at level 10, x name, m at level 100, k at level 200).
Notation "m ;; k" := (bind m (fun _ => k))
  (at level 100, k at level 200, right associativity).

(** The trace that the object [tid] holds extends [tr], and [tid] is an
    object that exists already. *)
Definition grown (tid : nat) (tr : OrderedDict) (s : state) : Prop :=
  (tid < next_id s)%nat /\ exists more, traces s !! tid = Some (tr ++ more).

(** The parameter store holds [entry] under [name]. *)
Definition stored (name : string) (entry : tensor * constraint) (s : state) : Prop :=
  PARAM_STORE s !! name = Some entry.


(** Two states that differ at most in the handler stack. *)
Definition same_but_stack (s1 s2 : state) : Prop :=
  PARAM_STORE s1 = PARAM_STORE s2 /\ traces s1 = traces s2 /\
  next_id s1 = next_id s2 /\ rng s1 = rng s2 /\ events s1 = events s2.


(** A handler on the stack of [s] as Python has it there: a trace handler
    that has been entered holds a trace, and a PlateMessenger was built
    with a negative [dim]. *)
Definition wf_handler (s : state) (h : href) : Prop :=
  match hcls h with
  | trace => is_Some (traces s !! hid h)
  | PlateMessenger _ dim => dim < 0
  | _ => True
  end.

Definition wf_stack (s : state) : Prop := Forall (wf_handler s) (PYRO_STACK s).

(** The exceptions a model can raise: the three assertions of the module
    and the shape error of [expand]. *)
Definition expected (e : exn) : Prop := e = AssertionError \/ e = RuntimeError.

(** A message as [sample] and [param] build it and the hooks keep it. *)
Definition proper (msg : message) : bool := consistent msg && well_formed msg.

(** A computation that removes the trace of no object. *)
Definition keeps_slots {A} (m : M A) : Prop :=
  forall s i, is_Some (traces s !! i) -> is_Some (traces (m s).2 !! i).

(** From a well-formed stack, the computation raises only expected
    exceptions. *)
Definition raises_expected {A} (m : M A) : Prop :=
  forall s, wf_stack s -> forall e, (m s).1 = Raise e -> expected e.


(** ** The scope that opens [SVI.step] *)

(** The Param-type entries of a trace, in order. *)
Definition param_sites (tr : OrderedDict) : list message :=
  filter (fun site => is_sample site = false) (od_values tr).

(** [with trace() as param_capture:
       with block(hide_fn=lambda msg: msg["type"] == "sample"):
         loss = self.loss(self.model, self.guide, ..)]
    and the sites [param_capture.values()] that the comprehension
    after it goes through.  [param_capture] is the dictionary that the
    trace handler holds. *)
Definition capture_scope {A} (loss : M A) : M (A * list message) :=
  do t <- new trace;
  do l <- with_ t (do b <- new (block is_sample); with_ b loss);
  fun s => match traces s !! hid t with
           | Some param_capture => (Ok (l, od_values param_capture), s)
           | None => (Raise AttributeError, s)
           end.

(** The state in which [capture_scope] calls the loss. *)
Definition in_capture (s : state) : state :=
  State (PYRO_STACK s ++ [Href (next_id s) trace; Href (S (next_id s)) (block is_sample)])
        (PARAM_STORE s) (<[next_id s := []]> (traces s)) (S (S (next_id s)))
        (rng s) (events s).

(** The stack holds the trace object [tc], then a block that hides the
    Sample-type messages, then the trace object [t]; every other handler
    on it is another object. *)
Definition under_capture (tc t : nat) (st : list href) : Prop :=
  exists pre c b h inner,
    st = pre ++ [c; b; h] ++ inner /\
    hid c = tc /\ hcls c = trace /\ hcls b = block is_sample /\
    hid h = t /\ hcls h = trace /\
    Forall (fun x => hid x <> tc /\ hid x <> t) (pre ++ inner).

(** Since [t] was entered, the trace of [tc] has gained the Param-type
    sites that the trace of [t] holds. *)
Definition captured (tc t : nat) (base : list message) (s : state) : Prop :=
  tc <> t /\ (tc < next_id s)%nat /\ (t < next_id s)%nat /\
  exists trc trt,
    traces s !! tc = Some trc /\ traces s !! t = Some trt /\
    param_sites trc = base ++ param_sites trt.

Definition pairs {A} (tc t : nat) (base : list message) (m : M A) : Prop :=
  forall s a s',
    under_capture tc t (PYRO_STACK s) -> captured tc t base s ->
    m s = (Ok a, s') -> captured tc t base s'.


(** ** Blocks with any [hide_fn] *)

(** A [hide_fn] that looks only at the type and the name of a message,
    the two entries that no handler changes. *)
Definition by_type_and_name (f : message -> bool) : Prop :=
  forall m m', m_type m = m_type m' -> m_name m = m_name m' -> f m = f m'.

(** The object [tid] sits outside a block with [hide_fn = f], and the
    block and every handler entered after it are other objects. *)
Definition behind (f : message -> bool) (tid : nat) (st : list href) : Prop :=
  exists pre b extra,
    st = pre ++ b :: extra /\ hcls b = block f /\
    Forall (fun h => hid h <> tid) (b :: extra).

(** The trace of the object [tid], if it has one, has no entry that [f]
    hides. *)
Definition free_of (f : message -> bool) (tid : nat) (s : state) : Prop :=
  forall tr, traces s !! tid = Some tr -> Forall (fun site => f site = false) (od_values tr).

Definition shields {A} (f : message -> bool) (tid : nat) (m : M A) : Prop :=
  forall s, behind f tid (PYRO_STACK s) ->
            (tid < next_id s)%nat -> free_of f tid s ->
            (tid < next_id (m s).2)%nat /\ free_of f tid (m s).2.


(** ** Replay inside [elbo] *)

(** A computation that keeps [J] of the traces when it returns, from a
    stack with [C] and with every object up to [bound] created. *)
Definition scoped {A} (bound : nat) (C : list href -> Prop)
    (J : gmap nat OrderedDict -> Prop) (m : M A) : Prop :=
  forall s a s',
    C (PYRO_STACK s) -> (bound < next_id s)%nat -> J (traces s) ->
    m s = (Ok a, s') -> (bound < next_id s')%nat /\ J (traces s').

(** The stack holds the trace object [t] and, entered next, a replay of
    [guide_trace]; the handlers outside leave messages named [name]
    alone, and every other handler is another object than [t]. *)
Definition under_replay (guide_trace : OrderedDict) (t : nat) (name : string)
    (st : list href) : Prop :=
  exists pre h r inner,
    st = pre ++ [h; r] ++ inner /\
    hid h = t /\ hcls h = trace /\ hcls r = replay guide_trace /\
    forallb (leaves_value name) pre = true /\
    Forall (fun x => hid x <> t) (pre ++ r :: inner).

(** An entry under [name] in the trace of [t] has the value [v]. *)
Definition replayed_at (t : nat) (name : string) (v : option tensor)
    (m : gmap nat OrderedDict) : Prop :=
  forall tr site, m !! t = Some tr -> (name, site) ∈ tr -> m_value site = v.


(** ** Parameters under handlers *)

(** Every trace handler among [hs] holds a trace with no entry under
    [name]. *)
Definition unrecorded (name : string) (hs : list href) (s : state) : Prop :=
  Forall (fun h => hcls h = trace ->
            exists tr, traces s !! hid h = Some tr /\ od_contains tr name = false) hs.


(** ** The sample sites of a model *)

(** The model enters only handlers of the classes [P]; [get_trace]
    enters a trace handler. *)
Fixpoint enters_only {A} (P : handler -> Prop) (p : prog A) : Prop :=
  match p with
  | Ret _ => True
  | Sample _ _ _ k => forall v, enters_only P (k v)
  | Param _ _ _ k => forall v, enters_only P (k v)
  | With h body k => P h /\ enters_only P body /\ forall b, enters_only P (k b)
  | GetTrace body k => P trace /\ enters_only P body /\ forall tr, enters_only P (k tr)
  end.

Definition not_a_block (h : handler) : Prop :=
  match h with
  | block _ => False
  | _ => True
  end.

(** [Q] holds at every [sample] statement that the run of [p] from [s]
    executes: of the arguments of the call and of the state in which it
    is made.  The body of a scope runs in the state that [__enter__]
    leaves, the rest after the scope, when it returns. *)
Fixpoint at_sample_sites {A}
    (Q : string -> dist -> option tensor -> state -> Prop)
    (p : prog A) (s : state) : Prop :=
  match p with
  | Ret _ => True
  | Sample name fn obs k =>
      Q name fn obs s /\
      match sample name fn obs s with
      | (Ok v, s1) => at_sample_sites Q (k v) s1
      | (Raise _, _) => True
      end
  | Param name init_value c k =>
      match param name init_value c s with
      | (Ok v, s1) => at_sample_sites Q (k v) s1
      | (Raise _, _) => True
      end
  | With h body k =>
      match new h s with
      | (Ok self, s1) =>
          at_sample_sites Q body (__enter__ self s1).2 /\
          match __call__ self (run body) s1 with
          | (Ok b, s2) => at_sample_sites Q (k b) s2
          | (Raise _, _) => True
          end
      | (Raise _, _) => True
      end
  | GetTrace body k =>
      match new trace s with
      | (Ok self, s1) =>
          at_sample_sites Q body (__enter__ self s1).2 /\
          match get_trace self (run body) s1 with
          | (Ok tr, s2) => at_sample_sites Q (k tr) s2
          | (Raise _, _) => True
          end
      | (Raise _, _) => True
      end
  end.

(** The pre-hook of the handler [h] runs in the dispatch of [msg] from
    [s]: no handler entered after [h] has stopped the message or raised. *)
Definition reaches (h : href) (msg : message) (s : state) : Prop :=
  h ∈ (pre_phase (reverse (PYRO_STACK s)) msg).1.

(** No hook raises in the dispatch of [msg] from [s]: the pre-phase
    returns (the [expand] of every plate it goes through succeeds), and
    the trace handlers on the stack are distinct objects that have not
    recorded the name of the message. *)
Definition hooks_return (msg : message) (s : state) : Prop :=
  (exists m, (pre_phase (reverse (PYRO_STACK s)) msg).2 = Ok m) /\
  NoDup (hid <$> PYRO_STACK s) /\ unrecorded (m_name msg) (PYRO_STACK s) s.

(** The call [sample(name, d, obs)] in [s] resolves to [v]: it draws
    nothing from [d], returns no other value than [v], and returns [v]
    when no hook raises, as when no handler on the stack can raise. *)
Definition resolves_to (v : tensor) (name : string) (d : dist)
    (obs : option tensor) (s : state) : Prop :=
  let out := sample name d obs s in
  invocations (new_events s out.2) = 0%nat /\ rng out.2 = rng s /\
  (forall x, out.1 = Ok x -> x = v) /\
  (hooks_return (Message sample_type name (DistFn d) NoArgs obs false) s ->
   out.1 = Ok v) /\
  (forallb quiet (PYRO_STACK s) = true -> out.1 = Ok v).

End MiniPyroRest.

(** ** The optimizer wrapper

    [torch.optim.Adam] belongs to the engine.  [Adam.__call__] uses its
    constructor on a single parameter and its [step], which reads and
    writes that parameter (its data and gradient) and the state of the
    optimizer object.  A parameter is a tensor object; tensors hash by
    identity, so the dictionary [optim_objs] is keyed by the object. *)
Class TorchOptim := {
  parameter : Type;
  parameter_eq :: EqDecision parameter;
  parameter_countable :: Countable parameter;
  (* what a parameter object holds *)
  contents : Type;
  (* the keyword arguments, and the state of one torch.optim.Adam object *)
  kwargs : Type;
  optimizer : Type;
  (* torch.optim.Adam([param], **optim_args) and optim.step() *)
  torch_optim_Adam : parameter -> kwargs -> optimizer;
  step : optimizer -> contents -> optimizer * contents
}.

Module Adam.
Section Adam.
Context `{opt : TorchOptim}.

Record object := Object {
  optim_args : kwargs;
  optim_objs : gmap parameter optimizer
}.

(** The contents of every parameter object. *)
Definition memory := parameter -> contents.

Definition __init__ (optim_args : kwargs) : object := Object optim_args ∅.

(** The body of the loop.  [optim] is the object that [optim_objs] holds
    for [param], so the state that [step] leaves is the one found there
    at the next call. *)
Definition loop_body (st : object * memory) (param : parameter) : object * memory :=
  let '(self, mem) := st in
  let '(optim, self1) :=
    match optim_objs self !! param with
    | Some optim => (optim, self)
    | None =>
        let optim := torch_optim_Adam param (optim_args self) in
        (optim, Object (optim_args self) (<[param := optim]> (optim_objs self)))
    end in
  let '(optim', x) := step optim (mem param) in
  (Object (optim_args self1) (<[param := optim']> (optim_objs self1)),
   fun q => if decide (q = param) then x else mem q).

Definition __call__ (self : object) (params : list parameter) (mem : memory)
    : object * memory :=
  foldl loop_body (self, mem) params.

(** What [n] steps make of a parameter and its optimizer. *)
Definition steps (n : nat) (start : optimizer * contents) : optimizer * contents :=
  Nat.iter n (fun oc => step oc.1 oc.2) start.

(** How often [param] occurs in [params]. *)
Definition occurrences (param : parameter) (params : list parameter) : nat :=
  length (filter (fun q => q = param) params).

End Adam.
End Adam.

(** ** More concrete data *)

(** An optimizer that counts its steps and moves the parameter down by
    the learning rate; parameters are named by strings. *)
Definition ZOptim : TorchOptim := {|
  parameter := string;
  contents := Z;
  kwargs := Z;
  optimizer := nat * Z;
  torch_optim_Adam := fun _ lr => (0%nat, lr);
  step := fun o x => ((S o.1, o.2), x - o.2)
|}.

Module ConcreteRest.
#[local] Existing Instance ZTorch.
#[local] Existing Instance ZOptim.
Import Concrete.

(** A guide with a param site q and the sample site x. *)
Definition guide2 : prog tensor :=
  Param "q" (Some 1) 0 (fun q => Sample "x" d2 None Ret).

(** [hide_fn = lambda msg: msg["name"] == "x"] *)
Definition hide_x (msg : message) : bool := String.eqb (m_name msg) "x".

(** A plate of size 3 at dim -2, and a site whose distribution has the
    batch shape [4]. *)
Definition p5 : href := Href 5 (PlateMessenger 3 (-2)).
Definition msg_b : message :=
  Message sample_type "x" (DistFn (10, [4])) NoArgs None false.
Definition d34 : dist := (10, [3; 4]).

(** A second plate, of size 5 at dim -1, and a site whose distribution
    has the batch shape [1], through both plates in either order. *)
Definition p6 : href := Href 6 (PlateMessenger 5 (-1)).
Definition msg_1 : message :=
  Message sample_type "x" (DistFn (10, [1])) NoArgs None false.
Definition msg_31 : message := set_fn msg_1 (DistFn (10, [3; 1])).
Definition msg_5 : message := set_fn msg_1 (DistFn (10, [5])).
Definition msg_35 : message := set_fn msg_1 (DistFn (10, [3; 5])).

(** A model that samples x inside a trace scope of its own, and one
    that samples x inside a block of its own, with the default hide_fn. *)
Definition model_traced : prog OrderedDict :=
  GetTrace (Sample "x" d1 None Ret) Ret.
Definition model_blocked : prog tensor :=
  With (block default_hide_fn) (Sample "x" d1 None Ret) Ret.

(** Inside [replay(model_traced, g_x)()] at the sample statement. *)
Definition s_replay_trace : state :=
  State [Href 0 (replay g_x); Href 1 trace] ∅ (<[1%nat := []]> ∅) 2%nat 5 [].

(** Under a trace handler that has recorded nothing: with p in the
    store, as [param("p", 7, 2)] stores it, and with an empty store. *)
Definition s_traced_p : state :=
  State [t0] (<["p" := (5, 2)]> ∅) (<[0%nat := []]> ∅) 1%nat 5 [].
Definition s_traced_empty : state :=
  State [t0] ∅ (<[0%nat := []]> ∅) 1%nat 5 [].

Definition adam0 : Adam.object := Adam.__init__ 2.
Definition mem0 : Adam.memory := fun _ => 10.

End ConcreteRest.

(** * Properties *)

Section Properties.
Context `{T : Torch}.

Ltac rewrite_match_fn :=
  match goal with
  | H : m_fn ?m = _ |- _ => rewrite H
  end.

Notation "'do' x <- m ; k" := (bind m (fun x => k))
  (at level 10, x name, m at level 100, k at level 200).
Notation "m ;; k" := (bind m (fun _ => k))
  (at level 100, k at level 200, right associativity).

(** ** Python lists *)

Lemma py_index_last {A} (l : list A) (x : A) : py_index (l ++ [x]) (-1) = Some x.
Proof.
  unfold py_index. rewrite length_app. simpl length.
  replace (Z.of_nat (length l + 1) + -1) with (Z.of_nat (length l)) by lia.
  assert ((-1 <? 0) = true) as -> by reflexivity.
  assert ((Z.of_nat (length l) <? 0) = false) as -> by (apply Z.ltb_ge; lia).
  rewrite Nat2Z.id. rewrite lookup_app_r by lia.
  by rewrite Nat.sub_diag.
Qed.

Lemma py_index_nil {A} (i : Z) : py_index (@nil A) i = None.
Proof.
  unfold py_index. change (Z.of_nat (length (@nil A))) with 0. rewrite Z.add_0_l.
  by destruct (i <? 0).
Qed.

Lemma removelast_snoc {A} (l : list A) (x : A) : removelast (l ++ [x]) = l.
Proof. apply removelast_last. Qed.

(** [l[-p-1:]] is the last [p+1] elements when there are that many. *)
Lemma py_slice_from_neg {A} (l : list A) (p : nat) :
  (p < length l)%nat ->
  py_slice_from l (- Z.of_nat p - 1) = drop (length l - S p) l.
Proof.
  intros Hp. unfold py_slice_from.
  assert ((- Z.of_nat p - 1 <? 0) = true) as -> by (apply Z.ltb_lt; lia).
  f_equal. lia.
Qed.

(** ** What each operation leaves alone *)

Lemma process_loop_frame it pointer msg s r s' :
  process_loop it pointer msg s = (r, s') ->
  PYRO_STACK s' = PYRO_STACK s /\ PARAM_STORE s' = PARAM_STORE s /\
  traces s' = traces s /\ next_id s' = next_id s /\ rng s' = rng s.
Proof.
  revert pointer msg s. induction it as [|[i h] it IH]; intros pointer msg s; simpl.
  - unfold ret. intros [= <- <-]. done.
  - destruct (process_message h msg) as [msg1|e]; [|intros [= <- <-]; done].
    destruct (m_stop msg1); [intros [= <- <-]; done|].
    intros H. apply IH in H. simpl in H. done.
Qed.

Lemma call_fn_frame msg s r s' :
  call_fn msg s = (r, s') ->
  PYRO_STACK s' = PYRO_STACK s /\ traces s' = traces s /\ next_id s' = next_id s.
Proof.
  unfold call_fn, draw, param_fn, raise.
  destruct (m_fn msg), (m_args msg); simpl;
    repeat (case_match; simpl); intros [= <- <-]; done.
Qed.

Lemma fill_value_frame msg s r s' :
  fill_value msg s = (r, s') ->
  PYRO_STACK s' = PYRO_STACK s /\ traces s' = traces s /\ next_id s' = next_id s.
Proof.
  unfold fill_value, bind, ret. destruct (m_value msg); [intros [= <- <-]; done|].
  destruct (call_fn msg s) as [[v|e] s1] eqn:E; intros [= <- <-];
    by apply call_fn_frame in E.
Qed.

Lemma postprocess_message_frame h msg s r s' :
  postprocess_message h msg s = (r, s') ->
  PYRO_STACK s' = PYRO_STACK s /\ next_id s' = next_id s /\
  PARAM_STORE s' = PARAM_STORE s /\ rng s' = rng s.
Proof.
  unfold postprocess_message.
  repeat (case_match; simpl); intros [= <- <-]; done.
Qed.

Lemma postprocess_message_events h msg s r s' :
  postprocess_message h msg s = (r, s') -> events s' = events s.
Proof.
  unfold postprocess_message.
  repeat (case_match; simpl); intros [= <- <-]; done.
Qed.

Lemma postprocess_loop_frame hs msg s r s' :
  postprocess_loop hs msg s = (r, s') ->
  PYRO_STACK s' = PYRO_STACK s /\ next_id s' = next_id s /\
  PARAM_STORE s' = PARAM_STORE s /\ rng s' = rng s.
Proof.
  revert s. induction hs as [|h hs IH]; intros s; simpl.
  - intros [= <- <-]. done.
  - unfold bind at 1.
    destruct (postprocess_message h msg _) as [[[]|e] s1] eqn:E;
      apply postprocess_message_frame in E; simpl in E.
    + intros H. apply IH in H. intuition congruence.
    + intros [= <- <-]. done.
Qed.

Lemma apply_stack_frame msg s r s' :
  apply_stack msg s = (r, s') ->
  PYRO_STACK s' = PYRO_STACK s /\ next_id s' = next_id s.
Proof.
  unfold apply_stack, bind.
  destruct (process_loop _ _ _ s) as [[[pointer msg1]|e] s1] eqn:E1;
    apply process_loop_frame in E1; [|intros [= <- <-]; intuition].
  simpl.
  destruct (fill_value msg1 s1) as [[msg2|e] s2] eqn:E2;
    apply fill_value_frame in E2; [|intros [= <- <-]; intuition congruence].
  destruct pointer as [p|]; [|intros [= <- <-]; intuition congruence].
  destruct (postprocess_loop _ _ s2) as [[[]|e] s3] eqn:E3;
    apply postprocess_loop_frame in E3; intros [= <- <-]; intuition congruence.
Qed.

Lemma value_of_frame msg s r s' : value_of msg s = (r, s') -> s' = s.
Proof. unfold value_of. destruct (m_value msg); by intros [= <- <-]. Qed.

Lemma sample_frame name fn obs s r s' :
  sample name fn obs s = (r, s') ->
  PYRO_STACK s' = PYRO_STACK s /\ next_id s' = next_id s.
Proof.
  unfold sample. destruct (PYRO_STACK s) eqn:Est.
  - unfold draw. destruct (dist_call fn (rng s)). intros [= <- <-]. simpl. done.
  - unfold bind. destruct (apply_stack _ s) as [[msg|e] s1] eqn:E;
      apply apply_stack_frame in E.
    + intros H. apply value_of_frame in H. subst. intuition congruence.
    + intros [= <- <-]. intuition congruence.
Qed.

Lemma param_fn_frame name init c s r s' :
  param_fn name init c s = (r, s') ->
  PYRO_STACK s' = PYRO_STACK s /\ traces s' = traces s /\ next_id s' = next_id s.
Proof.
  unfold param_fn. repeat (case_match; simpl); intros [= <- <-]; done.
Qed.

Lemma param_frame name init c s r s' :
  param name init c s = (r, s') ->
  PYRO_STACK s' = PYRO_STACK s /\ next_id s' = next_id s.
Proof.
  unfold param. destruct (PYRO_STACK s) eqn:Est.
  - intros H. apply param_fn_frame in H. intuition congruence.
  - unfold bind. destruct (apply_stack _ s) as [[msg|e] s1] eqn:E;
      apply apply_stack_frame in E.
    + intros H. apply value_of_frame in H. subst. intuition congruence.
    + intros [= <- <-]. intuition congruence.
Qed.

Lemma new_spec c s r s' :
  new c s = (r, s') ->
  PYRO_STACK s' = PYRO_STACK s /\ traces s' = traces s /\
  PARAM_STORE s' = PARAM_STORE s /\ rng s' = rng s /\ events s' = events s /\
  match r with
  | Ok h => h = Href (next_id s) c /\ next_id s' = S (next_id s)
  | Raise _ => s' = s
  end.
Proof.
  unfold new. destruct c; try (intros [= <- <-]; done).
  destruct (dim <? 0); intros [= <- <-]; done.
Qed.

(** ** The two loops of apply_stack *)

Lemma log_all_nil s : log_all s [] = s.
Proof. destruct s. unfold log_all. simpl. by rewrite app_nil_r. Qed.

Lemma log_log_all s e evs : log_all (log s e) evs = log_all s (e :: evs).
Proof. unfold log_all, log. simpl. by rewrite <- app_assoc. Qed.

Lemma log_all_app s l1 l2 : log_all (log_all s l1) l2 = log_all s (l1 ++ l2).
Proof. unfold log_all. simpl. by rewrite <- app_assoc. Qed.

Lemma process_loop_spec hs i pointer msg s :
  process_loop (zip (seq i (length hs)) hs) pointer msg s =
  (match (pre_phase hs msg).2 with
   | Ok msg1 => Ok (pointer_after i pointer (pre_phase hs msg).1, msg1)
   | Raise e => Raise e
   end,
   log_all s ((fun h => EvProcess (hid h)) <$> (pre_phase hs msg).1)).
Proof.
  revert i pointer msg s. induction hs as [|h hs IH]; intros i pointer msg s.
  - simpl. unfold ret. by rewrite log_all_nil.
  - simpl. destruct (process_message h msg) as [msg1|e]; simpl.
    + destruct (m_stop msg1); simpl.
      * replace (i + 1 - 1)%nat with i by lia. done.
      * rewrite IH. rewrite log_log_all. f_equal.
        destruct (pre_phase hs msg1) as [reached [m|e]]; simpl; [|done].
        do 2 f_equal. destruct reached; simpl; f_equal; lia.
    + done.
Qed.

Lemma pre_phase_prefix hs msg : exists outer, hs = (pre_phase hs msg).1 ++ outer.
Proof.
  revert msg. induction hs as [|h hs IH]; intros msg; simpl.
  - by exists [].
  - destruct (process_message h msg) as [msg1|e]; [|by exists hs].
    destruct (m_stop msg1); [by exists hs|].
    destruct (IH msg1) as [outer Ho]. exists outer. simpl. by rewrite <- Ho.
Qed.

Lemma pre_phase_nonempty hs msg : hs <> [] -> (pre_phase hs msg).1 <> [].
Proof.
  destruct hs as [|h hs]; [done|]. intros _. simpl.
  destruct (process_message h msg) as [msg1|e]; [|done].
  by destruct (m_stop msg1).
Qed.

Lemma process_message_type h msg msg1 :
  process_message h msg = Ok msg1 ->
  m_type msg1 = m_type msg /\ m_name msg1 = m_name msg /\ m_args msg1 = m_args msg.
Proof.
  unfold process_message.
  repeat (case_match; simpl); intros [= <-]; done.
Qed.

Lemma pre_phase_type hs msg msg1 :
  (pre_phase hs msg).2 = Ok msg1 ->
  m_type msg1 = m_type msg /\ m_name msg1 = m_name msg /\ m_args msg1 = m_args msg.
Proof.
  revert msg. induction hs as [|h hs IH]; intros msg; simpl.
  - by intros [= <-].
  - destruct (process_message h msg) as [m|e] eqn:E; [|done].
    apply process_message_type in E.
    destruct (m_stop m); simpl.
    + intros [= <-]. done.
    + intros H. apply IH in H. intuition congruence.
Qed.

(** The last [length reached] handlers of the stack, in entry order. *)
Lemma slice_reached st msg :
  st <> [] ->
  let reached := (pre_phase (reverse st) msg).1 in
  py_slice_from st (- Z.of_nat (length reached - 1) - 1) = reverse reached.
Proof.
  intros Hst reached.
  destruct (pre_phase_prefix (reverse st) msg) as [outer Ho].
  fold reached in Ho.
  assert (reached <> []) as Hne.
  { apply pre_phase_nonempty. intros E. apply Hst.
    apply (f_equal reverse) in E. by rewrite reverse_involutive in E. }
  assert (st = reverse outer ++ reverse reached) as Est.
  { rewrite <- reverse_app, <- Ho. by rewrite reverse_involutive. }
  assert (length reached <> 0)%nat as Hlen by (by destruct reached).
  rewrite py_slice_from_neg.
  - rewrite Est at 2. rewrite drop_app_length'; [done|].
    rewrite Est, length_app, !length_reverse. lia.
  - rewrite Est, length_app, !length_reverse. lia.
Qed.

Lemma postprocess_loop_events hs msg s :
  exists done_, done_ `prefix_of` hs /\
    events (postprocess_loop hs msg s).2 =
      events s ++ ((fun h => EvPostprocess (hid h)) <$> done_) /\
    (forall u, (postprocess_loop hs msg s).1 = Ok u -> done_ = hs).
Proof.
  revert s. induction hs as [|h hs IH]; intros s; simpl.
  - exists []. simpl. by rewrite app_nil_r.
  - unfold bind.
    destruct (postprocess_message h msg (log s _)) as [[[]|e] s1] eqn:E;
      apply postprocess_message_events in E; simpl in E.
    + destruct (IH s1) as (d & Hp & He & Hok).
      exists (h :: d). split; [by apply prefix_cons|]. split.
      * rewrite He, E. simpl. by rewrite <- app_assoc.
      * intros u Hu. f_equal. eauto.
    + exists [h]. split; [apply prefix_cons, prefix_nil|]. split; [|done].
      simpl. by rewrite E.
Qed.

(** apply_stack, phase by phase. *)
Lemma apply_stack_unfold msg s :
  PYRO_STACK s <> [] ->
  let pre := pre_phase (reverse (PYRO_STACK s)) msg in
  let s1 := log_all s ((fun h => EvProcess (hid h)) <$> pre.1) in
  apply_stack msg s =
  match pre.2 with
  | Raise e => (Raise e, s1)
  | Ok msg1 =>
      match fill_value msg1 s1 with
      | (Raise e, s2) => (Raise e, s2)
      | (Ok msg2, s2) => (postprocess_loop (reverse pre.1) msg2 ;; ret msg2) s2
      end
  end.
Proof.
  intros Hst pre s1. unfold apply_stack. unfold bind at 1.
  unfold enumerate. rewrite process_loop_spec. fold pre. fold s1.
  destruct (pre.2) as [msg1|e] eqn:Epre; [|done].
  simpl. unfold bind at 1.
  destruct (fill_value msg1 s1) as [[msg2|e] s2] eqn:Ef; [|done].
  assert (pre.1 <> []) as Hne.
  { apply pre_phase_nonempty. intros E. apply Hst.
    apply (f_equal reverse) in E. by rewrite reverse_involutive in E. }
  unfold pointer_after. destruct (pre.1) as [|h reached] eqn:Er; [done|].
  rewrite Nat.add_0_l.
  assert (PYRO_STACK s2 = PYRO_STACK s) as Hs2.
  { apply fill_value_frame in Ef. by destruct Ef as [-> _]. }
  unfold bind. rewrite Hs2. rewrite <- Er. unfold pre.
  by rewrite (slice_reached (PYRO_STACK s) msg Hst).
Qed.

(** ** The log of one dispatch *)

Lemma new_events_app s s' evs : events s' = events s ++ evs -> new_events s s' = evs.
Proof. unfold new_events. intros ->. by rewrite drop_app_length. Qed.

Lemma invocations_app l1 l2 :
  invocations (l1 ++ l2) = (invocations l1 + invocations l2)%nat.
Proof. induction l1 as [|e l1 IH]; simpl; [done|]. rewrite IH. lia. Qed.

Lemma invocations_process (hs : list href) :
  invocations ((fun h => EvProcess (hid h)) <$> hs) = 0%nat.
Proof. by induction hs. Qed.

Lemma invocations_postprocess (hs : list href) :
  invocations ((fun h => EvPostprocess (hid h)) <$> hs) = 0%nat.
Proof. by induction hs. Qed.

Lemma call_fn_events msg s :
  exists evs, events (call_fn msg s).2 = events s ++ evs /\
    forallb is_descriptor_event evs = true /\
    (well_formed msg = true -> length evs = 1%nat).
Proof.
  unfold well_formed, call_fn, draw, param_fn, raise.
  destruct (m_fn msg), (m_args msg).
  - exists [EvDraw]. by destruct (dist_call d (rng s)).
  - exists []. simpl. by rewrite app_nil_r.
  - exists []. simpl. by rewrite app_nil_r.
  - exists [EvParamFn name]. simpl. by repeat case_match.
Qed.

Lemma fill_value_events msg s :
  exists evs, events (fill_value msg s).2 = events s ++ evs /\
    forallb is_descriptor_event evs = true /\
    (well_formed msg = true ->
     length evs = match m_value msg with Some _ => 0 | None => 1 end%nat).
Proof.
  unfold fill_value. destruct (m_value msg).
  - exists []. simpl. by rewrite app_nil_r.
  - destruct (call_fn_events msg s) as (evs & He & Hd & Hl).
    exists evs. unfold bind. by destruct (call_fn msg s) as [[v|err] s1].
Qed.

Lemma invocations_all evs :
  forallb is_descriptor_event evs = true -> invocations evs = length evs.
Proof.
  induction evs as [|e evs IH]; simpl; [done|].
  intros [-> H]%andb_prop. by rewrite IH.
Qed.

Lemma process_message_well_formed h msg msg1 :
  process_message h msg = Ok msg1 -> well_formed msg1 = well_formed msg.
Proof.
  intros H. unfold process_message in H.
  repeat (case_match; simplify_eq); try done.
  all: unfold well_formed; simpl; by rewrite_match_fn.
Qed.

Lemma pre_phase_well_formed hs msg msg1 :
  (pre_phase hs msg).2 = Ok msg1 -> well_formed msg1 = well_formed msg.
Proof.
  revert msg. induction hs as [|h hs IH]; intros msg; simpl.
  - by intros [= <-].
  - destruct (process_message h msg) as [m|e] eqn:E; [|done].
    apply process_message_well_formed in E.
    destruct (m_stop m); simpl.
    + by intros [= <-].
    + intros H. apply IH in H. congruence.
Qed.

(** The log of one dispatch: the pre-hooks of the handlers reached, the
    descriptor if it is called, and the post-hooks of the handlers reached,
    in entry order, as far as they get. *)
Lemma apply_stack_events msg s :
  PYRO_STACK s <> [] ->
  let pre := pre_phase (reverse (PYRO_STACK s)) msg in
  let out := apply_stack msg s in
  match pre.2 with
  | Raise e =>
      out.1 = Raise e /\
      new_events s out.2 = (fun h => EvProcess (hid h)) <$> pre.1
  | Ok msg1 =>
      exists fn_events post_done,
        new_events s out.2 =
          ((fun h => EvProcess (hid h)) <$> pre.1) ++ fn_events ++
          ((fun h => EvPostprocess (hid h)) <$> post_done) /\
        forallb is_descriptor_event fn_events = true /\
        (well_formed msg = true ->
         length fn_events = match m_value msg1 with Some _ => 0 | None => 1 end%nat) /\
        post_done `prefix_of` reverse pre.1 /\
        (forall m, out.1 = Ok m -> post_done = reverse pre.1)
  end.
Proof.
  intros Hst pre out. unfold out. rewrite (apply_stack_unfold msg s Hst). fold pre.
  destruct (pre.2) as [msg1|e] eqn:Epre.
  - set (s1 := log_all s _).
    destruct (fill_value_events msg1 s1) as (evs & He & Hd & Hl).
    rewrite (pre_phase_well_formed _ _ _ Epre) in Hl.
    destruct (fill_value msg1 s1) as [[msg2|e] s2] eqn:Ef; simpl in He.
    + unfold bind.
      destruct (postprocess_loop_events (reverse pre.1) msg2 s2) as (d & Hp & Hev & Hok).
      exists evs, d. repeat split; try done.
      * apply new_events_app.
        destruct (postprocess_loop (reverse pre.1) msg2 s2) as [[[]|e] s3];
          simpl in *; rewrite Hev, He; unfold s1; simpl; by rewrite <- !app_assoc.
      * intros m Hm.
        destruct (postprocess_loop (reverse pre.1) msg2 s2) as [[[]|e] s3];
          simpl in *; [eauto|done].
    + exists evs, []. repeat split; try done.
      * apply new_events_app. simpl. rewrite He. unfold s1. simpl.
        by rewrite app_nil_r, <- app_assoc.
      * apply prefix_nil.
  - split; [done|]. apply new_events_app. done.
Qed.

(** ** C2: when the descriptor is called *)

Lemma process_message_value h msg msg1 :
  leaves_value (m_name msg) h = true ->
  process_message h msg = Ok msg1 -> m_value msg1 = m_value msg.
Proof.
  unfold leaves_value, process_message.
  destruct (hcls h); try (intros _ [= <-]; done).
  - intros ->%negb_true_iff. by intros [= <-].
  - intros _. destruct (hide_fn msg); by intros [= <-].
  - intros _ H. by repeat (case_match; simplify_eq).
Qed.

Lemma pre_phase_value hs msg msg1 :
  forallb (leaves_value (m_name msg)) hs = true ->
  (pre_phase hs msg).2 = Ok msg1 -> m_value msg1 = m_value msg.
Proof.
  revert msg. induction hs as [|h hs IH]; intros msg; simpl.
  - by intros _ [= <-].
  - intros [Hh Hhs]%andb_prop.
    destruct (process_message h msg) as [m|e] eqn:E; [|done].
    pose proof (process_message_value _ _ _ Hh E) as Hv.
    apply process_message_type in E as (_ & Hn & _).
    destruct (m_stop m); simpl.
    + by intros [= <-].
    + intros H. apply IH in H; [congruence|]. by rewrite Hn.
Qed.

Lemma pre_phase_quiet hs msg :
  forallb quiet hs = true -> forallb (leaves_value (m_name msg)) hs = true ->
  exists msg1, (pre_phase hs msg).2 = Ok msg1.
Proof.
  revert msg. induction hs as [|h hs IH]; intros msg; simpl; [eauto|].
  intros [Hq Hqs]%andb_prop [Hl Hls]%andb_prop.
  destruct (process_message h msg) as [m|e] eqn:E.
  - destruct (m_stop m); simpl; [eauto|]. apply IH; [done|].
    apply process_message_type in E as (_ & -> & _). done.
  - unfold quiet, leaves_value, process_message in *.
    destruct (hcls h); try done.
    + apply negb_true_iff in Hl. by rewrite Hl in E.
    + by destruct (hide_fn msg).
Qed.

Lemma postprocess_loop_quiet hs msg s :
  forallb quiet hs = true -> (postprocess_loop hs msg s).1 = Ok tt.
Proof.
  revert s. induction hs as [|h hs IH]; intros s; simpl; [done|].
  intros [Hq Hqs]%andb_prop. unfold bind, postprocess_message.
  unfold quiet in Hq. destruct (hcls h); try done; by apply IH.
Qed.

Lemma forallb_reverse {A} (f : A -> bool) (l : list A) :
  forallb f (reverse l) = forallb f l.
Proof.
  induction l as [|x l IH]; [done|].
  rewrite reverse_cons, forallb_app, IH. simpl. rewrite andb_true_r. apply andb_comm.
Qed.

Lemma forallb_prefix {A} (f : A -> bool) (l1 l2 : list A) :
  forallb f (l1 ++ l2) = true -> forallb f l1 = true.
Proof. rewrite forallb_app. by intros [? ?]%andb_prop. Qed.

Lemma fill_value_value msg s msg2 s2 :
  fill_value msg s = (Ok msg2, s2) -> is_Some (m_value msg2).
Proof.
  unfold fill_value, bind, ret. destruct (m_value msg) eqn:Ev.
  - intros [= <- <-]. by rewrite Ev.
  - destruct (call_fn msg s) as [[v|e] s1]; [|done]. intros [= <- <-]. by eexists.
Qed.

(** The message that [apply_stack] returns has its value set. *)
Lemma apply_stack_value msg s msg' s' :
  apply_stack msg s = (Ok msg', s') -> is_Some (m_value msg').
Proof.
  unfold apply_stack, bind.
  destruct (process_loop _ _ _ s) as [[[pointer msg1]|e] s1]; [|done]. simpl.
  destruct (fill_value msg1 s1) as [[msg2|e] s2] eqn:Ef; [|done].
  apply fill_value_value in Ef.
  destruct pointer as [p|]; [|done].
  destruct (postprocess_loop _ _ s2) as [[[]|e] s3]; [|done].
  by intros [= <- <-].
Qed.

Lemma sample_dispatch name d obs s :
  PYRO_STACK s <> [] ->
  sample name d obs s =
  (do m <- apply_stack (Message sample_type name (DistFn d) NoArgs obs false);
   value_of m) s.
Proof. unfold sample. by destruct (PYRO_STACK s). Qed.

Lemma param_dispatch name init c s :
  PYRO_STACK s <> [] ->
  param name init c s =
  (do m <- apply_stack (Message param_type name (ParamFn name) (ParamArgs init c) None false);
   value_of m) s.
Proof. unfold param. by destruct (PYRO_STACK s). Qed.

(** A dispatch whose pre-phase leaves the value set to [v]: the
    descriptor is not called, the generator and the parameter store stay
    as they were, and [v] is the value when the dispatch returns, which
    it does when no handler can raise. *)
Lemma apply_stack_value_set msg s v :
  PYRO_STACK s <> [] ->
  (forall m, (pre_phase (reverse (PYRO_STACK s)) msg).2 = Ok m -> m_value m = Some v) ->
  let out := (do m <- apply_stack msg; value_of m) s in
  invocations (new_events s out.2) = 0%nat /\
  rng out.2 = rng s /\ PARAM_STORE out.2 = PARAM_STORE s /\
  (forall x, out.1 = Ok x -> x = v) /\
  (forallb quiet (PYRO_STACK s) = true ->
   (exists m, (pre_phase (reverse (PYRO_STACK s)) msg).2 = Ok m) -> out.1 = Ok v).
Proof.
  intros Hst Hv out.
  pose proof (apply_stack_unfold msg s Hst) as Hu. simpl in Hu.
  destruct (pre_phase_prefix (reverse (PYRO_STACK s)) msg) as [outer Ho].
  destruct (pre_phase (reverse (PYRO_STACK s)) msg) as [reached [msg1|e]];
    simpl in *.
  - specialize (Hv msg1 eq_refl).
    unfold fill_value in Hu. rewrite Hv in Hu. unfold ret at 1 in Hu.
    set (s1 := log_all s _) in *.
    destruct (postprocess_loop_events (reverse reached) msg1 s1) as (dn & _ & Hev & _).
    unfold s1 in Hev at 2. simpl in Hev. rewrite <- app_assoc in Hev.
    assert (rng (postprocess_loop (reverse reached) msg1 s1).2 = rng s /\
            PARAM_STORE (postprocess_loop (reverse reached) msg1 s1).2 = PARAM_STORE s)
      as [Hrng Hps].
    { destruct (postprocess_loop (reverse reached) msg1 s1) as [r s2] eqn:E.
      apply postprocess_loop_frame in E. simpl. by destruct E as (_ & _ & -> & ->). }
    assert (out = match postprocess_loop (reverse reached) msg1 s1 with
                  | (Ok _, s2) => (Ok v, s2)
                  | (Raise e, s2) => (Raise e, s2)
                  end) as Hout'.
    { unfold out, bind at 1. rewrite Hu. unfold bind.
      destruct (postprocess_loop (reverse reached) msg1 s1) as [[[]|e] s2]; [|done].
      unfold ret, value_of. by rewrite Hv. }
    clear Hu. clearbody out. subst out.
    destruct (postprocess_loop (reverse reached) msg1 s1) as [[[]|e] s2] eqn:Ep;
      simpl in *.
    + repeat split; try done.
      * rewrite (new_events_app s s2 _ Hev).
        by rewrite invocations_app, invocations_process, invocations_postprocess.
      * by intros r [= <-].
    + repeat split; try done.
      * rewrite (new_events_app s s2 _ Hev).
        by rewrite invocations_app, invocations_process, invocations_postprocess.
      * intros Hquiet _. exfalso.
        assert (forallb quiet (reverse reached) = true) as Hqr.
        { rewrite forallb_reverse. apply (forallb_prefix _ _ outer).
          rewrite <- Ho. by rewrite forallb_reverse. }
        pose proof (postprocess_loop_quiet _ msg1 s1 Hqr) as Hok.
        by rewrite Ep in Hok.
  - assert (out = (Raise e, log_all s ((fun h => EvProcess (hid h)) <$> reached)))
      as Hout'.
    { unfold out, bind at 1. by rewrite Hu. }
    clear Hu. clearbody out. subst out. simpl.
    repeat split; try done.
    + rewrite (new_events_app s _ ((fun h => EvProcess (hid h)) <$> reached));
        [apply invocations_process|done].
    + intros _ [m Hm]. done.
Qed.

(** C2. In a dispatch of a well-formed message the descriptor is called
    once when the value is still unset after the pre-phase and not at all
    otherwise (nor when a pre-hook raises); and [sample(name, d, obs=v)]
    under a non-empty stack none of whose handlers replays [name] draws
    nothing from [d], leaves the generator as it was, returns [v] whenever
    it returns, and does return when no handler on the stack can raise. *)
Theorem descriptor_called_iff_unset :
  (forall msg s,
     PYRO_STACK s <> [] -> well_formed msg = true ->
     invocations (new_events s (apply_stack msg s).2) =
       match (pre_phase (reverse (PYRO_STACK s)) msg).2 with
       | Ok msg1 => match m_value msg1 with Some _ => 0 | None => 1 end
       | Raise _ => 0
       end%nat) /\
  (forall name d v s,
     PYRO_STACK s <> [] ->
     forallb (leaves_value name) (PYRO_STACK s) = true ->
     let out := sample name d (Some v) s in
     invocations (new_events s out.2) = 0%nat /\
     rng out.2 = rng s /\
     (forall r, out.1 = Ok r -> r = v) /\
     (forallb quiet (PYRO_STACK s) = true -> out.1 = Ok v)).
Proof.
  split.
  - intros msg s Hst Hwf.
    pose proof (apply_stack_events msg s Hst) as H. simpl in H.
    destruct (pre_phase (reverse (PYRO_STACK s)) msg).2 as [msg1|e].
    + destruct H as (fn_events & post_done & -> & Hd & Hl & _).
      rewrite !invocations_app, invocations_process, invocations_postprocess.
      rewrite (invocations_all _ Hd), (Hl Hwf). lia.
    + destruct H as [_ ->]. apply invocations_process.
  - intros name d v s Hst Hlv out. unfold out. rewrite sample_dispatch by done.
    set (msg := Message sample_type name (DistFn d) NoArgs (Some v) false).
    assert (forall m, (pre_phase (reverse (PYRO_STACK s)) msg).2 = Ok m ->
                      m_value m = Some v) as Hv.
    { intros m. apply (pre_phase_value _ msg). by rewrite forallb_reverse. }
    destruct (apply_stack_value_set msg s v Hst Hv) as (H1 & H2 & _ & H3 & H4).
    repeat split; try done.
    intros Hq. apply H4; [done|].
    apply pre_phase_quiet; by rewrite forallb_reverse.
Qed.

(** ** Blocks *)

Lemma pre_phase_block inner b outer f msg :
  hcls b = block f ->
  (forall m, m_type m = m_type msg -> f m = true) ->
  (pre_phase (inner ++ b :: outer) msg).1 `prefix_of` inner ++ [b].
Proof.
  intros Hb Hf. revert msg Hf. induction inner as [|h inner IH]; intros msg Hf; simpl.
  - unfold process_message. rewrite Hb, Hf by done. simpl. done.
  - destruct (process_message h msg) as [m|e] eqn:E.
    + destruct (m_stop m); simpl.
      * apply prefix_cons, prefix_nil.
      * apply prefix_cons, IH. intros m' Hm'. apply Hf.
        apply process_message_type in E as (E & _). congruence.
    + apply prefix_cons, prefix_nil.
Qed.

Lemma od_set_no_sample tr name msg :
  no_sample_sites tr = true -> is_sample msg = false ->
  no_sample_sites (od_set tr name msg) = true.
Proof.
  unfold no_sample_sites, od_values. intros Htr Hm.
  induction tr as [|[k v] tr IH]; simpl in *.
  - by rewrite Hm.
  - apply andb_prop in Htr as [Hv Htr].
    destruct (String.eqb k name); simpl.
    + rewrite Hm. simpl. exact Htr.
    + rewrite Hv. simpl. by apply IH.
Qed.

Lemma postprocess_message_clean tid h msg s :
  is_sample msg = false \/ (hcls h = trace -> hid h <> tid) ->
  clean tid s -> clean tid (postprocess_message h msg s).2.
Proof.
  intros Hc Hs. unfold postprocess_message.
  destruct (hcls h) eqn:Eh; try done.
  destruct (traces s !! hid h) as [tr0|] eqn:Et; [|done].
  destruct (od_contains tr0 (m_name msg)); [done|].
  intros tr. simpl. destruct (decide (hid h = tid)) as [Heq|Hne].
  - rewrite Heq, lookup_insert_eq. intros [= <-].
    destruct Hc as [Hc|Hc]; [|by destruct Hc].
    apply od_set_no_sample; [|done]. apply Hs. by rewrite <- Heq.
  - rewrite lookup_insert_ne by done. apply Hs.
Qed.

Lemma postprocess_loop_clean tid hs msg s :
  is_sample msg = false \/ Forall (fun h => hcls h = trace -> hid h <> tid) hs ->
  clean tid s -> clean tid (postprocess_loop hs msg s).2.
Proof.
  revert s. induction hs as [|h hs IH]; intros s Hc Hs; simpl; [done|].
  unfold bind.
  assert (clean tid (postprocess_message h msg (log s (EvPostprocess (hid h)))).2) as H1.
  { apply postprocess_message_clean; [|done].
    destruct Hc as [?|Hc]; [by left|right]. by inversion Hc. }
  destruct (postprocess_message h msg _) as [[[]|e] s1]; simpl in *; [|done].
  apply IH; [|done]. destruct Hc as [?|Hc]; [by left|right]. by inversion Hc.
Qed.

Lemma msg_type_eqb_eq a b : msg_type_eqb a b = true <-> a = b.
Proof. destruct a, b; simpl; split; congruence. Qed.

Lemma fill_value_type msg s msg2 s2 :
  fill_value msg s = (Ok msg2, s2) -> m_type msg2 = m_type msg.
Proof.
  unfold fill_value, bind, ret. destruct (m_value msg); [by intros [= <- <-]|].
  destruct (call_fn msg s) as [[v|e] s1]; [|done]. by intros [= <- <-].
Qed.

Lemma hidden_from_nonempty tid st : hidden_from tid st -> st <> [].
Proof. intros (pre & b & f & extra & -> & _). by destruct pre. Qed.

Lemma apply_stack_clean tid msg s :
  hidden_from tid (PYRO_STACK s) -> clean tid s -> clean tid (apply_stack msg s).2.
Proof.
  intros Hh Hs. pose proof (hidden_from_nonempty _ _ Hh) as Hst.
  rewrite (apply_stack_unfold msg s Hst).
  destruct (pre_phase (reverse (PYRO_STACK s)) msg) as [reached [msg1|e]] eqn:Epre;
    simpl; [|done].
  set (s1 := log_all s _).
  destruct (fill_value msg1 s1) as [[msg2|e] s2] eqn:Ef.
  - assert (clean tid s2) as Hs2.
    { apply fill_value_frame in Ef as (_ & Ht & _). intros tr. rewrite Ht. apply Hs. }
    apply fill_value_type in Ef.
    assert (m_type msg1 = m_type msg) as Ety.
    { apply (pre_phase_type (reverse (PYRO_STACK s))). by rewrite Epre. }
    unfold bind.
    assert (clean tid (postprocess_loop (reverse reached) msg2 s2).2) as H.
    { apply postprocess_loop_clean; [|done].
      destruct (is_sample msg2) eqn:Es; [right|by left].
      destruct Hh as (pre & b & f & extra & Est & Hb & Hf & Hex).
      assert (reached `prefix_of` reverse extra ++ [b]) as [rest Hr].
      { replace reached with (pre_phase (reverse (PYRO_STACK s)) msg).1
          by (by rewrite Epre).
        rewrite Est, reverse_app, reverse_cons, <- app_assoc. simpl.
        apply (pre_phase_block _ _ _ f); [done|].
        intros m Hm. apply Hf. unfold is_sample in *. congruence. }
      assert (Forall (fun h => hcls h = trace -> hid h <> tid) (reverse extra ++ [b]))
        as Hall.
      { apply Forall_app. split.
        - apply Forall_reverse. eapply Forall_impl; [exact Hex|]. by intros.
        - apply Forall_singleton. congruence. }
      rewrite Hr in Hall. apply Forall_app in Hall as [Hall _].
      by apply Forall_reverse. }
    by destruct (postprocess_loop (reverse reached) msg2 s2) as [[[]|e] s3].
  - apply fill_value_frame in Ef as (_ & Ht & _). intros tr. simpl. rewrite Ht. apply Hs.
Qed.

(** ** Scopes *)

Lemma enter_stack self s :
  PYRO_STACK (__enter__ self s).2 = PYRO_STACK s ++ [self] /\
  exists r, (__enter__ self s).1 = Ok r.
Proof. unfold __enter__. destruct (hcls self); simpl; eauto. Qed.

Lemma exit_top self s st :
  PYRO_STACK s = st ++ [self] ->
  __exit__ self s = (Ok tt, set_stack s st).
Proof.
  intros E. unfold __exit__. rewrite E, py_index_last, Nat.eqb_refl.
  by rewrite removelast_snoc.
Qed.

Lemma with_balanced {A} self (body : M A) : balanced body -> balanced (with_ self body).
Proof.
  intros Hb s. unfold with_.
  destruct (enter_stack self s) as [Hst [r Hr]].
  destruct (__enter__ self s) as [r0 s1]. simpl in *. subst r0.
  specialize (Hb s1). destruct (body s1) as [[a|e] s2]; simpl in Hb;
    rewrite (exit_top self s2 (PYRO_STACK s)) by congruence; done.
Qed.

Lemma bind_balanced {A B} (m : M A) (k : A -> M B) :
  balanced m -> (forall a, balanced (k a)) -> balanced (bind m k).
Proof.
  intros Hm Hk s. unfold bind. specialize (Hm s).
  destruct (m s) as [[a|e] s1]; simpl in *; [|done].
  by rewrite Hk.
Qed.

Lemma get_trace_balanced {A} self (fn : M A) : balanced fn -> balanced (get_trace self fn).
Proof.
  intros Hb. unfold get_trace, __call__. apply bind_balanced.
  - by apply with_balanced.
  - intros _ s. by destruct (traces s !! hid self).
Qed.

Lemma new_balanced c : balanced (new c).
Proof. intros s. destruct (new c s) as [r s'] eqn:E. by apply new_spec in E as [E _]. Qed.

Lemma sample_balanced name fn obs : balanced (sample name fn obs).
Proof. intros s. destruct (sample name fn obs s) eqn:E. by apply sample_frame in E as [E _]. Qed.

Lemma param_balanced name init c : balanced (param name init c).
Proof. intros s. destruct (param name init c s) eqn:E. by apply param_frame in E as [E _]. Qed.

(** A model leaves the handler stack as it found it, whether it returns
    or raises. *)
Lemma run_balanced {A} (p : prog A) : balanced (run p).
Proof.
  induction p as [A a|A name fn obs k IH|A name init c k IH|A B h body IHb k IH
                  |A B body IHb k IH]; simpl.
  - by intros s.
  - apply bind_balanced; [apply sample_balanced|done].
  - apply bind_balanced; [apply param_balanced|done].
  - apply bind_balanced; [apply new_balanced|]. intros self.
    apply bind_balanced; [|done]. by apply with_balanced.
  - apply bind_balanced; [apply new_balanced|]. intros self.
    apply bind_balanced; [|done]. by apply get_trace_balanced.
Qed.

(** ** C6: scoped acquisition of the handler stack *)

(** C6. A handler entered and exited normally leaves the stack (so also
    its depth) as before entry, and the same holds with any model run in
    between, on its normal and on its abnormal exit; [__exit__] raises
    AssertionError, popping nothing, when the top of the stack is another
    handler; [with] pushes [self] on entry and always runs [__exit__] on the
    state its body ends in. *)
Theorem stack_balance :
  (forall self s,
     exists s', (__enter__ self ;; __exit__ self) s = (Ok tt, s') /\
                PYRO_STACK s' = PYRO_STACK s /\
                length (PYRO_STACK s') = length (PYRO_STACK s)) /\
  (forall A self (p : prog A) s,
     PYRO_STACK (with_ self (run p) s).2 = PYRO_STACK s) /\
  (forall self top s,
     py_index (PYRO_STACK s) (-1) = Some top -> hid top <> hid self ->
     __exit__ self s = (Raise AssertionError, s)) /\
  (forall A self (body : M A) s,
     let s1 := (__enter__ self s).2 in
     PYRO_STACK s1 = PYRO_STACK s ++ [self] /\
     (with_ self body s).2 = (__exit__ self (body s1).2).2).
Proof.
  split; [|split; [|split]].
  - intros self s. destruct (enter_stack self s) as [Hst [r Hr]].
    unfold bind. destruct (__enter__ self s) as [r0 s1]. simpl in *. subst r0.
    rewrite (exit_top self s1 (PYRO_STACK s)) by done. eauto.
  - intros A self p s. apply with_balanced, run_balanced.
  - intros self top s Htop Hne. unfold __exit__. rewrite Htop.
    apply Nat.eqb_neq in Hne. by rewrite Hne.
  - intros A self body s. split; [apply enter_stack|].
    destruct (enter_stack self s) as [_ [r Hr]]. unfold with_.
    destruct (__enter__ self s) as [r0 s1]. simpl in *. subst r0.
    destruct (body s1) as [[a|e] s2]; simpl; by destruct (__exit__ self s2) as [[[]|e'] s3].
Qed.

(** ** Models under a block *)

Lemma bind_keeps {A B} tid (m : M A) (k : A -> M B) :
  balanced m -> keeps tid m -> (forall a, keeps tid (k a)) -> keeps tid (bind m k).
Proof.
  intros Hb Hm Hk s Hh Hn Hc. unfold bind.
  specialize (Hb s). destruct (Hm s Hh Hn Hc) as [Hn1 Hc1].
  destruct (m s) as [[a|e] s1]; simpl in *; [|done].
  apply Hk; [by rewrite Hb|done|done].
Qed.

Lemma new_bind_keeps {B} tid c (k : href -> M B) :
  (forall self, (tid < hid self)%nat -> keeps tid (k self)) ->
  keeps tid (bind (new c) k).
Proof.
  intros Hk s Hh Hn Hc. unfold bind.
  destruct (new c s) as [[self|e] s1] eqn:E;
    apply new_spec in E as (Est & Etr & _ & _ & _ & E).
  - destruct E as [-> En]. apply Hk; simpl.
    + done.
    + by rewrite Est.
    + lia.
    + intros tr. rewrite Etr. apply Hc.
  - by subst s1.
Qed.

Lemma sample_keeps tid name fn obs : keeps tid (sample name fn obs).
Proof.
  intros s Hh Hn Hc. pose proof (hidden_from_nonempty _ _ Hh) as Hst.
  split.
  - destruct (sample name fn obs s) as [r s'] eqn:E.
    apply sample_frame in E as [_ E]. simpl. lia.
  - unfold sample. destruct (PYRO_STACK s) eqn:Est; [done|]. rewrite <- Est in *.
    unfold bind. pose proof (apply_stack_clean tid
      (Message sample_type name (DistFn fn) NoArgs obs false) s Hh Hc) as H.
    destruct (apply_stack _ s) as [[m|e] s1]; simpl in *; [|done].
    unfold value_of. by destruct (m_value m).
Qed.

Lemma param_keeps tid name init c : keeps tid (param name init c).
Proof.
  intros s Hh Hn Hc. pose proof (hidden_from_nonempty _ _ Hh) as Hst.
  split.
  - destruct (param name init c s) as [r s'] eqn:E.
    apply param_frame in E as [_ E]. simpl. lia.
  - unfold param. destruct (PYRO_STACK s) eqn:Est; [done|]. rewrite <- Est in *.
    unfold bind. pose proof (apply_stack_clean tid
      (Message param_type name (ParamFn name) (ParamArgs init c) None false) s Hh Hc) as H.
    destruct (apply_stack _ s) as [[m|e] s1]; simpl in *; [|done].
    unfold value_of. by destruct (m_value m).
Qed.

Lemma hidden_from_snoc tid st self :
  hidden_from tid st -> hid self <> tid -> hidden_from tid (st ++ [self]).
Proof.
  intros (pre & b & f & extra & -> & Hb & Hf & Hex) Hne.
  exists pre, b, f, (extra ++ [self]). split; [by rewrite <- app_assoc|].
  repeat split; try done. apply Forall_app. split; [done|by apply Forall_singleton].
Qed.

Lemma with_keeps {A} tid self (body : M A) :
  hid self <> tid -> balanced body -> keeps tid body -> keeps tid (with_ self body).
Proof.
  intros Hne Hb Hk s Hh Hn Hc. unfold with_.
  destruct (enter_stack self s) as [Hst [r Hr]].
  assert ((tid < next_id (__enter__ self s).2)%nat /\ clean tid (__enter__ self s).2)
    as [Hn1 Hc1].
  { unfold __enter__. destruct (hcls self); simpl; try done.
    split; [done|]. intros tr. simpl. rewrite lookup_insert_ne by done. apply Hc. }
  destruct (__enter__ self s) as [r0 s1]. simpl in *. subst r0.
  specialize (Hb s1).
  destruct (Hk s1) as [Hn2 Hc2]; [rewrite Hst; by apply hidden_from_snoc|done|done|].
  destruct (body s1) as [[a|e] s2]; simpl in *;
    rewrite (exit_top self s2 (PYRO_STACK s)) by congruence; done.
Qed.

Lemma get_trace_keeps {A} tid self (fn : M A) :
  hid self <> tid -> balanced fn -> keeps tid fn -> keeps tid (get_trace self fn).
Proof.
  intros Hne Hb Hk. unfold get_trace, __call__. apply bind_keeps.
  - by apply with_balanced.
  - by apply with_keeps.
  - intros _ s _ Hn Hc. by destruct (traces s !! hid self).
Qed.

(** A model run behind a block that hides Sample-type messages adds no
    Sample-type entry to a trace object outside the block. *)
Lemma run_keeps {A} tid (p : prog A) : keeps tid (run p).
Proof.
  induction p as [A a|A name fn obs k IH|A name init c k IH|A B h body IHb k IH
                  |A B body IHb k IH]; simpl.
  - by intros s.
  - apply bind_keeps; [apply sample_balanced|apply sample_keeps|done].
  - apply bind_keeps; [apply param_balanced|apply param_keeps|done].
  - apply new_bind_keeps. intros self Hlt.
    apply bind_keeps; [|apply with_keeps|done].
    + apply with_balanced, run_balanced.
    + lia.
    + apply run_balanced.
    + done.
  - apply new_bind_keeps. intros self Hlt.
    apply bind_keeps; [|apply get_trace_keeps|done].
    + apply get_trace_balanced, run_balanced.
    + lia.
    + apply run_balanced.
    + done.
Qed.

Lemma with_block_clean {A} tid self f (body : M A) s :
  hcls self = block f -> (forall m, is_sample m = true -> f m = true) ->
  balanced body -> keeps tid body ->
  (tid < next_id s)%nat -> clean tid s -> clean tid (with_ self body s).2.
Proof.
  intros Hcls Hf Hb Hk Hn Hc. unfold with_.
  assert (__enter__ self s = (Ok None, set_stack s (PYRO_STACK s ++ [self]))) as ->.
  { unfold __enter__. by rewrite Hcls. }
  set (s1 := set_stack s _). specialize (Hb s1).
  destruct (Hk s1) as [_ Hc2]; [|done|done|].
  { exists (PYRO_STACK s), self, f, []. by repeat split. }
  destruct (body s1) as [[a|e] s2]; simpl in *;
    rewrite (exit_top self s2 (PYRO_STACK s)) by congruence; done.
Qed.

(** [trace(block(M, hide_fn=is_sample)).get_trace()]: the trace object is
    the one allocated first, and its trace has no Sample-type entry in the
    final state, whether the model returned or raised. *)
Lemma block_scoping {B} (model : prog B) s :
  let out := run (GetTrace (With (block is_sample) model Ret) Ret) s in
  clean (next_id s) out.2 /\
  (forall tr, out.1 = Ok tr -> no_sample_sites tr = true).
Proof.
  set (tid := next_id s). set (t := Href tid trace).
  set (inner := do self <- new (block is_sample);
                do b <- __call__ self (run model); ret b).
  assert (forall s2, (tid < next_id s2)%nat -> clean tid s2 -> clean tid (inner s2).2)
    as Hinner.
  { intros s2 Hn Hc. unfold inner, bind at 1.
    destruct (new (block is_sample) s2) as [[self|e] s3] eqn:E;
      apply new_spec in E as (Est & Etr & _ & _ & _ & E); [|by subst s3].
    destruct E as [-> En]. unfold bind, __call__.
    assert (clean tid (with_ (Href (next_id s2) (block is_sample)) (run model) s3).2) as H.
    { apply (with_block_clean tid _ is_sample); try done.
      - apply run_balanced.
      - apply run_keeps.
      - lia.
      - intros tr. rewrite Etr. apply Hc. }
    by destruct (with_ _ (run model) s3) as [[b|e] s4]. }
  assert (balanced inner) as Hbal.
  { unfold inner. apply bind_balanced; [apply new_balanced|]. intros self.
    apply bind_balanced; [apply with_balanced, run_balanced|]. by intros b s2. }
  assert (clean tid (with_ t inner (set_next_id s (S tid))).2) as Hw.
  { unfold with_. simpl. set (s1 := set_traces _ _).
    specialize (Hbal s1).
    assert (clean tid (inner s1).2) as Hc1.
    { apply Hinner; [simpl; lia|]. intros tr. unfold s1. simpl.
      rewrite lookup_insert_eq. by intros [= <-]. }
    destruct (inner s1) as [[a|e] s2]; simpl in *;
      rewrite (exit_top t s2 (PYRO_STACK s)) by congruence; done. }
  change (run (GetTrace (With (block is_sample) model Ret) Ret))
    with (do self <- new trace; do tr <- get_trace self inner; ret tr).
  unfold bind at 1. change (new trace s) with (Ok t, set_next_id s (S tid)).
  cbv beta iota. unfold get_trace, __call__, bind, ret.
  destruct (with_ t inner (set_next_id s (S tid))) as [[r|e] s2]; [|by split].
  change (hid t) with tid.
  destruct (traces s2 !! tid) as [tr|] eqn:Et; [|by split].
  split; [done|]. intros tr' [= <-]. by apply Hw.
Qed.

(** ** C1: the order of the hooks, and what a block hides *)

Lemma pre_phase_cut hs msg :
  exists outer, hs = (pre_phase hs msg).1 ++ outer /\
    (outer <> [] ->
     match (pre_phase hs msg).2 with
     | Ok msg1 => m_stop msg1 = true
     | Raise _ => True
     end).
Proof.
  revert msg. induction hs as [|h hs IH]; intros msg; simpl.
  - by exists [].
  - destruct (process_message h msg) as [msg1|e]; [|by exists hs].
    destruct (m_stop msg1) eqn:Es; [by exists hs|].
    destruct (IH msg1) as (outer & Ho & Hs). exists outer. simpl.
    split; [by rewrite <- Ho|done].
Qed.

(** Before the pre-phase ends, every hook that has run left [stop]
    unset. *)
Lemma pre_phase_take hs msg n :
  (1 <= n < length (pre_phase hs msg).1)%nat ->
  exists m, pre_phase (take n hs) msg = (take n hs, Ok m) /\ m_stop m = false.
Proof.
  revert msg n. induction hs as [|h hs IH]; intros msg n; simpl; [lia|].
  destruct (process_message h msg) as [m1|e] eqn:E; [|simpl; lia].
  destruct (m_stop m1) eqn:Es; [simpl; lia|]. simpl. intros Hn.
  destruct n as [|n]; [lia|]. simpl. rewrite E, Es.
  destruct n as [|n].
  - exists m1. by rewrite take_0.
  - destruct (IH m1 (S n)) as (m & Hm & Hstop); [lia|].
    exists m. by rewrite Hm.
Qed.

Lemma od_set_fresh tr name v :
  od_contains tr name = false -> od_set tr name v = tr ++ [(name, v)].
Proof.
  unfold od_contains. induction tr as [|[k v'] tr IH]; simpl; [done|].
  intros [Hk Htr]%orb_false_elim. rewrite Hk. by rewrite IH.
Qed.

Lemma inner_trace_records outer b t_in name d obs s tr :
  PYRO_STACK s = outer ++ [b; t_in] ->
  hcls b = block is_sample -> hcls t_in = trace ->
  traces s !! hid t_in = Some tr -> od_contains tr name = false ->
  exists v s',
    sample name d obs s = (Ok v, s') /\
    traces s' =
      <[hid t_in := tr ++ [(name, Message sample_type name (DistFn d) NoArgs (Some v) true)]]>
        (traces s).
Proof.
  intros Hst Hb Ht Htr Hfresh.
  assert (PYRO_STACK s <> []) as Hne by (rewrite Hst; by destruct outer).
  set (msg := Message sample_type name (DistFn d) NoArgs obs false).
  assert (sample name d obs s = (do m <- apply_stack msg; value_of m) s) as ->.
  { unfold sample. by destruct (PYRO_STACK s). }
  unfold bind at 1. rewrite (apply_stack_unfold msg s Hne).
  assert (pre_phase (reverse (PYRO_STACK s)) msg = ([t_in; b], Ok (set_stop msg true)))
    as ->.
  { rewrite Hst, reverse_app. simpl.
    assert (process_message t_in msg = Ok msg) as ->
      by (unfold process_message; by rewrite Ht).
    assert (process_message b msg = Ok (set_stop msg true)) as ->
      by (unfold process_message; by rewrite Hb).
    done. }
  cbn [fst snd]. change (reverse [t_in; b]) with [b; t_in].
  set (s1 := log_all s _).
  assert (forall v s2, traces s2 = traces s ->
            (postprocess_loop [b; t_in] (set_value (set_stop msg true) (Some v));;
             ret (set_value (set_stop msg true) (Some v))) s2 =
            (Ok (set_value (set_stop msg true) (Some v)),
             set_traces
               (log_all s2 [EvPostprocess (hid b); EvPostprocess (hid t_in)])
               (<[hid t_in := tr ++ [(name, set_value (set_stop msg true) (Some v))]]>
                  (traces s)))) as Hpost.
  { intros v s2 Hs2. unfold bind. simpl. unfold bind.
    unfold postprocess_message at 1. rewrite Hb. simpl.
    unfold postprocess_message at 1. rewrite Ht. simpl.
    rewrite Hs2, Htr, Hfresh. simpl. unfold ret.
    rewrite (od_set_fresh _ _ _ Hfresh). f_equal.
    unfold set_traces, log_all, log. simpl. f_equal. by rewrite <- app_assoc. }
  assert (exists v s2, fill_value (set_stop msg true) s1 =
                         (Ok (set_value (set_stop msg true) (Some v)), s2) /\
                       traces s2 = traces s) as (v & s2 & -> & Hs2).
  { unfold fill_value. destruct obs as [v|]; simpl.
    - by exists v, s1.
    - unfold bind, call_fn, draw. simpl.
      destruct (dist_call d (rng s)) as [v g]. by exists v, (set_rng (log s1 EvDraw) g). }
  rewrite (Hpost v s2 Hs2). exists v. eexists. split; [reflexivity|done].
Qed.

(** C1. In a dispatch through a non-empty stack the log gains, in this
    order: the pre-hooks of the handlers reached, innermost first; the call
    of the descriptor, if any; the post-hooks of the same handlers in entry
    order (all of them when the dispatch returns, a prefix when a post-hook
    raises).  The handlers reached are the innermost ones, up to and
    including the first whose hook leaves [stop] set (every hook before the
    last one reached left it unset), in particular no further than a block
    that hides the message; the others get no hook.
    So [trace(block(M, hide_fn=is_sample)).get_trace()] has no Sample-type
    entry for any model [M], while a trace entered inside the block records
    the site. *)
Theorem dispatch_order_and_block_scoping :
  (forall msg s,
     PYRO_STACK s <> [] ->
     let pre := pre_phase (reverse (PYRO_STACK s)) msg in
     let out := apply_stack msg s in
     pre.1 <> [] /\
     (exists outer,
        PYRO_STACK s = outer ++ reverse pre.1 /\
        (outer <> [] ->
         match pre.2 with Ok msg1 => m_stop msg1 = true | Raise _ => True end)) /\
     exists fn_events post_done,
       new_events s out.2 =
         ((fun h => EvProcess (hid h)) <$> pre.1) ++ fn_events ++
         ((fun h => EvPostprocess (hid h)) <$> post_done) /\
       forallb is_descriptor_event fn_events = true /\
       post_done `prefix_of` reverse pre.1 /\
       (forall m, out.1 = Ok m -> post_done = reverse pre.1)) /\
  (forall hs msg n,
     (1 <= n < length (pre_phase hs msg).1)%nat ->
     exists m, pre_phase (take n hs) msg = (take n hs, Ok m) /\ m_stop m = false) /\
  (forall inner b outer f msg,
     hcls b = block f -> (forall m, m_type m = m_type msg -> f m = true) ->
     (pre_phase (inner ++ b :: outer) msg).1 `prefix_of` inner ++ [b]) /\
  (forall B (model : prog B) s,
     let out := run (GetTrace (With (block is_sample) model Ret) Ret) s in
     clean (next_id s) out.2 /\
     (forall tr, out.1 = Ok tr -> no_sample_sites tr = true)) /\
  (forall outer b t_in name d obs s tr,
     PYRO_STACK s = outer ++ [b; t_in] ->
     hcls b = block is_sample -> hcls t_in = trace ->
     traces s !! hid t_in = Some tr -> od_contains tr name = false ->
     exists v s',
       sample name d obs s = (Ok v, s') /\
       traces s' =
         <[hid t_in := tr ++ [(name, Message sample_type name (DistFn d) NoArgs (Some v) true)]]>
           (traces s)).
Proof.
  split; [|split; [apply pre_phase_take|split; [|split]]].
  - intros msg s Hst pre out.
    assert (reverse (PYRO_STACK s) <> []) as Hrev.
    { intros E. apply Hst. apply (f_equal reverse) in E.
      by rewrite reverse_involutive in E. }
    split; [by apply pre_phase_nonempty|]. split.
    + destruct (pre_phase_cut (reverse (PYRO_STACK s)) msg) as (outer & Ho & Hs).
      exists (reverse outer). split.
      * rewrite <- reverse_app. fold pre in Ho. rewrite <- Ho.
        by rewrite reverse_involutive.
      * intros Hne. apply Hs. intros ->. done.
    + pose proof (apply_stack_events msg s Hst) as H. simpl in H.
      fold pre in H. fold out in H. destruct (pre.2) as [msg1|e].
      * destruct H as (fn_events & post_done & H1 & H2 & _ & H3 & H4).
        by exists fn_events, post_done.
      * destruct H as [H1 H2]. exists [], []. rewrite H2. simpl.
        rewrite app_nil_r. repeat split; try done; [apply prefix_nil|].
        intros m Hm. by rewrite H1 in Hm.
  - intros. by apply (pre_phase_block _ _ _ f).
  - intros B model s. apply block_scoping.
  - apply inner_trace_records.
Qed.

(** ** Replay *)

Lemma od_get_contains tr name site :
  od_get tr name = Some site -> od_contains tr name = true.
Proof.
  unfold od_contains. induction tr as [|[k v] tr IH]; simpl; [done|].
  destruct (String.eqb k name); [done|]. apply IH.
Qed.

Lemma od_contains_get tr name :
  od_contains tr name = true -> exists site, od_get tr name = Some site.
Proof.
  unfold od_contains. induction tr as [|[k v] tr IH]; simpl; [done|].
  destruct (String.eqb k name); [eauto|]. apply IH.
Qed.

Lemma replay_process_message r guide_trace msg site :
  hcls r = replay guide_trace -> od_get guide_trace (m_name msg) = Some site ->
  process_message r msg = Ok (set_value msg (m_value site)).
Proof.
  intros Hr Hg. unfold process_message.
  by rewrite Hr, (od_get_contains _ _ _ Hg), Hg.
Qed.

Lemma pre_phase_replay_first r guide_trace rest msg site m :
  hcls r = replay guide_trace -> od_get guide_trace (m_name msg) = Some site ->
  forallb (leaves_value (m_name msg)) rest = true ->
  (pre_phase (r :: rest) msg).2 = Ok m -> m_value m = m_value site.
Proof.
  intros Hr Hg Hl. simpl. rewrite (replay_process_message _ _ _ _ Hr Hg).
  destruct (m_stop _); simpl; [by intros [= <-]|].
  intros H. by apply pre_phase_value in H.
Qed.


(** A dispatch under a stack whose innermost handler replays the name. *)
Lemma dispatch_under_replay outer r guide_trace site v msg s :
  PYRO_STACK s = outer ++ [r] -> hcls r = replay guide_trace ->
  od_get guide_trace (m_name msg) = Some site -> m_value site = Some v ->
  forallb (leaves_value (m_name msg)) outer = true ->
  let out := (do m <- apply_stack msg; value_of m) s in
  invocations (new_events s out.2) = 0%nat /\
  rng out.2 = rng s /\ PARAM_STORE out.2 = PARAM_STORE s /\
  (forall x, out.1 = Ok x -> x = v) /\
  (forallb quiet outer = true -> out.1 = Ok v).
Proof.
  intros Hst Hr Hg Hsite Hl.
  assert (PYRO_STACK s <> []) as Hne by (rewrite Hst; by destruct outer).
  assert (reverse (PYRO_STACK s) = r :: reverse outer) as Hrev
    by (by rewrite Hst, reverse_app).
  assert (forall m, (pre_phase (reverse (PYRO_STACK s)) msg).2 = Ok m ->
                    m_value m = Some v) as Hv.
  { intros m Hm. rewrite <- Hsite. rewrite Hrev in Hm.
    apply (pre_phase_replay_first _ _ _ _ _ _ Hr Hg) in Hm; [done|].
    by rewrite forallb_reverse. }
  destruct (apply_stack_value_set msg s v Hne Hv) as (H1 & H2 & H3 & H4 & H5).
  repeat split; try done.
  intros Hq. apply H5.
  - rewrite Hst, forallb_app, Hq. simpl. unfold quiet. by rewrite Hr.
  - rewrite Hrev. simpl. rewrite (replay_process_message _ _ _ _ Hr Hg).
    destruct (m_stop _); simpl; [eauto|].
    apply pre_phase_quiet; by rewrite forallb_reverse.
Qed.

(** ** C4: replay fidelity *)

(** ** C10: what replay overwrites *)

(** C10. The pre-hook of replay sets the value of every message whose name
    is in its reference trace to the recorded one, whatever the kind of the
    message and whatever value it had; so under a replay handler an
    observed sample site and a param site of that name both resolve to the
    recorded value, and the descriptor is not called. *)
Theorem replay_overwrites_any_kind :
  (forall r guide_trace msg site,
     hcls r = replay guide_trace -> od_get guide_trace (m_name msg) = Some site ->
     process_message r msg = Ok (set_value msg (m_value site))) /\
  (forall r guide_trace name site v d o s,
     PYRO_STACK s = [r] -> hcls r = replay guide_trace ->
     od_get guide_trace name = Some site -> m_value site = Some v ->
     (sample name d (Some o) s).1 = Ok v) /\
  (forall r guide_trace name site v init c s,
     PYRO_STACK s = [r] -> hcls r = replay guide_trace ->
     od_get guide_trace name = Some site -> m_value site = Some v ->
     let out := param name init c s in
     out.1 = Ok v /\ PARAM_STORE out.2 = PARAM_STORE s /\
     invocations (new_events s out.2) = 0%nat).
Proof.
  split; [|split].
  - intros r guide_trace msg site Hr Hg. by apply (replay_process_message _ guide_trace).
  - intros r guide_trace name site v d o s Hst Hr Hg Hsite.
    rewrite sample_dispatch by (by rewrite Hst).
    set (msg := Message sample_type name (DistFn d) NoArgs (Some o) false).
    destruct (dispatch_under_replay [] r guide_trace site v msg s)
      as (_ & _ & _ & _ & H); auto.
  - intros r guide_trace name site v init c s Hst Hr Hg Hsite out.
    unfold out. rewrite param_dispatch by (by rewrite Hst).
    set (msg := Message param_type name (ParamFn name) (ParamArgs init c) None false).
    destruct (dispatch_under_replay [] r guide_trace site v msg s)
      as (H1 & _ & H3 & _ & H5); auto.
Qed.

(** ** Invariants of the trace an object holds *)

Lemma bind_preserves {A B} I (m : M A) (k : A -> M B) :
  preserves I m -> (forall a, preserves I (k a)) -> preserves I (bind m k).
Proof.
  intros Hm Hk s Hs. unfold bind. specialize (Hm s Hs).
  destruct (m s) as [[a|e] s1]; simpl in *; [by apply Hk|done].
Qed.

Lemma with_preserves {A} I self (body : M A) :
  preserves I (__enter__ self) -> preserves I (__exit__ self) ->
  preserves I body -> preserves I (with_ self body).
Proof.
  intros He Hx Hb s Hs. unfold with_. specialize (He s Hs).
  destruct (__enter__ self s) as [[r|e] s1]; simpl in *; [|done].
  specialize (Hb s1 He). destruct (body s1) as [[a|e] s2]; simpl in *;
    specialize (Hx s2 Hb); by destruct (__exit__ self s2) as [[[]|e'] s3].
Qed.

Lemma process_message_consistent h msg msg1 :
  process_message h msg = Ok msg1 -> consistent msg1 = consistent msg.
Proof.
  intros H. unfold process_message in H.
  repeat (case_match; simplify_eq); try done.
  all: unfold consistent; simpl; by rewrite_match_fn.
Qed.

Lemma pre_phase_consistent hs msg msg1 :
  (pre_phase hs msg).2 = Ok msg1 -> consistent msg1 = consistent msg.
Proof.
  revert msg. induction hs as [|h hs IH]; intros msg; simpl.
  - by intros [= <-].
  - destruct (process_message h msg) as [m|e] eqn:E; [|done].
    apply process_message_consistent in E.
    destruct (m_stop m); simpl.
    + by intros [= <-].
    + intros H. apply IH in H. congruence.
Qed.

Lemma fill_value_recordable msg s msg2 s2 :
  fill_value msg s = (Ok msg2, s2) -> consistent msg = true -> recordable msg2 = true.
Proof.
  unfold fill_value, bind, ret, recordable. destruct (m_value msg) eqn:Ev.
  - intros [= <- <-]. by rewrite Ev.
  - destruct (call_fn msg s) as [[v|e] s1]; [|done]. by intros [= <- <-].
Qed.

Section SlotInvariant.
Variable Q : OrderedDict -> Prop.
Variable tid : nat.
Hypothesis Q_empty : Q [].
Hypothesis Q_set : forall tr msg,
  Q tr -> recordable msg = true -> od_contains tr (m_name msg) = false ->
  Q (od_set tr (m_name msg) msg).

Lemma postprocess_message_slot h msg :
  recordable msg = true -> preserves (slot Q tid) (postprocess_message h msg).
Proof.
  intros Hm s Hs. unfold postprocess_message.
  destruct (hcls h); try done.
  destruct (traces s !! hid h) as [tr0|] eqn:Et; [|done].
  destruct (od_contains tr0 (m_name msg)) eqn:Ec; [done|].
  intros tr. simpl. destruct (decide (hid h = tid)) as [Heq|Hne].
  - rewrite Heq, lookup_insert_eq. intros [= <-].
    apply Q_set; [|done|done]. apply Hs. by rewrite <- Heq.
  - rewrite lookup_insert_ne by done. apply Hs.
Qed.

Lemma postprocess_loop_slot hs msg :
  recordable msg = true -> preserves (slot Q tid) (postprocess_loop hs msg).
Proof.
  intros Hm. induction hs as [|h hs IH]; intros s Hs; simpl; [done|].
  apply (bind_preserves (slot Q tid)); [by apply postprocess_message_slot|done|].
  intros tr. apply Hs.
Qed.

Lemma apply_stack_slot msg s :
  PYRO_STACK s <> [] -> consistent msg = true ->
  slot Q tid s -> slot Q tid (apply_stack msg s).2.
Proof.
  intros Hst Hm Hs. rewrite (apply_stack_unfold msg s Hst).
  destruct (pre_phase (reverse (PYRO_STACK s)) msg) as [reached [msg1|e]] eqn:Epre;
    simpl; [|done].
  set (s1 := log_all s _).
  assert (consistent msg1 = true) as Hm1.
  { rewrite <- Hm. apply (pre_phase_consistent (reverse (PYRO_STACK s))).
    by rewrite Epre. }
  destruct (fill_value msg1 s1) as [[msg2|e] s2] eqn:Ef.
  - assert (slot Q tid s2) as Hs2.
    { apply fill_value_frame in Ef as (_ & Ht & _). intros tr. rewrite Ht. apply Hs. }
    apply fill_value_recordable in Ef; [|done].
    apply (bind_preserves (slot Q tid)); [|by intros ? ?|done].
    by apply postprocess_loop_slot.
  - apply fill_value_frame in Ef as (_ & Ht & _). intros tr. simpl. rewrite Ht. apply Hs.
Qed.

Lemma sample_slot name fn obs : preserves (slot Q tid) (sample name fn obs).
Proof.
  intros s Hs. destruct (decide (PYRO_STACK s = [])) as [He|Hne].
  - unfold sample. rewrite He. unfold draw. destruct (dist_call fn (rng s)). done.
  - rewrite sample_dispatch by done. apply (bind_preserves (slot Q tid)); [| |done].
    + intros s0 Hs0. destruct (decide (PYRO_STACK s0 = [])) as [He0|Hne0].
      * unfold apply_stack, bind, enumerate. rewrite He0. simpl.
        destruct (fill_value _ s0) as [[m|e] s1] eqn:Ef;
          apply fill_value_frame in Ef as (_ & Ht & _); simpl;
          intros tr; rewrite Ht; apply Hs0.
      * by apply apply_stack_slot.
    + intros m s0 Hs0. unfold value_of. by destruct (m_value m).
Qed.

Lemma param_slot name init c : preserves (slot Q tid) (param name init c).
Proof.
  intros s Hs. destruct (decide (PYRO_STACK s = [])) as [He|Hne].
  - unfold param. rewrite He.
    destruct (param_fn name init c s) as [r s1] eqn:E.
    apply param_fn_frame in E as (_ & Ht & _). intros tr. simpl. rewrite Ht. apply Hs.
  - rewrite param_dispatch by done. apply (bind_preserves (slot Q tid)); [| |done].
    + intros s0 Hs0. destruct (decide (PYRO_STACK s0 = [])) as [He0|Hne0].
      * unfold apply_stack, bind, enumerate. rewrite He0. simpl.
        destruct (fill_value _ s0) as [[m|e] s1] eqn:Ef;
          apply fill_value_frame in Ef as (_ & Ht & _); simpl;
          intros tr; rewrite Ht; apply Hs0.
      * by apply apply_stack_slot.
    + intros m s0 Hs0. unfold value_of. by destruct (m_value m).
Qed.

Lemma enter_slot self : preserves (slot Q tid) (__enter__ self).
Proof.
  intros s Hs. unfold __enter__. destruct (hcls self); simpl; try done.
  intros tr. simpl. destruct (decide (hid self = tid)) as [Heq|Hne].
  - rewrite Heq, lookup_insert_eq. by intros [= <-].
  - rewrite lookup_insert_ne by done. apply Hs.
Qed.

Lemma exit_slot self : preserves (slot Q tid) (__exit__ self).
Proof.
  intros s Hs. unfold __exit__. destruct (py_index _ _); [|done].
  by destruct (hid h =? hid self)%nat.
Qed.

Lemma new_slot c : preserves (slot Q tid) (new c).
Proof.
  intros s Hs. destruct (new c s) as [r s1] eqn:E.
  apply new_spec in E as (_ & Ht & _). intros tr. simpl. rewrite Ht. apply Hs.
Qed.

Lemma get_trace_slot {A} self (fn : M A) :
  preserves (slot Q tid) fn -> preserves (slot Q tid) (get_trace self fn).
Proof.
  intros Hf. unfold get_trace, __call__. apply bind_preserves.
  - apply with_preserves; [apply enter_slot|apply exit_slot|done].
  - intros _ s Hs. by destruct (traces s !! hid self).
Qed.

(** Whatever a model does, the trace that an object holds keeps [Q]. *)
Lemma run_slot {A} (p : prog A) : preserves (slot Q tid) (run p).
Proof.
  induction p as [A a|A name fn obs k IH|A name init c k IH|A B h body IHb k IH
                  |A B body IHb k IH]; simpl.
  - by intros s.
  - apply bind_preserves; [apply sample_slot|done].
  - apply bind_preserves; [apply param_slot|done].
  - apply bind_preserves; [apply new_slot|]. intros self.
    apply bind_preserves; [|done].
    apply with_preserves; [apply enter_slot|apply exit_slot|done].
  - apply bind_preserves; [apply new_slot|]. intros self.
    apply bind_preserves; [|done]. by apply get_trace_slot.
Qed.

End SlotInvariant.

(** [get_trace] returns a trace with [Q]. *)
Lemma get_trace_slot_result {A} (Q : OrderedDict -> Prop) t (body : M A) s tr s' :
  Q [] -> hcls t = trace -> preserves (slot Q (hid t)) body ->
  get_trace t body s = (Ok tr, s') -> Q tr.
Proof.
  intros Q_empty Ht Hbody.
  assert (slot Q (hid t) (with_ t body s).2) as Hw.
  { unfold with_.
    assert (__enter__ t s =
            (Ok (Some []), set_traces (set_stack s (PYRO_STACK s ++ [t]))
                             (<[hid t := []]> (traces s)))) as ->
      by (unfold __enter__; by rewrite Ht).
    set (s1 := set_traces _ _).
    assert (slot Q (hid t) s1) as Hs1.
    { intros tr0. unfold s1. simpl. rewrite lookup_insert_eq. by intros [= <-]. }
    pose proof (Hbody s1 Hs1) as Hp.
    destruct (body s1) as [[a|e] s2]; simpl in Hp;
      pose proof (exit_slot Q (hid t) t s2 Hp) as Hx;
      by destruct (__exit__ t s2) as [[[]|e'] s3]. }
  unfold get_trace, __call__, bind, ret.
  destruct (with_ t body s) as [[r|e] s2]; [|done].
  destruct (traces s2 !! hid t) as [tr0|] eqn:Et; [|done].
  intros [= <- <-]. by apply Hw.
Qed.

(** [trace(p).get_trace()] returns a trace with [Q]. *)
Lemma get_trace_result {A} (Q : OrderedDict -> Prop) (p : prog A) s tr s' :
  Q [] ->
  (forall tr msg, Q tr -> recordable msg = true ->
                  od_contains tr (m_name msg) = false -> Q (od_set tr (m_name msg) msg)) ->
  run (GetTrace p Ret) s = (Ok tr, s') -> Q tr.
Proof.
  intros Q_empty Q_set.
  change (run (GetTrace p Ret) s)
    with ((do self <- new trace; do tr <- get_trace self (run p); ret tr) s).
  unfold bind at 1.
  change (new trace s) with (Ok (Href (next_id s) trace), set_next_id s (S (next_id s))).
  cbv beta iota. unfold bind, ret.
  destruct (get_trace _ (run p) _) as [[tr0|e] s1] eqn:E; [|done].
  intros [= <- <-]. apply (get_trace_slot_result Q) in E; try done.
  by apply run_slot.
Qed.


(** ** C7: names in a trace *)

Lemma od_contains_keys tr name : od_contains tr name = true <-> name ∈ od_keys tr.
Proof.
  unfold od_contains, od_keys. induction tr as [|[k v] tr IH]; simpl.
  - split; [done|]. by intros ?%elem_of_nil.
  - rewrite elem_of_cons, orb_true_iff, IH, String.eqb_eq.
    split; (intros [->|?]; [by left|by right]).
Qed.

Lemma unique_names_NoDup tr : unique_names tr <-> NoDup (od_keys tr).
Proof.
  unfold unique_names, od_keys. rewrite NoDup_alt. split.
  - intros H i j x Hi Hj. rewrite list_lookup_fmap in Hi, Hj.
    apply fmap_Some in Hi as (e1 & E1 & Hx1).
    apply fmap_Some in Hj as (e2 & E2 & Hx2).
    destruct (decide (i = j)) as [|Hne]; [done|].
    exfalso. apply (H i j e1 e2 Hne E1 E2). congruence.
  - intros H i j e1 e2 Hne Hi Hj Heq. apply Hne.
    apply (H i j e1.1); rewrite list_lookup_fmap; apply fmap_Some.
    + by exists e1.
    + by exists e2.

Qed.

Lemma unique_names_nil : unique_names [].
Proof. intros i j e1 e2 _ H. by apply lookup_lt_Some in H. Qed.

Lemma unique_names_set tr msg :
  unique_names tr -> od_contains tr (m_name msg) = false ->
  unique_names (od_set tr (m_name msg) msg).
Proof.
  rewrite !unique_names_NoDup. intros Hnd Hc.
  rewrite (od_set_fresh _ _ _ Hc). unfold od_keys. rewrite fmap_app. simpl.
  apply NoDup_app. split; [done|]. split; [|apply NoDup_singleton].
  intros x Hx ->%list_elem_of_singleton.
  apply od_contains_keys in Hx. congruence.
Qed.

Lemma od_set_contains tr name name' v :
  od_contains tr name = true -> od_contains (od_set tr name' v) name = true.
Proof.
  unfold od_contains. induction tr as [|[k v'] tr IH]; simpl; [done|].
  destruct (String.eqb k name') eqn:Ek; simpl.
  - done.
  - intros [->|H]%orb_prop; [done|]. rewrite IH by done. apply orb_true_r.
Qed.

Lemma postprocess_message_duplicate t msg s tr :
  hcls t = trace -> traces s !! hid t = Some tr ->
  od_contains tr (m_name msg) = true ->
  postprocess_message t msg s = (Raise AssertionError, s).
Proof. intros Ht Htr Hc. unfold postprocess_message. by rewrite Ht, Htr, Hc. Qed.

Lemma postprocess_message_record t msg s tr :
  hcls t = trace -> traces s !! hid t = Some tr ->
  od_contains tr (m_name msg) = false ->
  postprocess_message t msg s =
    (Ok tt, set_traces s (<[hid t := tr ++ [(m_name msg, msg)]]> (traces s))).
Proof.
  intros Ht Htr Hc. unfold postprocess_message.
  by rewrite Ht, Htr, Hc, (od_set_fresh _ _ _ Hc).
Qed.

Lemma od_get_snoc tr name v :
  od_contains tr name = false -> od_get (tr ++ [(name, v)]) name = Some v.
Proof.
  unfold od_contains. induction tr as [|[k v'] tr IH]; simpl.
  - by rewrite String.eqb_refl.
  - intros [-> H]%orb_false_elim. by apply IH.
Qed.

(** Once the name is in the trace of a handler the loop will reach, the
    loop raises. *)
Lemma postprocess_loop_duplicate hs msg s t :
  t ∈ hs -> hcls t = trace ->
  (exists tr, traces s !! hid t = Some tr /\ od_contains tr (m_name msg) = true) ->
  exists e, (postprocess_loop hs msg s).1 = Raise e.
Proof.
  revert s. induction hs as [|h hs IH]; intros s Hin Ht (tr & Htr & Hc).
  - by apply elem_of_nil in Hin.
  - simpl. unfold bind.
    destruct (postprocess_message h msg (log s _)) as [[[]|e] s1] eqn:E; [|eauto].
    apply elem_of_cons in Hin as [->|Hin].
    + rewrite (postprocess_message_duplicate _ _ _ tr) in E; done.
    + apply IH; [done|done|].
      unfold postprocess_message in E.
      destruct (hcls h); simplify_eq; eauto.
      simpl in E. destruct (traces s !! hid h) as [tr0|] eqn:Et0; [|done].
      destruct (od_contains tr0 (m_name msg)) eqn:Ec0; [done|].
      simplify_eq. simpl. destruct (decide (hid h = hid t)) as [Heq|Hne].
      * rewrite Heq in Et0. congruence.
      * rewrite lookup_insert_ne by done. eauto.
Qed.

(** C7. The trace that [trace(p).get_trace()] returns, for any model [p]
    and from any state, has no two distinct entries with the same name,
    and no run of a model breaks this for the trace an object holds.  The
    post-hook of a trace handler raises AssertionError, recording nothing,
    on a message whose name its trace already has, so a dispatch that
    reaches such a handler raises, and a second [sample] of the name
    directly under the handler raises AssertionError; otherwise the hook
    appends the message under its name, where a lookup finds it. *)
Theorem trace_names_unique :
  (forall A (p : prog A) s tr s',
     run (GetTrace p Ret) s = (Ok tr, s') -> unique_names tr) /\
  (forall A (p : prog A) tid s,
     slot unique_names tid s -> slot unique_names tid (run p s).2) /\
  (forall t msg s tr,
     hcls t = trace -> traces s !! hid t = Some tr ->
     od_contains tr (m_name msg) = true ->
     postprocess_message t msg s = (Raise AssertionError, s)) /\
  (forall t msg s tr,
     PYRO_STACK s <> [] ->
     t ∈ (pre_phase (reverse (PYRO_STACK s)) msg).1 ->
     hcls t = trace -> traces s !! hid t = Some tr ->
     od_contains tr (m_name msg) = true ->
     exists e, (apply_stack msg s).1 = Raise e) /\
  (forall t name d obs s tr,
     PYRO_STACK s = [t] ->
     hcls t = trace -> traces s !! hid t = Some tr ->
     od_contains tr name = true ->
     (sample name d obs s).1 = Raise AssertionError) /\
  (forall t msg s tr,
     hcls t = trace -> traces s !! hid t = Some tr ->
     od_contains tr (m_name msg) = false ->
     postprocess_message t msg s =
       (Ok tt, set_traces s (<[hid t := tr ++ [(m_name msg, msg)]]> (traces s))) /\
     od_get (tr ++ [(m_name msg, msg)]) (m_name msg) = Some msg).
Proof.
  split; [|split; [|split; [|split; [|split]]]].
  - intros A p s tr s'. apply get_trace_result.
    + apply unique_names_nil.
    + intros tr0 msg H _ Hc. by apply unique_names_set.
  - intros A p tid s. apply run_slot.
    + apply unique_names_nil.
    + intros tr0 msg H _ Hc. by apply unique_names_set.
  - apply postprocess_message_duplicate.
  - intros t msg s tr Hst Hin Ht Htr Hc.
    rewrite (apply_stack_unfold msg s Hst).
    destruct (pre_phase (reverse (PYRO_STACK s)) msg) as [reached [msg1|e]] eqn:Epre;
      simpl in *; [|eauto].
    set (s1 := log_all s _).
    destruct (fill_value msg1 s1) as [[msg2|e] s2] eqn:Ef; [|eauto].
    assert (m_name msg2 = m_name msg) as Hn.
    { assert (m_name msg1 = m_name msg) as <-.
      { apply (pre_phase_type (reverse (PYRO_STACK s))). by rewrite Epre. }
      unfold fill_value, bind, ret in Ef. destruct (m_value msg1); [by simplify_eq|].
      destruct (call_fn msg1 s1) as [[v|e] s3]; by simplify_eq. }
    apply fill_value_frame in Ef as (_ & Htr2 & _).
    destruct (postprocess_loop_duplicate (reverse reached) msg2 s2 t) as [e He].
    + by apply elem_of_reverse.
    + done.
    + exists tr. by rewrite Htr2, Hn.
    + exists e. unfold bind.
      destruct (postprocess_loop (reverse reached) msg2 s2) as [[[]|e'] s3];
        simpl in *; congruence.
  - intros t name d obs s tr Hst Ht Htr Hc.
    assert (PYRO_STACK s <> []) as Hne by (by rewrite Hst).
    rewrite sample_dispatch by done. unfold bind at 1.
    rewrite (apply_stack_unfold _ s Hne). rewrite Hst.
    change (reverse [t]) with [t]. simpl.
    assert (forall m, process_message t m = Ok m) as Hp
      by (intros m; unfold process_message; by rewrite Ht).
    rewrite Hp. simpl.
    set (msg := Message sample_type name (DistFn d) NoArgs obs false).
    set (s1 := log_all s _).
    destruct (fill_value msg s1) as [[msg2|e] s2] eqn:Ef.
    + assert (m_name msg2 = name) as Hn.
      { unfold fill_value, bind, ret in Ef. destruct (m_value msg); [by simplify_eq|].
        destruct (call_fn msg s1) as [[v|e] s3]; by simplify_eq. }
      apply fill_value_frame in Ef as (_ & Htr2 & _).
      unfold bind. simpl. unfold bind.
      rewrite (postprocess_message_duplicate t msg2 _ tr); try done.
      * simpl. by rewrite Htr2.
      * by rewrite Hn.
    + exfalso. unfold fill_value, bind, call_fn, draw in Ef. simpl in Ef.
      destruct obs; [done|]. simpl in Ef. by destruct (dist_call d (rng s)).
  - intros t msg s tr Ht Htr Hc. split.
    + by apply postprocess_message_record.
    + by apply od_get_snoc.
Qed.

(** ** C5: param *)

Lemma param_fn_stored name u c init c_b s :
  PARAM_STORE s !! name = Some (u, c) ->
  param_fn name init c_b s = (Ok (transform_to c u), log s (EvParamFn name)).
Proof. intros H. unfold param_fn. simpl. by rewrite H. Qed.

Lemma param_fn_first name init_a c s :
  PARAM_STORE s !! name = None ->
  param_fn name (Some init_a) c s =
    (Ok (transform_to c (transform_to_inv c (detach init_a))),
     set_store (log s (EvParamFn name))
       (<[name := (transform_to_inv c (detach init_a), c)]> (PARAM_STORE s))).
Proof. intros H. unfold param_fn. simpl. by rewrite H. Qed.

Lemma process_message_fn_param h msg msg1 :
  process_message h msg = Ok msg1 -> m_type msg = param_type -> m_fn msg1 = m_fn msg.
Proof.
  intros H Hty. unfold process_message in H. rewrite Hty in H.
  repeat (case_match; simplify_eq); done.
Qed.

Lemma pre_phase_fn_param hs msg msg1 :
  (pre_phase hs msg).2 = Ok msg1 -> m_type msg = param_type -> m_fn msg1 = m_fn msg.
Proof.
  revert msg. induction hs as [|h hs IH]; intros msg; simpl.
  - by intros [= <-].
  - destruct (process_message h msg) as [m|e] eqn:E; [|done].
    intros H Hty. pose proof (process_message_fn_param _ _ _ E Hty) as Hfn.
    apply process_message_type in E as (Hty' & _).
    destruct (m_stop m); simpl in H.
    + by simplify_eq.
    + apply IH in H; congruence.
Qed.

(** ** C3: elbo *)

Lemma elbo_unfold {A B} (model : M A) (guide : M B) s :
  elbo model guide s =
  (do guide_trace <- guide_run guide;
   do model_trace <- model_run model guide_trace;
   do acc1 <- lift (elbo_loop tadd (od_values model_trace) tzero);
   do acc2 <- lift (elbo_loop tsub (od_values guide_trace) acc1);
   ret (tneg acc2)) s.
Proof.
  unfold elbo, guide_run, model_run, bind.
  destruct (new trace s) as [[t1|e] s1]; [|done].
  destruct (get_trace t1 guide s1) as [[gt|e] s2]; [|done].
  destruct (new (replay gt) s2) as [[r|e] s3]; [|done].
  destruct (new trace s3) as [[t2|e] s4]; [|done].
  done.
Qed.

(** An unobserved sample site directly under a trace handler. *)
Lemma sample_traced t name d s tr :
  PYRO_STACK s = [t] -> hcls t = trace ->
  traces s !! hid t = Some tr -> od_contains tr name = false ->
  sample name d None s =
    (Ok (dist_call d (rng s)).1,
     State (PYRO_STACK s) (PARAM_STORE s)
       (<[hid t := tr ++ [(name, Message sample_type name (DistFn d) NoArgs
                                   (Some (dist_call d (rng s)).1) false)]]> (traces s))
       (next_id s) (dist_call d (rng s)).2
       (events s ++ [EvProcess (hid t); EvDraw; EvPostprocess (hid t)])).
Proof.
  intros Hst Ht Htr Hc.
  assert (PYRO_STACK s <> []) as Hne by (by rewrite Hst).
  rewrite sample_dispatch by done. unfold bind at 1.
  rewrite (apply_stack_unfold _ s Hne). rewrite Hst.
  change (reverse [t]) with [t].
  set (msg := Message sample_type name (DistFn d) NoArgs None false).
  assert (pre_phase [t] msg = ([t], Ok msg)) as ->.
  { simpl. assert (process_message t msg = Ok msg) as ->
      by (unfold process_message; by rewrite Ht). done. }
  cbn [fst snd]. change (reverse [t]) with [t].
  unfold fill_value, bind at 1, call_fn, draw. cbn [m_value m_fn m_args msg].
  cbn [rng log_all]. destruct (dist_call d (rng s)) as [v g]. cbn [fst snd].
  unfold ret at 1. unfold bind. cbn [postprocess_loop]. unfold bind.
  rewrite (postprocess_message_record t _ _ tr); [|done|by simpl|done].
  unfold ret, value_of. cbn [set_value m_value]. f_equal.
  unfold set_traces, log, set_rng, log_all. simpl.
  rewrite Hst. f_equal. by rewrite <- !app_assoc.
Qed.

(** An unobserved sample site under a trace handler and, inside it, a
    replay handler whose reference trace has the name. *)
Lemma sample_replayed t r guide_trace name d site v s tr :
  PYRO_STACK s = [t; r] -> hcls t = trace -> hcls r = replay guide_trace ->
  od_get guide_trace name = Some site -> m_value site = Some v ->
  traces s !! hid t = Some tr -> od_contains tr name = false ->
  sample name d None s =
    (Ok v,
     State (PYRO_STACK s) (PARAM_STORE s)
       (<[hid t := tr ++ [(name, Message sample_type name (DistFn d) NoArgs
                                   (Some v) false)]]> (traces s))
       (next_id s) (rng s)
       (events s ++ [EvProcess (hid r); EvProcess (hid t);
                     EvPostprocess (hid t); EvPostprocess (hid r)])).
Proof.
  intros Hst Ht Hr Hg Hv Htr Hc.
  assert (PYRO_STACK s <> []) as Hne by (by rewrite Hst).
  rewrite sample_dispatch by done. unfold bind at 1.
  rewrite (apply_stack_unfold _ s Hne). rewrite Hst.
  change (reverse [t; r]) with [r; t].
  set (msg := Message sample_type name (DistFn d) NoArgs None false).
  assert (pre_phase [r; t] msg = ([r; t], Ok (set_value msg (Some v)))) as ->.
  { simpl. rewrite (replay_process_message r guide_trace msg site Hr Hg).
    cbn [m_stop set_value msg]. rewrite Hv.
    assert (forall m, process_message t m = Ok m) as ->
      by (intros m; unfold process_message; by rewrite Ht). done. }
  cbn [fst snd]. change (reverse [r; t]) with [t; r].
  unfold fill_value. cbn [m_value set_value]. unfold ret at 1.
  unfold bind. cbn [postprocess_loop]. unfold bind.
  rewrite (postprocess_message_record t _ _ tr); [|done|by simpl|done].
  assert (forall m s0, postprocess_message r m s0 = (Ok tt, s0)) as Hpr
    by (intros m s0; unfold postprocess_message; by rewrite Hr).
  rewrite Hpr. unfold ret, value_of. cbn [set_value m_value]. f_equal.
  unfold set_traces, log, set_rng, log_all. simpl.
  rewrite Hst. f_equal. by rewrite <- !app_assoc.
Qed.

Lemma guide_run_single name d s :
  PYRO_STACK s = [] ->
  exists s1,
    guide_run (run (Sample name d None Ret)) s =
      (Ok [(name, Message sample_type name (DistFn d) NoArgs
                    (Some (dist_call d (rng s)).1) false)], s1) /\
    PYRO_STACK s1 = [].
Proof.
  intros Hst. unfold guide_run, bind at 1.
  change (new trace s) with (Ok (Href (next_id s) trace), set_next_id s (S (next_id s))).
  cbv beta iota. set (t := Href (next_id s) trace). set (s0 := set_next_id s _).
  unfold get_trace, __call__, with_, bind at 1.
  assert (__enter__ t s0 =
          (Ok (Some []), set_traces (set_stack s0 [t]) (<[hid t := []]> (traces s0)))) as ->.
  { unfold __enter__. simpl. by rewrite Hst. }
  set (s1 := set_traces _ _).
  change (run (Sample name d None Ret)) with (do v <- sample name d None; ret v).
  unfold bind at 1.
  rewrite (sample_traced t name d s1 []); [|done|done|apply lookup_insert_eq|done].
  unfold ret. set (s2 := State _ _ _ _ _ _).
  rewrite (exit_top t s2 []) by done.
  exists (set_stack s2 []). split; [|done].
  simpl. by rewrite lookup_insert_eq.
Qed.

Lemma model_run_single name d guide_trace site v s :
  PYRO_STACK s = [] ->
  od_get guide_trace name = Some site -> m_value site = Some v ->
  exists s2,
    model_run (run (Sample name d None Ret)) guide_trace s =
      (Ok [(name, Message sample_type name (DistFn d) NoArgs (Some v) false)], s2).
Proof.
  intros Hst Hg Hv. unfold model_run, bind at 1.
  change (new (replay guide_trace) s)
    with (Ok (Href (next_id s) (replay guide_trace)), set_next_id s (S (next_id s))).
  cbv beta iota. set (r := Href (next_id s) (replay guide_trace)).
  set (s0 := set_next_id s _). unfold bind at 1.
  change (new trace s0) with (Ok (Href (S (next_id s)) trace), set_next_id s0 (S (S (next_id s)))).
  cbv beta iota. set (t := Href (S (next_id s)) trace). set (s0' := set_next_id s0 _).
  unfold get_trace, __call__, bind at 1. unfold with_ at 1.
  assert (__enter__ t s0' =
          (Ok (Some []), set_traces (set_stack s0' [t]) (<[hid t := []]> (traces s0')))) as ->.
  { unfold __enter__. simpl. by rewrite Hst. }
  set (s1 := set_traces _ _). unfold with_.
  assert (__enter__ r s1 = (Ok None, set_stack s1 [t; r])) as -> by done.
  set (s2 := set_stack s1 _).
  change (run (Sample name d None Ret)) with (do v <- sample name d None; ret v).
  unfold bind at 1.
  rewrite (sample_replayed t r guide_trace name d site v s2 []);
    [|done|done|done|done|done|apply lookup_insert_eq|done].
  unfold ret. set (s3 := State _ _ _ _ _ _).
  rewrite (exit_top r s3 [t]) by done.
  rewrite (exit_top t (set_stack s3 [t]) []) by done.
  eexists. simpl. rewrite lookup_insert_eq. done.
Qed.

Lemma all_recordable_set tr msg :
  all_recordable tr -> recordable msg = true ->
  od_contains tr (m_name msg) = false -> all_recordable (od_set tr (m_name msg) msg).
Proof.
  intros Htr Hm Hc. rewrite (od_set_fresh _ _ _ Hc).
  apply Forall_app. split; [done|]. by apply Forall_singleton.
Qed.

Lemma site_terms_defined tr :
  all_recordable tr -> exists terms, site_terms (od_values tr) = Some terms.
Proof.
  unfold all_recordable, od_values. induction tr as [|[k m] tr IH]; simpl.
  - eauto.
  - intros H. inversion H as [|? ? Hm Htr]; subst. simpl in Hm.
    destruct (IH Htr) as [terms Ht].
    change (list_fmap _ _ snd tr) with (snd <$> tr). rewrite Ht.
    unfold is_sample. unfold recordable, consistent in Hm.
    destruct (m_value m); [|done].
    destruct (m_type m), (m_fn m); simpl; try done; eauto.
Qed.

Section Elbo.
Context {E : ExactArith T}.

Lemma elbo_loop_add sites acc terms :
  site_terms sites = Some terms ->
  elbo_loop tadd sites acc = Ok (tadd acc (tsum_list terms)).
Proof.
  revert acc terms. induction sites as [|site rest IH]; intros acc terms; simpl.
  - intros [= <-]. simpl. by rewrite tadd_0_r.
  - unfold is_sample, site_log_prob.
    destruct (msg_type_eqb (m_type site) sample_type); [|apply IH].
    destruct (m_fn site) as [d|]; [|done].
    destruct (m_value site) as [v|]; [|done].
    destruct (site_terms rest) as [l|]; [|done].
    intros [= <-]. rewrite (IH _ l eq_refl). simpl. by rewrite tadd_assoc.
Qed.

Lemma elbo_loop_sub sites acc terms :
  site_terms sites = Some terms ->
  elbo_loop tsub sites acc = Ok (tsub acc (tsum_list terms)).
Proof.
  revert acc terms. induction sites as [|site rest IH]; intros acc terms; simpl.
  - intros [= <-]. simpl. by rewrite tsub_0_r.
  - unfold is_sample, site_log_prob.
    destruct (msg_type_eqb (m_type site) sample_type); [|apply IH].
    destruct (m_fn site) as [d|]; [|done].
    destruct (m_value site) as [v|]; [|done].
    destruct (site_terms rest) as [l|]; [|done].
    intros [= <-]. rewrite (IH _ l eq_refl). simpl. by rewrite tsub_tadd.
Qed.

(** When the two traced runs return, [elbo] returns the negated
    difference of the two sums. *)
Lemma elbo_of_traces {A B} (model : prog A) (guide : prog B) s gt s1 mt s2 :
  guide_run (run guide) s = (Ok gt, s1) ->
  model_run (run model) gt s1 = (Ok mt, s2) ->
  exists a b,
    site_terms (od_values mt) = Some a /\ site_terms (od_values gt) = Some b /\
    elbo (run model) (run guide) s =
      (Ok (tneg (tsub (tsum_list a) (tsum_list b))), s2).
Proof.
  intros Hg Hm.
  assert (all_recordable gt) as Hgt.
  { unfold guide_run, bind in Hg.
    destruct (new trace s) as [[t1|e] s0] eqn:En; [|done].
    apply new_spec in En as (_ & _ & _ & _ & _ & -> & _).
    apply (get_trace_slot_result all_recordable) in Hg; try done.
    - by apply Forall_nil.
    - apply run_slot; [by apply Forall_nil|apply all_recordable_set]. }
  assert (all_recordable mt) as Hmt.
  { unfold model_run, bind in Hm.
    destruct (new (replay gt) s1) as [[r|e] s0] eqn:Er; [|done].
    destruct (new trace s0) as [[t2|e] s3] eqn:En; [|done].
    apply new_spec in En as (_ & _ & _ & _ & _ & -> & _).
    apply (get_trace_slot_result all_recordable) in Hm; try done.
    - by apply Forall_nil.
    - unfold __call__. apply with_preserves.
      + apply enter_slot. by apply Forall_nil.
      + apply exit_slot.
      + apply run_slot; [by apply Forall_nil|apply all_recordable_set]. }
  destruct (site_terms_defined _ Hgt) as [b Hb].
  destruct (site_terms_defined _ Hmt) as [a Ha].
  exists a, b. split; [done|]. split; [done|].
  rewrite elbo_unfold. unfold bind at 1. rewrite Hg.
  unfold bind at 1. rewrite Hm. unfold bind, lift, ret.
  rewrite (elbo_loop_add _ _ _ Ha), (elbo_loop_sub _ _ _ Hb).
  by rewrite tadd_0_l.
Qed.

Lemma elbo_single_site name d_model d_guide s :
  PYRO_STACK s = [] ->
  let v := (dist_call d_guide (rng s)).1 in
  (elbo (run (Sample name d_model None Ret)) (run (Sample name d_guide None Ret)) s).1 =
  Ok (tneg (tsub (tsum (log_prob d_model v)) (tsum (log_prob d_guide v)))).
Proof.
  intros Hst v.
  destruct (guide_run_single name d_guide s Hst) as (s1 & Hg & Hst1). fold v in Hg.
  set (mg := Message sample_type name (DistFn d_guide) NoArgs (Some v) false) in *.
  destruct (model_run_single name d_model [(name, mg)] mg v s1 Hst1) as (s2 & Hm).
  { simpl. by rewrite String.eqb_refl. }
  { done. }
  rewrite elbo_unfold. unfold bind at 1. rewrite Hg.
  unfold bind at 1. rewrite Hm. unfold bind, lift, ret. simpl.
  by rewrite tadd_0_l.
Qed.

(** C3. For a model and a guide whose traced runs return the traces
    [model_trace] (the model under Replay of the guide trace) and
    [guide_trace], the log-probability terms of the Sample-type sites of
    both traces are defined and [elbo] returns the negation of the sum over
    [model_trace] minus the sum over [guide_trace]; with one Sample site of
    the same name in each, and [v] the value the guide draws, that is
    [-(D_model.log_prob(v).sum() - D_guide.log_prob(v).sum())]. *)
Theorem elbo_value :
  (forall A B (model : prog A) (guide : prog B) s guide_trace s1 model_trace s2,
     guide_run (run guide) s = (Ok guide_trace, s1) ->
     model_run (run model) guide_trace s1 = (Ok model_trace, s2) ->
     exists a b,
       site_terms (od_values model_trace) = Some a /\
       site_terms (od_values guide_trace) = Some b /\
       elbo (run model) (run guide) s =
         (Ok (tneg (tsub (tsum_list a) (tsum_list b))), s2)) /\
  (forall name d_model d_guide s,
     PYRO_STACK s = [] ->
     let v := (dist_call d_guide (rng s)).1 in
     (elbo (run (Sample name d_model None Ret)) (run (Sample name d_guide None Ret)) s).1 =
     Ok (tneg (tsub (tsum (log_prob d_model v)) (tsum (log_prob d_guide v))))).
Proof.
  split.
  - intros A B model guide s gt s1 mt s2. apply elbo_of_traces.
  - apply elbo_single_site.
Qed.

End Elbo.

(** ** C8: the bypass on an empty stack *)

(** On a non-empty stack [apply_stack] is the protocol of the
    specification. *)
Lemma apply_stack_dispatch_spec msg s :
  PYRO_STACK s <> [] -> apply_stack msg s = dispatch_spec (PYRO_STACK s) msg s.
Proof.
  intros Hst. rewrite (apply_stack_unfold msg s Hst). unfold dispatch_spec.
  destruct (pre_phase (reverse (PYRO_STACK s)) msg).2 as [msg1|e]; [|done].
  unfold bind at 2. by destruct (fill_value msg1 _) as [[msg2|e] s2].
Qed.

(** On an empty stack [apply_stack] itself does not return: once the value
    is filled in, the loop variable [pointer] of the first loop is still
    unbound where the second loop reads it. *)
Lemma apply_stack_empty msg s :
  PYRO_STACK s = [] ->
  (apply_stack msg s).1 =
    match (fill_value msg s).1 with
    | Ok _ => Raise UnboundLocalError
    | Raise e => Raise e
    end.
Proof.
  intros Hst. unfold apply_stack, bind, enumerate. rewrite Hst. simpl.
  by destruct (fill_value msg s) as [[m|e] s1].
Qed.

(** C8, for calls without an observed value. On an empty stack
    [sample(name, d)] and [param(name, init_value, constraint)] give the
    result and the state that the dispatch protocol of the specification
    gives over zero handlers. *)
Theorem bypass_matches_dispatch_without_obs :
  (forall name d s,
     PYRO_STACK s = [] -> sample name d None s = sample_by_dispatch name d None s) /\
  (forall name init_value c s,
     PYRO_STACK s = [] ->
     param name init_value c s = param_by_dispatch name init_value c s).
Proof.
  split.
  - intros name d s Hst. unfold sample, sample_by_dispatch. rewrite Hst.
    unfold bind at 1, dispatch_spec. simpl. rewrite log_all_nil.
    unfold bind, fill_value, bind, call_fn, draw. simpl.
    by destruct (dist_call d (rng s)).
  - intros name init_value c s Hst. unfold param, param_by_dispatch. rewrite Hst.
    unfold bind at 1, dispatch_spec. simpl. rewrite log_all_nil.
    unfold bind, fill_value, bind, call_fn. simpl.
    by destruct (param_fn name init_value c s) as [[v|e] s1].
Qed.

(** ** C9: iterating over a plate *)

Lemma range_lookup n i :
  (i < Z.to_nat n)%nat -> range n !! i = Some (Z.of_nat i).
Proof.
  intros Hi. unfold range. rewrite list_lookup_fmap, lookup_seq_lt by done. done.
Qed.

Lemma range_length n : length (range n) = Z.to_nat n.
Proof. unfold range. by rewrite length_fmap, length_seq. Qed.

(** C9, on the code. [PlateMessenger.__iter__] returns the object
    [range(self.size)], whose elements are 0, 1, .., size-1 in order; that
    object is not an iterator, so iterating over the handler raises
    TypeError and yields nothing. *)
Theorem plate_iter_not_an_iterator :
  forall id size dim,
    let self := Href id (PlateMessenger size dim) in
    __iter__ self = Ok (RangeObject size) /\
    length (range size) = Z.to_nat size /\
    (forall i, (i < Z.to_nat size)%nat -> range size !! i = Some (Z.of_nat i)) /\
    iterate self = Raise TypeError.
Proof.
  intros id size dim self. repeat split.
  - apply range_length.
  - intros i. apply range_lookup.
Qed.

End Properties.

(** * Properties of the rest of the module *)

Section MoreProperties.
Context `{T : Torch}.

Notation "'do' x <- m ; k" := (bind m (fun x => k))
  (at level 10, x name, m at level 100, k at level 200).
Notation "m ;; k" := (bind m (fun _ => k))
  (at level 100, k at level 200, right associativity).

(** ** The parameter store under model runs *)

Lemma param_fn_stored_other name init c s name' entry :
  stored name' entry s -> stored name' entry (param_fn name init c s).2.
Proof.
  unfold stored, param_fn. intros H. simpl.
  destruct (PARAM_STORE s !! name) as [[u c']|] eqn:E; [done|].
  destruct init; [|done]. simpl.
  rewrite lookup_insert_ne; [done|]. intros ->. congruence.
Qed.

Lemma call_fn_stored msg s name' entry :
  stored name' entry s -> stored name' entry (call_fn msg s).2.
Proof.
  unfold call_fn, draw, raise. intros H.
  destruct (m_fn msg), (m_args msg); try done.
  - by destruct (dist_call d (rng s)).
  - by apply param_fn_stored_other.
Qed.

Lemma apply_stack_stored msg name' entry :
  preserves (stored name' entry) (apply_stack msg).
Proof.
  intros s H. unfold apply_stack, bind.
  destruct (process_loop _ _ _ s) as [[[pointer msg1]|e] s1] eqn:E1;
    apply process_loop_frame in E1 as (_ & Hps & _);
    [|simpl; unfold stored; by rewrite Hps].
  simpl. assert (stored name' entry s1) as H1 by (unfold stored; by rewrite Hps).
  assert (stored name' entry (fill_value msg1 s1).2) as H2.
  { unfold fill_value, bind. destruct (m_value msg1); [done|].
    pose proof (call_fn_stored msg1 s1 _ _ H1) as Hc.
    by destruct (call_fn msg1 s1) as [[v|e] s2]. }
  destruct (fill_value msg1 s1) as [[msg2|e] s2]; [|done]. simpl in H2.
  destruct pointer as [p|]; [|done].
  destruct (postprocess_loop _ _ s2) as [[[]|e] s3] eqn:E3;
    apply postprocess_loop_frame in E3 as (_ & _ & Hps3 & _);
    simpl; unfold stored; by rewrite Hps3.
Qed.

Lemma sample_stored name d obs name' entry :
  preserves (stored name' entry) (sample name d obs).
Proof.
  intros s H. unfold sample. destruct (PYRO_STACK s).
  - unfold draw. by destruct (dist_call d (rng s)).
  - apply (bind_preserves (stored name' entry)); [apply apply_stack_stored| |done].
    intros m s0 H0. unfold value_of. by destruct (m_value m).
Qed.

Lemma param_stored name init c name' entry :
  preserves (stored name' entry) (param name init c).
Proof.
  intros s H. unfold param. destruct (PYRO_STACK s).
  - by apply param_fn_stored_other.
  - apply (bind_preserves (stored name' entry)); [apply apply_stack_stored| |done].
    intros m s0 H0. unfold value_of. by destruct (m_value m).
Qed.

Lemma enter_stored self name' entry : preserves (stored name' entry) (__enter__ self).
Proof. intros s H. unfold __enter__. by destruct (hcls self). Qed.

Lemma exit_stored self name' entry : preserves (stored name' entry) (__exit__ self).
Proof.
  intros s H. unfold __exit__. destruct (py_index _ _); [|done].
  by destruct (hid h =? hid self)%nat.
Qed.

Lemma new_stored c name' entry : preserves (stored name' entry) (new c).
Proof.
  intros s H. destruct (new c s) as [r s1] eqn:E.
  apply new_spec in E as (_ & _ & Hps & _). simpl. unfold stored. by rewrite Hps.
Qed.

Lemma get_trace_stored {A} self (fn : M A) name' entry :
  preserves (stored name' entry) fn -> preserves (stored name' entry) (get_trace self fn).
Proof.
  intros Hf. unfold get_trace, __call__. apply bind_preserves.
  - apply with_preserves; [apply enter_stored|apply exit_stored|done].
  - intros _ s Hs. by destruct (traces s !! hid self).
Qed.

Lemma run_stored {A} (p : prog A) name' entry : preserves (stored name' entry) (run p).
Proof.
  induction p as [A a|A name fn obs k IH|A name init c k IH|A B h body IHb k IH
                  |A B body IHb k IH]; simpl.
  - by intros s.
  - apply bind_preserves; [apply sample_stored|done].
  - apply bind_preserves; [apply param_stored|done].
  - apply bind_preserves; [apply new_stored|]. intros self.
    apply bind_preserves; [|done].
    apply with_preserves; [apply enter_stored|apply exit_stored|done].
  - apply bind_preserves; [apply new_stored|]. intros self.
    apply bind_preserves; [|done]. by apply get_trace_stored.
Qed.

Lemma elbo_stored {A B} (model : prog A) (guide : prog B) name' entry :
  preserves (stored name' entry) (elbo (run model) (run guide)).
Proof.
  unfold elbo.
  apply bind_preserves; [apply new_stored|]. intros t1.
  apply bind_preserves; [apply get_trace_stored, run_stored|]. intros gt.
  apply bind_preserves; [apply new_stored|]. intros r.
  apply bind_preserves; [apply new_stored|]. intros t2.
  apply bind_preserves.
  { apply get_trace_stored. unfold __call__.
    apply with_preserves; [apply enter_stored|apply exit_stored|apply run_stored]. }
  intros mt. unfold lift, bind, ret. intros s H.
  destruct (elbo_loop tadd _ _); [|done]. by destruct (elbo_loop tsub _ _).
Qed.

(** X1. An entry of the parameter store is never changed or removed by
    running a model or by [elbo]: whatever the run does, and whether it
    returns or raises, the name still maps to the same pair of
    unconstrained value and constraint afterwards. *)
Theorem param_store_entries_persist :
  (forall A (p : prog A) name entry s,
     PARAM_STORE s !! name = Some entry ->
     PARAM_STORE (run p s).2 !! name = Some entry) /\
  (forall A B (model : prog A) (guide : prog B) name entry s,
     PARAM_STORE s !! name = Some entry ->
     PARAM_STORE (elbo (run model) (run guide) s).2 !! name = Some entry).
Proof.
  split.
  - intros A p name entry s. apply (run_stored p name entry s).
  - intros A B model guide name entry s. apply (elbo_stored model guide name entry s).
Qed.


(** ** param without an initial value *)

Lemma process_message_param_ok h msg :
  m_type msg = param_type -> exists m, process_message h msg = Ok m.
Proof.
  intros Hty. unfold process_message. rewrite Hty.
  destruct (hcls h); simpl; eauto.
  - destruct (od_contains guide_trace (m_name msg)) eqn:Ec; [|eauto].
    apply od_contains_get in Ec as [site ->]. eauto.
  - destruct (hide_fn msg); eauto.
Qed.

Lemma pre_phase_param_ok hs msg :
  m_type msg = param_type -> exists m, (pre_phase hs msg).2 = Ok m.
Proof.
  revert msg. induction hs as [|h hs IH]; intros msg Hty; simpl; [eauto|].
  destruct (process_message_param_ok h msg Hty) as [m Hm]. rewrite Hm.
  destruct (m_stop m); simpl; [eauto|].
  apply IH. apply process_message_type in Hm as (-> & _). done.
Qed.

(** X2. [param(name)] without an initial value, for a name that the
    parameter store does not have, raises AssertionError on an empty stack
    and under any handlers that do not replay the name; the store and
    every trace are left as they were (no handler records the failed
    site). *)
Theorem param_without_init_raises :
  forall name c s,
    PARAM_STORE s !! name = None ->
    forallb (leaves_value name) (PYRO_STACK s) = true ->
    let out := param name None c s in
    out.1 = Raise AssertionError /\
    PARAM_STORE out.2 = PARAM_STORE s /\ traces out.2 = traces s.
Proof.
  intros name c s Hs Hl out. unfold out.
  destruct (decide (PYRO_STACK s = [])) as [He|Hne].
  - unfold param. rewrite He. unfold param_fn. simpl. by rewrite Hs.
  - set (msg := Message param_type name (ParamFn name) (ParamArgs None c) None false).
    destruct (pre_phase_param_ok (reverse (PYRO_STACK s)) msg eq_refl) as [m1 Hm1].
    pose proof (pre_phase_value (reverse (PYRO_STACK s)) msg m1) as Hv.
    rewrite forallb_reverse in Hv. specialize (Hv Hl Hm1).
    pose proof (pre_phase_fn_param _ _ _ Hm1 eq_refl) as Hfn.
    destruct (pre_phase_type _ _ _ Hm1) as (_ & _ & Hargs).
    set (s1 := log_all s ((fun h => EvProcess (hid h)) <$>
                            (pre_phase (reverse (PYRO_STACK s)) msg).1)).
    assert (param name None c s = (Raise AssertionError, log s1 (EvParamFn name))) as ->.
    { rewrite param_dispatch by done. fold msg. unfold bind at 1.
      rewrite (apply_stack_unfold msg s Hne). rewrite Hm1. fold s1.
      assert (fill_value m1 s1 = (Raise AssertionError, log s1 (EvParamFn name))) as ->.
      { unfold fill_value, bind, call_fn. rewrite Hv, Hfn, Hargs. simpl.
        unfold param_fn. simpl. by rewrite Hs. }
      done. }
    done.
Qed.


(** ** What a dispatch returns and what the traces hold afterwards *)

Lemma fill_value_site msg s msg2 s2 :
  fill_value msg s = (Ok msg2, s2) ->
  m_name msg2 = m_name msg /\ m_type msg2 = m_type msg /\
  m_args msg2 = m_args msg /\ m_fn msg2 = m_fn msg /\ m_stop msg2 = m_stop msg.
Proof.
  unfold fill_value, bind, ret. destruct (m_value msg); [by intros [= <- <-]|].
  destruct (call_fn msg s) as [[v|e] s1]; [|done]. by intros [= <- <-].
Qed.

(** The three phases of a dispatch that returns. *)
Lemma apply_stack_returns msg s msg' s' :
  apply_stack msg s = (Ok msg', s') ->
  PYRO_STACK s <> [] /\
  exists msg1 s2,
    (pre_phase (reverse (PYRO_STACK s)) msg).2 = Ok msg1 /\
    fill_value msg1
      (log_all s ((fun h => EvProcess (hid h)) <$>
                    (pre_phase (reverse (PYRO_STACK s)) msg).1)) = (Ok msg', s2) /\
    postprocess_loop (reverse (pre_phase (reverse (PYRO_STACK s)) msg).1) msg' s2 =
      (Ok tt, s').
Proof.
  intros H. destruct (decide (PYRO_STACK s = [])) as [He|Hne].
  - exfalso. pose proof (apply_stack_empty msg s He) as Hx. rewrite H in Hx.
    simpl in Hx. by destruct (fill_value msg s).1.
  - split; [done|]. rewrite (apply_stack_unfold msg s Hne) in H.
    destruct (pre_phase (reverse (PYRO_STACK s)) msg).2 as [msg1|e]; [|done].
    destruct (fill_value msg1 _) as [[msg2|e] s2] eqn:Ef; [|done].
    unfold bind, ret in H.
    destruct (postprocess_loop _ msg2 s2) as [[[]|e] s3] eqn:Ep; [|done].
    injection H as <- <-. by exists msg1, s2.
Qed.

(** X3. The message that [apply_stack] returns has its value set and has
    the name, the kind and the arguments of the message it was given:
    handlers change the value, the stop flag and the distribution of a
    site, never which site it is. *)
Theorem apply_stack_keeps_site :
  forall msg s msg' s',
    apply_stack msg s = (Ok msg', s') ->
    is_Some (m_value msg') /\ m_name msg' = m_name msg /\
    m_type msg' = m_type msg /\ m_args msg' = m_args msg.
Proof.
  intros msg s msg' s' H. split; [by apply apply_stack_value in H|].
  apply apply_stack_returns in H as (_ & msg1 & s2 & Hpre & Hf & _).
  apply pre_phase_type in Hpre as (Hty & Hn & Ha).
  apply fill_value_site in Hf as (Hn2 & Hty2 & Ha2 & _).
  repeat split; congruence.
Qed.

Lemma postprocess_loop_app l1 l2 msg s :
  postprocess_loop (l1 ++ l2) msg s =
  (postprocess_loop l1 msg ;; postprocess_loop l2 msg) s.
Proof.
  revert s. induction l1 as [|h l1 IH]; intros s; simpl; [done|].
  unfold bind.
  destruct (postprocess_message h msg _) as [[[]|e] s1]; [|done].
  rewrite IH. done.
Qed.

(** A post-phase that returns either leaves the trace of an object as it
    was or has put the name of the message into it. *)
Lemma postprocess_loop_slot_cases hs msg s s1 tid :
  postprocess_loop hs msg s = (Ok tt, s1) ->
  traces s1 !! tid = traces s !! tid \/
  exists tr, traces s1 !! tid = Some tr /\ od_contains tr (m_name msg) = true.
Proof.
  revert s. induction hs as [|h hs IH]; intros s; simpl.
  - intros [= <-]. by left.
  - unfold bind.
    destruct (postprocess_message h msg _) as [[[]|e] s0] eqn:E; [|done].
    intros H. destruct (IH _ H) as [Heq|Hc]; [|by right].
    rewrite Heq. unfold postprocess_message in E.
    destruct (hcls h); simplify_eq; try by left.
    simpl in E. destruct (traces s !! hid h) as [tr0|] eqn:Et; [|done].
    destruct (od_contains tr0 (m_name msg)) eqn:Ec; [done|]. simplify_eq. simpl.
    destruct (decide (hid h = tid)) as [<-|Hne].
    + right. rewrite lookup_insert_eq. eexists. split; [done|].
      rewrite (od_set_fresh _ _ _ Ec). unfold od_contains.
      rewrite existsb_app. simpl. rewrite String.eqb_refl. apply orb_true_r.
    + left. by rewrite lookup_insert_ne.
Qed.

(** The innermost handler is a trace handler and the dispatch returns:
    its trace ends with the message returned. *)
Lemma apply_stack_recorded outer t msg s msg' s' :
  PYRO_STACK s = outer ++ [t] -> hcls t = trace ->
  apply_stack msg s = (Ok msg', s') ->
  exists tr,
    traces s' !! hid t = Some (tr ++ [(m_name msg', msg')]) /\
    od_contains tr (m_name msg') = false /\
    (traces s !! hid t = Some [] -> tr = []).
Proof.
  intros Hst Ht H. apply apply_stack_returns in H as (_ & msg1 & s2 & Hpre & Hf & Hp).
  assert (exists rest, (pre_phase (reverse (PYRO_STACK s)) msg).1 = t :: rest)
    as [rest Hr].
  { rewrite Hst, reverse_app. simpl.
    destruct (process_message t msg) as [m|e]; [|eauto].
    destruct (m_stop m); simpl; eauto. }
  rewrite Hr in Hp, Hf. rewrite reverse_cons, postprocess_loop_app in Hp.
  unfold bind at 1 in Hp.
  destruct (postprocess_loop (reverse rest) msg' s2) as [[[]|e] s3] eqn:E3; [|done].
  simpl in Hp. unfold bind in Hp.
  destruct (postprocess_message t msg' _) as [[[]|e] s4] eqn:E4; [|done].
  injection Hp as <-. unfold postprocess_message in E4. rewrite Ht in E4. simpl in E4.
  destruct (traces s3 !! hid t) as [tr|] eqn:Et; [|done].
  destruct (od_contains tr (m_name msg')) eqn:Ec; [done|].
  injection E4 as <-. exists tr. simpl. rewrite lookup_insert_eq.
  rewrite (od_set_fresh _ _ _ Ec). split; [done|]. split; [done|].
  intros Hs0. apply fill_value_frame in Hf as (_ & Htr2 & _). simpl in Htr2.
  destruct (postprocess_loop_slot_cases _ _ _ _ (hid t) E3) as [Heq|(tr' & Htr' & Hc')].
  - rewrite Htr2 in Heq. unfold OrderedDict in *. congruence.
  - rewrite Htr' in Et. injection Et as ->. congruence.
Qed.


Lemma dispatch_recorded outer t msg s v s' :
  PYRO_STACK s = outer ++ [t] -> hcls t = trace ->
  (do m <- apply_stack msg; value_of m) s = (Ok v, s') ->
  exists tr site,
    traces s' !! hid t = Some (tr ++ [(m_name msg, site)]) /\
    od_get (tr ++ [(m_name msg, site)]) (m_name msg) = Some site /\
    m_value site = Some v /\ m_type site = m_type msg /\
    (traces s !! hid t = Some [] -> tr = []).
Proof.
  intros Hst Ht H. unfold bind in H.
  destruct (apply_stack msg s) as [[msg'|e] s1] eqn:E; [|done].
  unfold value_of in H. destruct (m_value msg') as [v'|] eqn:Ev; [|done].
  injection H as <- <-.
  destruct (apply_stack_recorded outer t msg s msg' s1 Hst Ht E) as (tr & Htr & Hc & Hnil).
  apply apply_stack_returns in E as (_ & msg1 & s2 & Hpre & Hf & _).
  apply pre_phase_type in Hpre as (Hty & Hn & _).
  apply fill_value_site in Hf as (Hn2 & Hty2 & _).
  assert (m_name msg' = m_name msg) as Hname by congruence.
  rewrite Hname in Htr, Hc.
  exists tr, msg'. split; [done|]. split; [by apply od_get_snoc|].
  split; [done|]. split; [congruence|done].
Qed.

(** X4. When the innermost handler is a trace handler and [sample] or
    [param] returns [v], the last entry of that handler's trace is the
    site under its name, of the right kind, with value [v], and a lookup
    of the name finds it; so the trace of a scope around one sample site
    is exactly that site with the value the site returned. *)
Theorem trace_round_trip :
  (forall outer t name d obs s v s',
     PYRO_STACK s = outer ++ [t] -> hcls t = trace ->
     sample name d obs s = (Ok v, s') ->
     exists tr site,
       traces s' !! hid t = Some (tr ++ [(name, site)]) /\
       od_get (tr ++ [(name, site)]) name = Some site /\
       m_value site = Some v /\ m_type site = sample_type) /\
  (forall outer t name init c s v s',
     PYRO_STACK s = outer ++ [t] -> hcls t = trace ->
     param name init c s = (Ok v, s') ->
     exists tr site,
       traces s' !! hid t = Some (tr ++ [(name, site)]) /\
       od_get (tr ++ [(name, site)]) name = Some site /\
       m_value site = Some v /\ m_type site = param_type) /\
  (forall t name d obs s v s',
     hcls t = trace ->
     with_ t (sample name d obs) s = (Ok v, s') ->
     exists site,
       traces s' !! hid t = Some [(name, site)] /\
       m_value site = Some v /\ m_type site = sample_type).
Proof.
  split; [|split].
  - intros outer t name d obs s v s' Hst Ht H.
    rewrite sample_dispatch in H by (rewrite Hst; by destruct outer).
    destruct (dispatch_recorded outer t _ s v s' Hst Ht H)
      as (tr & site & H1 & H2 & H3 & H4 & _).
    by exists tr, site.
  - intros outer t name init c s v s' Hst Ht H.
    rewrite param_dispatch in H by (rewrite Hst; by destruct outer).
    destruct (dispatch_recorded outer t _ s v s' Hst Ht H)
      as (tr & site & H1 & H2 & H3 & H4 & _).
    by exists tr, site.
  - intros t name d obs s v s' Ht H. unfold with_ in H.
    assert (__enter__ t s =
            (Ok (Some []), set_traces (set_stack s (PYRO_STACK s ++ [t]))
                             (<[hid t := []]> (traces s)))) as He
      by (unfold __enter__; by rewrite Ht).
    rewrite He in H. set (s1 := set_traces _ _) in H.
    destruct (sample name d obs s1) as [[v1|e] s2] eqn:Es.
    + assert (PYRO_STACK s2 = PYRO_STACK s ++ [t]) as Hst2.
      { apply sample_frame in Es as [-> _]. done. }
      rewrite (exit_top t s2 (PYRO_STACK s) Hst2) in H. injection H as <- <-.
      rewrite sample_dispatch in Es by (simpl; by destruct (PYRO_STACK s)).
      destruct (dispatch_recorded (PYRO_STACK s) t _ s1 v1 s2 eq_refl Ht Es)
        as (tr & site & H1 & _ & H3 & H4 & Hnil).
      rewrite Hnil in H1 by (simpl; apply lookup_insert_eq).
      by exists site.
    + by destruct (__exit__ t s2) as [[[]|e'] s3].
Qed.


(** ** Traces only grow *)

Lemma postprocess_message_grown tid tr h msg :
  preserves (grown tid tr) (postprocess_message h msg).
Proof.
  intros s [Hn [more Hm]]. unfold postprocess_message.
  destruct (hcls h); try (split; eauto; fail).
  destruct (traces s !! hid h) as [tr0|] eqn:Et; [|split; eauto].
  destruct (od_contains tr0 (m_name msg)) eqn:Ec; [split; eauto|].
  split; [done|]. simpl. destruct (decide (hid h = tid)) as [Heq|Hne].
  - rewrite Heq in Et.
    assert (tr0 = tr ++ more) as -> by (unfold OrderedDict in *; congruence).
    exists (more ++ [(m_name msg, msg)]).
    rewrite Heq, lookup_insert_eq, (od_set_fresh _ _ _ Ec). by rewrite app_assoc.
  - exists more. by rewrite lookup_insert_ne.
Qed.

Lemma postprocess_loop_grown tid tr hs msg :
  preserves (grown tid tr) (postprocess_loop hs msg).
Proof.
  induction hs as [|h hs IH]; intros s Hs; simpl; [done|].
  apply (bind_preserves (grown tid tr)); [apply postprocess_message_grown|done|].
  exact Hs.
Qed.

Lemma grown_frame tid tr s s' :
  traces s' = traces s -> (next_id s <= next_id s')%nat ->
  grown tid tr s -> grown tid tr s'.
Proof. intros Ht Hn [Hlt Hm]. split; [lia|]. by rewrite Ht. Qed.

Lemma apply_stack_grown tid tr msg : preserves (grown tid tr) (apply_stack msg).
Proof.
  intros s Hs. unfold apply_stack, bind.
  destruct (process_loop _ _ _ s) as [[[pointer msg1]|e] s1] eqn:E1;
    apply process_loop_frame in E1 as (_ & _ & Ht1 & Hn1 & _);
    assert (grown tid tr s1) as Hs1 by (apply (grown_frame _ _ s); [done|lia|done]);
    [|done].
  simpl. destruct (fill_value msg1 s1) as [[msg2|e] s2] eqn:E2;
    apply fill_value_frame in E2 as (_ & Ht2 & Hn2);
    assert (grown tid tr s2) as Hs2 by (apply (grown_frame _ _ s1); [done|lia|done]);
    [|done].
  destruct pointer as [p|]; [|done].
  pose proof (postprocess_loop_grown tid tr
                (py_slice_from (PYRO_STACK s2) (- Z.of_nat p - 1)) msg2 s2 Hs2) as H3.
  by destruct (postprocess_loop _ _ s2) as [[[]|e] s3].
Qed.

Lemma sample_grown tid tr name d obs : preserves (grown tid tr) (sample name d obs).
Proof.
  intros s Hs. unfold sample. destruct (PYRO_STACK s).
  - unfold draw. destruct (dist_call d (rng s)). by apply (grown_frame _ _ s).
  - apply (bind_preserves (grown tid tr)); [apply apply_stack_grown| |done].
    intros m s0 H0. unfold value_of. by destruct (m_value m).
Qed.

Lemma param_grown tid tr name init c : preserves (grown tid tr) (param name init c).
Proof.
  intros s Hs. unfold param. destruct (PYRO_STACK s).
  - destruct (param_fn name init c s) as [r s1] eqn:E.
    apply param_fn_frame in E as (_ & Ht & Hn). simpl.
    apply (grown_frame _ _ s); [done|lia|done].
  - apply (bind_preserves (grown tid tr)); [apply apply_stack_grown| |done].
    intros m s0 H0. unfold value_of. by destruct (m_value m).
Qed.

Lemma enter_grown tid tr self :
  hid self <> tid -> preserves (grown tid tr) (__enter__ self).
Proof.
  intros Hne s [Hn [more Hm]]. unfold __enter__.
  destruct (hcls self); simpl; try (split; eauto; fail).
  split; [done|]. exists more. simpl. by rewrite lookup_insert_ne.
Qed.

Lemma exit_grown tid tr self : preserves (grown tid tr) (__exit__ self).
Proof.
  intros s Hs. unfold __exit__. destruct (py_index _ _); [|done].
  by destruct (hid h =? hid self)%nat.
Qed.

Lemma new_bind_grown {B} tid tr c (k : href -> M B) :
  (forall self, (tid < hid self)%nat -> preserves (grown tid tr) (k self)) ->
  preserves (grown tid tr) (bind (new c) k).
Proof.
  intros Hk s Hs. unfold bind.
  destruct (new c s) as [[self|e] s1] eqn:E;
    apply new_spec in E as (_ & Etr & _ & _ & _ & E).
  - destruct E as [-> En]. destruct Hs as [Hn Hm]. apply Hk; [simpl; lia|].
    split; [lia|]. by rewrite Etr.
  - by subst s1.
Qed.

Lemma get_trace_grown {A} tid tr self (fn : M A) :
  hid self <> tid -> preserves (grown tid tr) fn ->
  preserves (grown tid tr) (get_trace self fn).
Proof.
  intros Hne Hf. unfold get_trace, __call__. apply bind_preserves.
  - apply with_preserves; [by apply enter_grown|apply exit_grown|done].
  - intros _ s Hs. by destruct (traces s !! hid self).
Qed.

Lemma run_grown {A} tid tr (p : prog A) : preserves (grown tid tr) (run p).
Proof.
  induction p as [A a|A name fn obs k IH|A name init c k IH|A B h body IHb k IH
                  |A B body IHb k IH]; simpl.
  - by intros s.
  - apply bind_preserves; [apply sample_grown|done].
  - apply bind_preserves; [apply param_grown|done].
  - apply new_bind_grown. intros self Hlt.
    apply bind_preserves; [|done].
    apply with_preserves; [apply enter_grown; lia|apply exit_grown|done].
  - apply new_bind_grown. intros self Hlt.
    apply bind_preserves; [|done]. apply get_trace_grown; [lia|done].
Qed.

(** X5. A trace is append-only while a model runs: the trace that an
    existing trace object holds before the run is a prefix of the one it
    holds afterwards, whether the run returns or raises.  No site is ever
    removed, reordered or overwritten. *)
Theorem trace_append_only :
  forall A (p : prog A) tid tr s,
    (tid < next_id s)%nat -> traces s !! tid = Some tr ->
    exists more, traces (run p s).2 !! tid = Some (tr ++ more).
Proof.
  intros A p tid tr s Hn Htr.
  destruct (run_grown tid tr p s) as [_ H]; [|done].
  split; [done|]. exists []. by rewrite app_nil_r.
Qed.


(** ** Handlers that do nothing *)

Lemma process_message_fn_quiet h msg m :
  quiet h = true -> process_message h msg = Ok m -> m_fn m = m_fn msg.
Proof.
  unfold quiet, process_message. destruct (hcls h); try done.
  - by intros _ [= <-].
  - intros _ H. by repeat (case_match; simplify_eq).
  - intros _ H. by repeat (case_match; simplify_eq).
Qed.

Lemma pre_phase_fn_quiet hs msg m :
  forallb quiet hs = true -> (pre_phase hs msg).2 = Ok m -> m_fn m = m_fn msg.
Proof.
  revert msg. induction hs as [|h hs IH]; intros msg; simpl.
  - by intros _ [= <-].
  - intros [Hq Hqs]%andb_prop.
    destruct (process_message h msg) as [m1|e] eqn:E; [|done].
    apply (process_message_fn_quiet _ _ _ Hq) in E.
    destruct (m_stop m1); simpl; [intros [= <-]; done|].
    intros H. apply IH in H; [congruence|done].
Qed.

Lemma postprocess_loop_quiet_traces hs msg s :
  forallb quiet hs = true -> traces (postprocess_loop hs msg s).2 = traces s.
Proof.
  revert s. induction hs as [|h hs IH]; intros s; simpl; [done|].
  intros [Hq Hqs]%andb_prop. unfold bind, postprocess_message.
  unfold quiet in Hq. destruct (hcls h); try done; by rewrite IH.
Qed.

(** A dispatch of a message without a value through handlers that neither
    raise nor touch the value: the descriptor is called on the state at
    hand and nothing else changes. *)
Lemma apply_stack_quiet msg s :
  PYRO_STACK s <> [] ->
  forallb quiet (PYRO_STACK s) = true ->
  forallb (leaves_value (m_name msg)) (PYRO_STACK s) = true ->
  m_value msg = None ->
  exists evs msg1,
    m_fn msg1 = m_fn msg /\ m_args msg1 = m_args msg /\ m_value msg1 = None /\
    match call_fn msg1 (log_all s evs) with
    | (Ok v, s2) =>
        exists s', (do m <- apply_stack msg; value_of m) s = (Ok v, s') /\
                   traces s' = traces s2 /\ PARAM_STORE s' = PARAM_STORE s2 /\
                   rng s' = rng s2
    | (Raise e, s2) => (do m <- apply_stack msg; value_of m) s = (Raise e, s2)
    end.
Proof.
  intros Hne Hq Hl Hv.
  destruct (pre_phase_quiet (reverse (PYRO_STACK s)) msg) as [m1 Hm1];
    [by rewrite forallb_reverse..|].
  pose proof (pre_phase_value (reverse (PYRO_STACK s)) msg m1) as Hv1.
  rewrite forallb_reverse in Hv1. specialize (Hv1 Hl Hm1). rewrite Hv in Hv1.
  pose proof (pre_phase_fn_quiet (reverse (PYRO_STACK s)) msg m1) as Hfn.
  rewrite forallb_reverse in Hfn. specialize (Hfn Hq Hm1).
  destruct (pre_phase_type _ _ _ Hm1) as (_ & _ & Hargs).
  destruct (pre_phase_prefix (reverse (PYRO_STACK s)) msg) as [outer Ho].
  set (reached := (pre_phase (reverse (PYRO_STACK s)) msg).1) in *.
  exists ((fun h => EvProcess (hid h)) <$> reached), m1.
  split; [done|]. split; [done|]. split; [done|].
  set (s1 := log_all s _).
  assert (forallb quiet (reverse reached) = true) as Hqr.
  { rewrite forallb_reverse. apply (forallb_prefix _ _ outer).
    rewrite <- Ho. by rewrite forallb_reverse. }
  assert ((do m <- apply_stack msg; value_of m) s =
          match call_fn m1 s1 with
          | (Ok v, s2) =>
              match postprocess_loop (reverse reached) (set_value m1 (Some v)) s2 with
              | (Ok _, s3) => (Ok v, s3)
              | (Raise e, s3) => (Raise e, s3)
              end
          | (Raise e, s2) => (Raise e, s2)
          end) as ->.
  { unfold bind at 1. rewrite (apply_stack_unfold msg s Hne). fold reached.
    rewrite Hm1. fold s1. unfold fill_value. rewrite Hv1. unfold bind, ret.
    destruct (call_fn m1 s1) as [[v|e] s2]; [|done].
    by destruct (postprocess_loop (reverse reached) _ s2) as [[[]|e] s3]. }
  destruct (call_fn m1 s1) as [[v|e] s2]; [|done].
  pose proof (postprocess_loop_quiet _ (set_value m1 (Some v)) s2 Hqr) as Hok.
  pose proof (postprocess_loop_quiet_traces _ (set_value m1 (Some v)) s2 Hqr) as Htr.
  destruct (postprocess_loop (reverse reached) _ s2) as [[[]|e] s3] eqn:Ep; [|done].
  apply postprocess_loop_frame in Ep as (_ & _ & Hps & Hrng).
  by exists s3.
Qed.

Lemma draw_result d s1 s2 :
  rng s1 = rng s2 ->
  (draw d s1).1 = (draw d s2).1 /\ rng (draw d s1).2 = rng (draw d s2).2 /\
  traces (draw d s1).2 = traces s1 /\ PARAM_STORE (draw d s1).2 = PARAM_STORE s1.
Proof. intros H. unfold draw. rewrite H. by destruct (dist_call d (rng s2)). Qed.

Lemma param_fn_result name init c s1 s2 :
  PARAM_STORE s1 = PARAM_STORE s2 ->
  (param_fn name init c s1).1 = (param_fn name init c s2).1 /\
  PARAM_STORE (param_fn name init c s1).2 = PARAM_STORE (param_fn name init c s2).2 /\
  traces (param_fn name init c s1).2 = traces s1 /\
  rng (param_fn name init c s1).2 = rng s1.
Proof.
  intros H. unfold param_fn. simpl. rewrite H.
  destruct (PARAM_STORE s2 !! name) as [[u c']|]; [done|].
  destruct init; simpl; by rewrite ?H.
Qed.

(** X6. Handlers that cannot raise and do not replay the name (plain
    Messengers, blocks, replays of other names) are transparent to the
    value of a site: under any stack of them, [sample] without an observed
    value and [param] return what they return on an empty stack and leave
    the generator and the parameter store as the empty-stack call does,
    and no trace changes. *)
Theorem quiet_handlers_are_transparent :
  (forall name d s,
     forallb quiet (PYRO_STACK s) = true ->
     forallb (leaves_value name) (PYRO_STACK s) = true ->
     let out := sample name d None s in
     let bypass := sample name d None (set_stack s []) in
     out.1 = bypass.1 /\ rng out.2 = rng bypass.2 /\
     PARAM_STORE out.2 = PARAM_STORE s /\ traces out.2 = traces s) /\
  (forall name init c s,
     forallb quiet (PYRO_STACK s) = true ->
     forallb (leaves_value name) (PYRO_STACK s) = true ->
     let out := param name init c s in
     let bypass := param name init c (set_stack s []) in
     out.1 = bypass.1 /\ PARAM_STORE out.2 = PARAM_STORE bypass.2 /\
     rng out.2 = rng s /\ traces out.2 = traces s).
Proof.
  split.
  - intros name d s Hq Hl out bypass.
    assert (bypass = draw d (set_stack s [])) as Hb by done.
    destruct (decide (PYRO_STACK s = [])) as [He|Hne].
    + assert (out = draw d s) as Ho by (unfold out, sample; by rewrite He).
      rewrite Ho, Hb. destruct (draw_result d s (set_stack s []) eq_refl) as (A & B & C & D).
      done.
    + set (msg := Message sample_type name (DistFn d) NoArgs None false).
      destruct (apply_stack_quiet msg s Hne Hq Hl eq_refl)
        as (evs & m1 & Hfn & Hargs & _ & H).
      unfold call_fn in H. rewrite Hfn, Hargs in H. simpl in H.
      destruct (draw_result d (log_all s evs) (set_stack s []) eq_refl) as (A & B & C & D).
      destruct (draw d (log_all s evs)) as [[v|e] s2] eqn:Ed.
      * destruct H as (s' & H & H1 & H2 & H3).
        unfold out. rewrite sample_dispatch by done. fold msg. rewrite H, Hb.
        simpl in *. by rewrite H1, H2, H3.
      * unfold draw in Ed. by destruct (dist_call d _).
  - intros name init c s Hq Hl out bypass.
    assert (bypass = param_fn name init c (set_stack s [])) as Hb by done.
    destruct (decide (PYRO_STACK s = [])) as [He|Hne].
    + assert (out = param_fn name init c s) as Ho by (unfold out, param; by rewrite He).
      rewrite Ho, Hb.
      destruct (param_fn_result name init c s (set_stack s []) eq_refl) as (A & B & C & D).
      done.
    + set (msg := Message param_type name (ParamFn name) (ParamArgs init c) None false).
      destruct (apply_stack_quiet msg s Hne Hq Hl eq_refl)
        as (evs & m1 & Hfn & Hargs & _ & H).
      unfold call_fn in H. rewrite Hfn, Hargs in H. simpl in H.
      destruct (param_fn_result name init c (log_all s evs) (set_stack s []) eq_refl)
        as (A & B & C & D).
      unfold out. rewrite param_dispatch by done. fold msg. rewrite Hb.
      destruct (param_fn name init c (log_all s evs)) as [[v|e] s2] eqn:Ed.
      * destruct H as (s' & H & H1 & H2 & H3). rewrite H.
        simpl in *. by rewrite H1, H2, H3.
      * rewrite H. simpl in *. done.
Qed.


(** ** What is outside a block *)

Lemma pre_phase_block_eq inner b outer f msg :
  hcls b = block f ->
  (forall m, m_type m = m_type msg -> f m = true) ->
  pre_phase (inner ++ b :: outer) msg = pre_phase (inner ++ [b]) msg.
Proof.
  intros Hb Hf. revert msg Hf. induction inner as [|h inner IH]; intros msg Hf; simpl.
  - unfold process_message. rewrite Hb, Hf by done. done.
  - destruct (process_message h msg) as [m|e] eqn:E; [|done].
    destruct (m_stop m); [done|]. rewrite IH; [done|].
    intros m' Hm'. apply Hf. apply process_message_type in E as (E & _). congruence.
Qed.

Lemma same_but_stack_log_all s1 s2 evs :
  same_but_stack s1 s2 -> same_but_stack (log_all s1 evs) (log_all s2 evs).
Proof. intros (A & B & C & D & E). unfold same_but_stack. simpl. by rewrite ?A, ?B, ?C, ?D, ?E. Qed.

Lemma call_fn_same_but_stack msg s1 s2 :
  same_but_stack s1 s2 ->
  (call_fn msg s1).1 = (call_fn msg s2).1 /\
  same_but_stack (call_fn msg s1).2 (call_fn msg s2).2.
Proof.
  intros (A & B & C & D & E). unfold call_fn, draw, param_fn, raise, same_but_stack.
  destruct (m_fn msg), (m_args msg); simpl; try done.
  - rewrite D. destruct (dist_call d (rng s2)). simpl. by rewrite ?A, ?B, ?C, ?E.
  - rewrite A. destruct (PARAM_STORE s2 !! name) as [[u c']|]; simpl.
    + by rewrite ?A, ?B, ?C, ?D, ?E.
    + destruct init_value; simpl; by rewrite ?A, ?B, ?C, ?D, ?E.
Qed.

Lemma fill_value_same_but_stack msg s1 s2 :
  same_but_stack s1 s2 ->
  (fill_value msg s1).1 = (fill_value msg s2).1 /\
  same_but_stack (fill_value msg s1).2 (fill_value msg s2).2.
Proof.
  intros H. unfold fill_value. destruct (m_value msg); [done|].
  unfold bind. destruct (call_fn_same_but_stack msg s1 s2 H) as [Hr Hs].
  destruct (call_fn msg s1) as [[v1|e1] s1'], (call_fn msg s2) as [[v2|e2] s2'];
    simpl in *; simplify_eq; done.
Qed.

Lemma postprocess_message_same_but_stack h msg s1 s2 :
  same_but_stack s1 s2 ->
  (postprocess_message h msg s1).1 = (postprocess_message h msg s2).1 /\
  same_but_stack (postprocess_message h msg s1).2 (postprocess_message h msg s2).2.
Proof.
  intros (A & B & C & D & E). unfold postprocess_message, same_but_stack.
  destruct (hcls h); try done. rewrite B.
  destruct (traces s2 !! hid h) as [tr|]; [|done].
  destruct (od_contains tr (m_name msg)); [done|]. simpl. by rewrite ?A, ?B, ?C, ?D, ?E.
Qed.

Lemma postprocess_loop_same_but_stack hs msg s1 s2 :
  same_but_stack s1 s2 ->
  (postprocess_loop hs msg s1).1 = (postprocess_loop hs msg s2).1 /\
  same_but_stack (postprocess_loop hs msg s1).2 (postprocess_loop hs msg s2).2.
Proof.
  revert s1 s2. induction hs as [|h hs IH]; intros s1 s2 H; simpl; [done|].
  unfold bind.
  assert (same_but_stack (log s1 (EvPostprocess (hid h))) (log s2 (EvPostprocess (hid h))))
    as Hl.
  { destruct H as (A & B & C & D & E). unfold same_but_stack. simpl.
    by rewrite ?A, ?B, ?C, ?D, ?E. }
  destruct (postprocess_message_same_but_stack h msg _ _ Hl) as [Hr Hs].
  destruct (postprocess_message h msg (log s1 _)) as [[[]|e1] s1'],
           (postprocess_message h msg (log s2 _)) as [[[]|e2] s2'];
    simpl in *; simplify_eq; [by apply IH|done].
Qed.

Lemma apply_stack_behind_block outer1 outer2 b f inner msg s1 s2 :
  hcls b = block f -> (forall m, m_type m = m_type msg -> f m = true) ->
  PYRO_STACK s1 = outer1 ++ b :: inner -> PYRO_STACK s2 = outer2 ++ b :: inner ->
  same_but_stack s1 s2 ->
  (apply_stack msg s1).1 = (apply_stack msg s2).1 /\
  same_but_stack (apply_stack msg s1).2 (apply_stack msg s2).2.
Proof.
  intros Hb Hf Hst1 Hst2 H.
  assert (forall outer, reverse (outer ++ b :: inner) = reverse inner ++ b :: reverse outer)
    as Hrev.
  { intros outer. by rewrite reverse_app, reverse_cons, <- app_assoc. }
  rewrite (apply_stack_unfold msg s1) by (rewrite Hst1; by destruct outer1).
  rewrite (apply_stack_unfold msg s2) by (rewrite Hst2; by destruct outer2).
  rewrite Hst1, Hst2, !Hrev.
  rewrite (pre_phase_block_eq (reverse inner) b (reverse outer1) f msg Hb Hf).
  rewrite (pre_phase_block_eq (reverse inner) b (reverse outer2) f msg Hb Hf).
  destruct (pre_phase (reverse inner ++ [b]) msg) as [reached [msg1|e]]; cbn [fst snd].
  - pose proof (same_but_stack_log_all s1 s2
                  ((fun h => EvProcess (hid h)) <$> reached) H) as H1.
    destruct (fill_value_same_but_stack msg1 _ _ H1) as [Hr Hs].
    destruct (fill_value msg1 (log_all s1 _)) as [[m|e1] s1'],
             (fill_value msg1 (log_all s2 _)) as [[m'|e2] s2'];
      cbn [fst snd] in *; simplify_eq; [|done].
    unfold bind, ret.
    destruct (postprocess_loop_same_but_stack (reverse reached) m' _ _ Hs) as [Hr2 Hs2].
    destruct (postprocess_loop (reverse reached) m' s1') as [[[]|e1] s1''],
             (postprocess_loop (reverse reached) m' s2') as [[[]|e2] s2''];
      simpl in *; simplify_eq; done.
  - split; [done|]. by apply same_but_stack_log_all.
Qed.

(** X7. A block cuts a site off from everything entered before it: for a
    message that the block hides, the result of the dispatch and every part
    of the state it leaves (parameter store, traces, generator, log) are
    the same whatever handlers are on the stack outside the block; so
    [sample] behind a block that hides Sample-type messages cannot be
    influenced, replayed or recorded by outer handlers. *)
Theorem block_isolates_from_outer_handlers :
  (forall outer1 outer2 b f inner msg s,
     hcls b = block f -> (forall m, m_type m = m_type msg -> f m = true) ->
     let s1 := set_stack s (outer1 ++ b :: inner) in
     let s2 := set_stack s (outer2 ++ b :: inner) in
     (apply_stack msg s1).1 = (apply_stack msg s2).1 /\
     same_but_stack (apply_stack msg s1).2 (apply_stack msg s2).2) /\
  (forall outer1 outer2 b f inner name d obs s,
     hcls b = block f -> (forall m, is_sample m = true -> f m = true) ->
     let s1 := set_stack s (outer1 ++ b :: inner) in
     let s2 := set_stack s (outer2 ++ b :: inner) in
     (sample name d obs s1).1 = (sample name d obs s2).1 /\
     same_but_stack (sample name d obs s1).2 (sample name d obs s2).2).
Proof.
  split.
  - intros outer1 outer2 b f inner msg s Hb Hf s1 s2.
    by apply (apply_stack_behind_block outer1 outer2 b f inner).
  - intros outer1 outer2 b f inner name d obs s Hb Hf s1 s2.
    rewrite (sample_dispatch name d obs s1) by (simpl; by destruct outer1).
    rewrite (sample_dispatch name d obs s2) by (simpl; by destruct outer2).
    set (msg := Message sample_type name (DistFn d) NoArgs obs false).
    destruct (apply_stack_behind_block outer1 outer2 b f inner msg s1 s2) as [Hr Hs];
      try done.
    { intros m Hm. apply Hf. unfold is_sample. by rewrite Hm. }
    unfold bind.
    destruct (apply_stack msg s1) as [[m1|e1] s1'], (apply_stack msg s2) as [[m2|e2] s2'];
      simpl in *; simplify_eq; try done.
    unfold value_of. by destruct (m_value m2).
Qed.


(** ** The exceptions of a model *)

Lemma py_index_neg_Some {A} (l : list A) (i : Z) :
  i < 0 -> - i <= Z.of_nat (length l) -> is_Some (py_index l i).
Proof.
  intros Hi Hl. unfold py_index.
  assert ((i <? 0) = true) as -> by (apply Z.ltb_lt; lia).
  assert ((Z.of_nat (length l) + i <? 0) = false) as -> by (apply Z.ltb_ge; lia).
  apply lookup_lt_is_Some. lia.
Qed.

Lemma py_setitem_neg_Some {A} (l : list A) (i : Z) (x : A) :
  i < 0 -> - i <= Z.of_nat (length l) -> is_Some (py_setitem l i x).
Proof.
  intros Hi Hl. unfold py_setitem.
  assert ((i <? 0) = true) as -> by (apply Z.ltb_lt; lia).
  assert ((Z.of_nat (length l) + i <? 0) = false) as -> by (apply Z.ltb_ge; lia).
  assert ((Z.of_nat (length l) <=? Z.of_nat (length l) + i) = false) as ->
    by (apply Z.leb_gt; lia).
  by eexists.
Qed.

Lemma proper_split msg :
  proper msg = true -> consistent msg = true /\ well_formed msg = true.
Proof. unfold proper. by intros [? ?]%andb_prop. Qed.

Lemma process_message_proper h msg m :
  process_message h msg = Ok m -> proper m = proper msg.
Proof.
  intros H. unfold proper.
  by rewrite (process_message_consistent _ _ _ H), (process_message_well_formed _ _ _ H).
Qed.

Lemma process_message_raises s h msg e :
  wf_handler s h -> proper msg = true ->
  process_message h msg = Raise e -> e = RuntimeError.
Proof.
  intros Hwf [Hc Hw]%proper_split. unfold process_message, wf_handler in *.
  destruct (hcls h) as [| |guide_trace|hide_fn|size dim]; try done.
  - destruct (od_contains guide_trace (m_name msg)) eqn:Ec; [|done].
    by apply od_contains_get in Ec as [site ->].
  - by destruct (hide_fn msg).
  - destruct (msg_type_eqb (m_type msg) sample_type) eqn:Ety; [|done].
    apply msg_type_eqb_eq in Ety. unfold consistent in Hc. rewrite Ety in Hc.
    destruct (m_fn msg) as [d|]; [|done].
    set (len := Z.of_nat (length (batch_shape d))).
    destruct (len <? - dim) eqn:El.
    + apply Z.ltb_lt in El.
      destruct (py_setitem_neg_Some
                  (replicate (Z.to_nat (- dim - len)) 1 ++ batch_shape d) dim size)
        as [sh ->]; [done| |].
      { rewrite length_app, length_replicate. fold len. lia. }
      destruct (expand d sh); [done|by intros [= <-]].
    + apply Z.ltb_ge in El.
      destruct (py_index_neg_Some (batch_shape d) dim) as [n ->]; [done|done|].
      destruct (negb (n =? size)); [|done].
      destruct (py_setitem_neg_Some
                  (replicate (Z.to_nat (- dim - len)) 1 ++ batch_shape d) dim size)
        as [sh ->]; [done| |].
      { rewrite length_app, length_replicate. fold len. lia. }
      destruct (expand d sh); [done|by intros [= <-]].
Qed.

Lemma pre_phase_proper hs msg m :
  (pre_phase hs msg).2 = Ok m -> proper m = proper msg.
Proof.
  intros H. unfold proper.
  by rewrite (pre_phase_consistent _ _ _ H), (pre_phase_well_formed _ _ _ H).
Qed.

Lemma pre_phase_raises s hs msg e :
  Forall (wf_handler s) hs -> proper msg = true ->
  (pre_phase hs msg).2 = Raise e -> e = RuntimeError.
Proof.
  revert msg. induction hs as [|h hs IH]; intros msg Hwf Hp; simpl; [done|].
  inversion Hwf as [|? ? Hh Hhs]; subst.
  destruct (process_message h msg) as [m|e'] eqn:E.
  - destruct (m_stop m); simpl; [done|]. apply IH; [done|].
    by rewrite (process_message_proper _ _ _ E).
  - simpl. intros [= <-]. by apply (process_message_raises s h msg).
Qed.

Lemma fill_value_raises msg s e :
  proper msg = true -> (fill_value msg s).1 = Raise e -> e = AssertionError.
Proof.
  intros [Hc Hw]%proper_split. unfold fill_value, bind.
  destruct (m_value msg); [done|].
  unfold call_fn, well_formed, draw, param_fn in *.
  destruct (m_fn msg), (m_args msg); try done.
  - by destruct (dist_call d (rng s)).
  - simpl. destruct (PARAM_STORE s !! name) as [[u c']|]; [done|].
    destruct init_value; [done|]. simpl. by intros [= <-].
Qed.

Lemma wf_handler_mono s s' h :
  (forall i, is_Some (traces s !! i) -> is_Some (traces s' !! i)) ->
  wf_handler s h -> wf_handler s' h.
Proof. intros Hm. unfold wf_handler. destruct (hcls h); auto. Qed.

Lemma postprocess_message_keeps_slots h msg : keeps_slots (postprocess_message h msg).
Proof.
  intros s i Hi. unfold postprocess_message.
  destruct (hcls h); try done.
  destruct (traces s !! hid h) as [tr|] eqn:Et; [|done].
  destruct (od_contains tr (m_name msg)); [done|]. simpl.
  destruct (decide (hid h = i)) as [<-|Hne].
  - rewrite lookup_insert_eq. by eexists.
  - by rewrite lookup_insert_ne.
Qed.

Lemma postprocess_message_raises s h msg e :
  wf_handler s h -> (postprocess_message h msg s).1 = Raise e -> e = AssertionError.
Proof.
  unfold wf_handler, postprocess_message. destruct (hcls h); try done.
  intros [tr ->]. destruct (od_contains tr (m_name msg)); [|done].
  simpl. by intros [= <-].
Qed.

Lemma postprocess_loop_raises hs msg s e :
  Forall (wf_handler s) hs ->
  (postprocess_loop hs msg s).1 = Raise e -> e = AssertionError.
Proof.
  revert s. induction hs as [|h hs IH]; intros s Hwf; simpl; [done|].
  inversion Hwf as [|? ? Hh Hhs]; subst. unfold bind.
  pose proof (postprocess_message_raises (log s (EvPostprocess (hid h))) h msg) as Hr.
  pose proof (postprocess_message_keeps_slots h msg (log s (EvPostprocess (hid h)))) as Hk.
  destruct (postprocess_message h msg _) as [[[]|e'] s1]; simpl in *.
  - apply IH. eapply Forall_impl; [exact Hhs|]. intros h' Hh'.
    eapply wf_handler_mono; [|exact Hh']. exact Hk.
  - intros [= <-]. by apply Hr.
Qed.

Lemma postprocess_loop_keeps_slots hs msg : keeps_slots (postprocess_loop hs msg).
Proof.
  induction hs as [|h hs IH]; intros s i Hi; simpl; [done|]. unfold bind.
  pose proof (postprocess_message_keeps_slots h msg (log s (EvPostprocess (hid h))) i Hi)
    as Hk.
  destruct (postprocess_message h msg _) as [[[]|e'] s1]; simpl in *; [|done].
  by apply IH.
Qed.

Lemma apply_stack_keeps_slots msg : keeps_slots (apply_stack msg).
Proof.
  intros s i Hi. unfold apply_stack, bind.
  destruct (process_loop _ _ _ s) as [[[pointer msg1]|e] s1] eqn:E1;
    apply process_loop_frame in E1 as (_ & _ & Ht1 & _); simpl; [|by rewrite Ht1].
  destruct (fill_value msg1 s1) as [[msg2|e] s2] eqn:E2;
    apply fill_value_frame in E2 as (_ & Ht2 & _); [|simpl; by rewrite Ht2, Ht1].
  destruct pointer as [p|]; [|simpl; by rewrite Ht2, Ht1].
  pose proof (postprocess_loop_keeps_slots
                (py_slice_from (PYRO_STACK s2) (- Z.of_nat p - 1)) msg2 s2 i) as Hk.
  destruct (postprocess_loop _ _ s2) as [[[]|e] s3]; simpl in *;
    apply Hk; by rewrite Ht2, Ht1.
Qed.

Lemma apply_stack_raises msg s e :
  PYRO_STACK s <> [] -> wf_stack s -> proper msg = true ->
  (apply_stack msg s).1 = Raise e -> expected e.
Proof.
  intros Hne Hwf Hp. rewrite (apply_stack_unfold msg s Hne).
  destruct (pre_phase_prefix (reverse (PYRO_STACK s)) msg) as [outer Ho].
  pose proof (pre_phase_raises s (reverse (PYRO_STACK s)) msg) as Hpre.
  pose proof (pre_phase_proper (reverse (PYRO_STACK s)) msg) as Hpp.
  destruct (pre_phase (reverse (PYRO_STACK s)) msg) as [reached [msg1|e1]]; simpl in *.
  - specialize (Hpp msg1 eq_refl). rewrite Hp in Hpp.
    set (s1 := log_all s _).
    pose proof (fill_value_raises msg1 s1) as Hf.
    destruct (fill_value msg1 s1) as [[msg2|e2] s2] eqn:Ef; simpl in *.
    + unfold bind.
      pose proof (postprocess_loop_raises (reverse reached) msg2 s2) as Hl.
      destruct (postprocess_loop (reverse reached) msg2 s2) as [[[]|e3] s3];
        simpl in *; [done|].
      intros [= <-]. left. apply Hl; [|done].
      apply fill_value_frame in Ef as (_ & Ht & _).
      apply Forall_reverse.
      assert (Forall (wf_handler s) (reached ++ outer)) as Hall
        by (rewrite <- Ho; by apply Forall_reverse).
      apply Forall_app in Hall as [Hall _].
      eapply Forall_impl; [exact Hall|]. intros h Hh.
      eapply wf_handler_mono; [|exact Hh]. intros i. by rewrite Ht.
    + intros [= <-]. left. by apply Hf.
  - intros [= <-]. right. apply Hpre; [|done|done]. by apply Forall_reverse.
Qed.


Lemma wf_stack_after {A} (m : M A) s :
  balanced m -> keeps_slots m -> wf_stack s -> wf_stack (m s).2.
Proof.
  intros Hb Hk Hwf. unfold wf_stack in *. rewrite Hb.
  eapply Forall_impl; [exact Hwf|]. intros h Hh.
  eapply wf_handler_mono; [|exact Hh]. intros i. apply Hk.
Qed.

Lemma bind_keeps_slots {A B} (m : M A) (k : A -> M B) :
  keeps_slots m -> (forall a, keeps_slots (k a)) -> keeps_slots (bind m k).
Proof.
  intros Hm Hk s i Hi. unfold bind. specialize (Hm s i Hi).
  destruct (m s) as [[a|e] s1]; simpl in *; [by apply Hk|done].
Qed.

Lemma bind_raises {A B} (m : M A) (k : A -> M B) :
  balanced m -> keeps_slots m -> raises_expected m ->
  (forall a, raises_expected (k a)) -> raises_expected (bind m k).
Proof.
  intros Hb Hs Hm Hk s Hwf e. unfold bind.
  pose proof (wf_stack_after m s Hb Hs Hwf) as Hwf1. specialize (Hm s Hwf).
  destruct (m s) as [[a|e'] s1]; simpl in *.
  - by apply Hk.
  - intros [= <-]. by apply Hm.
Qed.

Lemma sample_keeps_slots name d obs : keeps_slots (sample name d obs).
Proof.
  intros s i Hi. unfold sample. destruct (PYRO_STACK s).
  - unfold draw. by destruct (dist_call d (rng s)).
  - apply bind_keeps_slots; [apply apply_stack_keeps_slots| |done].
    intros msg s1 j Hj. unfold value_of. by destruct (m_value msg).
Qed.

Lemma param_keeps_slots name init c : keeps_slots (param name init c).
Proof.
  intros s i Hi. unfold param. destruct (PYRO_STACK s).
  - destruct (param_fn name init c s) as [r s1] eqn:E.
    apply param_fn_frame in E as (_ & Ht & _). simpl. by rewrite Ht.
  - apply bind_keeps_slots; [apply apply_stack_keeps_slots| |done].
    intros msg s1 j Hj. unfold value_of. by destruct (m_value msg).
Qed.

Lemma dispatch_raises msg s e :
  PYRO_STACK s <> [] -> wf_stack s -> proper msg = true ->
  (bind (apply_stack msg) value_of s).1 = Raise e -> expected e.
Proof.
  intros Hne Hwf Hp. unfold bind.
  pose proof (apply_stack_raises msg s e Hne Hwf Hp) as Hr.
  destruct (apply_stack msg s) as [[msg'|e'] s'] eqn:E; simpl in *;
    [|intros [= <-]; by apply Hr].
  apply apply_stack_returns in E as (_ & msg1 & s2 & Hpre & Hf & _).
  apply fill_value_recordable in Hf.
  - unfold value_of, recordable in *. by destruct (m_value msg').
  - rewrite (pre_phase_consistent _ _ _ Hpre). by apply proper_split in Hp as [? _].
Qed.

Lemma sample_raises name d obs : raises_expected (sample name d obs).
Proof.
  intros s Hwf e. unfold sample. destruct (PYRO_STACK s) as [|h st] eqn:Est.
  - unfold draw. by destruct (dist_call d (rng s)).
  - apply dispatch_raises; [by rewrite Est|done|done].
Qed.

Lemma param_raises name init c : raises_expected (param name init c).
Proof.
  intros s Hwf e. unfold param. destruct (PYRO_STACK s) as [|h st] eqn:Est.
  - unfold param_fn. simpl. destruct (PARAM_STORE s !! name) as [[u c']|]; [done|].
    destruct init; [done|]. simpl. intros [= <-]. by left.
  - apply dispatch_raises; [by rewrite Est|done|done].
Qed.

Lemma enter_keeps_slots self : keeps_slots (__enter__ self).
Proof.
  intros s i Hi. unfold __enter__. destruct (hcls self); simpl; try done.
  destruct (decide (hid self = i)) as [<-|Hne].
  - rewrite lookup_insert_eq. by eexists.
  - by rewrite lookup_insert_ne.
Qed.

Lemma exit_keeps_slots self : keeps_slots (__exit__ self).
Proof.
  intros s i Hi. unfold __exit__. destruct (py_index _ _); [|done].
  by destruct (hid h =? hid self)%nat.
Qed.

Lemma with_keeps_slots {A} self (body : M A) :
  keeps_slots body -> keeps_slots (with_ self body).
Proof.
  intros Hb s i Hi. unfold with_.
  pose proof (enter_keeps_slots self s i Hi) as He.
  destruct (__enter__ self s) as [[r|e] s1]; simpl in *; [|done].
  specialize (Hb s1 i He). destruct (body s1) as [[a|e] s2]; simpl in *;
    pose proof (exit_keeps_slots self s2 i Hb) as Hx;
    by destruct (__exit__ self s2) as [[[]|e'] s3].
Qed.

Lemma new_keeps_slots c : keeps_slots (new c).
Proof.
  intros s i Hi. destruct (new c s) as [r s1] eqn:E.
  apply new_spec in E as (_ & Ht & _). simpl. by rewrite Ht.
Qed.

Lemma get_trace_keeps_slots {A} self (fn : M A) :
  keeps_slots fn -> keeps_slots (get_trace self fn).
Proof.
  intros Hf. unfold get_trace, __call__. apply bind_keeps_slots.
  - by apply with_keeps_slots.
  - intros _ s i Hi. by destruct (traces s !! hid self).
Qed.

Lemma run_keeps_slots {A} (p : prog A) : keeps_slots (run p).
Proof.
  induction p as [A a|A name fn obs k IH|A name init c k IH|A B h body IHb k IH
                  |A B body IHb k IH]; simpl.
  - by intros s.
  - apply bind_keeps_slots; [apply sample_keeps_slots|done].
  - apply bind_keeps_slots; [apply param_keeps_slots|done].
  - apply bind_keeps_slots; [apply new_keeps_slots|]. intros self.
    apply bind_keeps_slots; [|done]. by apply with_keeps_slots.
  - apply bind_keeps_slots; [apply new_keeps_slots|]. intros self.
    apply bind_keeps_slots; [|done]. by apply get_trace_keeps_slots.
Qed.

(** A scope around a body that raises only expected exceptions. *)
Lemma with_raises {A} self (body : M A) s e :
  (forall size dim, hcls self = PlateMessenger size dim -> dim < 0) ->
  balanced body -> keeps_slots body -> raises_expected body ->
  wf_stack s -> (with_ self body s).1 = Raise e -> expected e.
Proof.
  intros Hself Hb Hk Hr Hwf. unfold with_.
  destruct (enter_stack self s) as [Hst [r Hr0]].
  assert (wf_stack (__enter__ self s).2) as Hwf1.
  { unfold wf_stack. rewrite Hst. apply Forall_app. split.
    - eapply Forall_impl; [exact Hwf|]. intros h Hh.
      eapply wf_handler_mono; [|exact Hh]. intros i. apply enter_keeps_slots.
    - apply Forall_singleton. unfold wf_handler, __enter__.
      destruct (hcls self) eqn:Ec; simpl; try done.
      + rewrite lookup_insert_eq. by eexists.
      + by eapply Hself. }
  destruct (__enter__ self s) as [r0 s1]. simpl in *. subst r0.
  specialize (Hb s1). specialize (Hr s1 Hwf1).
  destruct (body s1) as [[a|e1] s2]; simpl in *;
    rewrite (exit_top self s2 (PYRO_STACK s)) by congruence; simpl; [done|].
  intros [= <-]. by apply Hr.
Qed.

Lemma new_bind_raises {B} c (k : href -> M B) :
  (forall self, hcls self = c ->
                (forall size dim, c = PlateMessenger size dim -> dim < 0) ->
                raises_expected (k self)) ->
  raises_expected (bind (new c) k).
Proof.
  intros Hk s Hwf e. unfold bind.
  pose proof (wf_stack_after (new c) s (new_balanced c) (new_keeps_slots c) Hwf) as Hwf1.
  destruct (new c s) as [[self|e0] s1] eqn:E; simpl in *.
  - apply Hk; [| |done]; unfold new in E; destruct c; simplify_eq; try done.
    + by destruct (dim <? 0); simplify_eq.
    + destruct (dim <? 0) eqn:Ed; simplify_eq. intros ? ? [= _ <-]. lia.
  - unfold new in E. destruct c; simplify_eq.
    destruct (dim <? 0); simplify_eq. intros [= <-]. by left.
Qed.

Lemma call_raises {A} self (body : M A) :
  (forall size dim, hcls self = PlateMessenger size dim -> dim < 0) ->
  balanced body -> keeps_slots body -> raises_expected body ->
  raises_expected (__call__ self body).
Proof. intros Hself Hb Hk Hr s Hwf e. by apply with_raises. Qed.

Lemma with_trace_slot {A} self (body : M A) s :
  hcls self = trace -> keeps_slots body ->
  is_Some (traces (with_ self body s).2 !! hid self).
Proof.
  intros Hc Hb. unfold with_.
  assert (is_Some (traces (__enter__ self s).2 !! hid self)) as He.
  { unfold __enter__. rewrite Hc. simpl. rewrite lookup_insert_eq. by eexists. }
  destruct (__enter__ self s) as [[r|e] s1]; simpl in *; [|done].
  specialize (Hb s1 _ He). destruct (body s1) as [[a|e] s2]; simpl in *;
    pose proof (exit_keeps_slots self s2 _ Hb) as Hx;
    by destruct (__exit__ self s2) as [[[]|e'] s3].
Qed.

Lemma get_trace_raises {A} self (body : M A) :
  hcls self = trace ->
  balanced body -> keeps_slots body -> raises_expected body ->
  raises_expected (get_trace self body).
Proof.
  intros Hc Hb Hk Hr s Hwf e. unfold get_trace, __call__, bind.
  pose proof (with_raises self body s e) as Hw.
  pose proof (with_trace_slot self body s Hc Hk) as [tr Htr].
  destruct (with_ self body s) as [[a|e1] s1]; simpl in *.
  - by rewrite Htr.
  - intros [= <-]. apply Hw; try done. intros size dim. by rewrite Hc.
Qed.

Lemma run_raises {A} (p : prog A) : raises_expected (run p).
Proof.
  induction p as [A a|A name fn obs k IH|A name init c k IH|A B h body IHb k IH
                  |A B body IHb k IH]; simpl.
  - by intros s Hwf e.
  - apply bind_raises;
      [apply sample_balanced|apply sample_keeps_slots|apply sample_raises|done].
  - apply bind_raises;
      [apply param_balanced|apply param_keeps_slots|apply param_raises|done].
  - apply new_bind_raises. intros self Hc Hdim.
    apply bind_raises; [| | |done].
    + apply with_balanced, run_balanced.
    + apply with_keeps_slots, run_keeps_slots.
    + apply call_raises; [|apply run_balanced|apply run_keeps_slots|done].
      intros size dim E. apply (Hdim size dim). congruence.
  - apply new_bind_raises. intros self Hc Hdim.
    apply bind_raises; [| | |done].
    + apply get_trace_balanced, run_balanced.
    + apply get_trace_keeps_slots, run_keeps_slots.
    + apply get_trace_raises; [done|apply run_balanced|apply run_keeps_slots|done].
Qed.

Lemma elbo_loop_defined op sites acc terms :
  site_terms sites = Some terms -> exists r, elbo_loop op sites acc = Ok r.
Proof.
  revert acc terms. induction sites as [|site rest IH]; intros acc terms; simpl.
  - eauto.
  - unfold is_sample, site_log_prob.
    destruct (msg_type_eqb (m_type site) sample_type); [|apply IH].
    destruct (m_fn site) as [d|]; [|done].
    destruct (m_value site) as [v|]; [|done].
    destruct (site_terms rest) as [l|]; [|done]. intros _. by eapply IH.
Qed.

Lemma guide_run_recordable {B} (guide : prog B) s gt s1 :
  guide_run (run guide) s = (Ok gt, s1) -> all_recordable gt.
Proof.
  intros Hg. unfold guide_run, bind in Hg.
  destruct (new trace s) as [[t1|e] s0] eqn:En; [|done].
  apply new_spec in En as (_ & _ & _ & _ & _ & -> & _).
  apply (get_trace_slot_result all_recordable) in Hg; try done.
  - by apply Forall_nil.
  - apply run_slot; [by apply Forall_nil|apply all_recordable_set].
Qed.

Lemma model_run_recordable {A} (model : prog A) gt s mt s1 :
  model_run (run model) gt s = (Ok mt, s1) -> all_recordable mt.
Proof.
  intros Hm. unfold model_run, bind in Hm.
  destruct (new (replay gt) s) as [[r|e] s0] eqn:Er; [|done].
  destruct (new trace s0) as [[t2|e] s3] eqn:En; [|done].
  apply new_spec in En as (_ & _ & _ & _ & _ & -> & _).
  apply (get_trace_slot_result all_recordable) in Hm; try done.
  - by apply Forall_nil.
  - unfold __call__. apply with_preserves.
    + apply enter_slot. by apply Forall_nil.
    + apply exit_slot.
    + apply run_slot; [by apply Forall_nil|apply all_recordable_set].
Qed.

Lemma guide_run_raises {B} (guide : prog B) : raises_expected (guide_run (run guide)).
Proof.
  unfold guide_run. apply new_bind_raises. intros self Hc _.
  apply get_trace_raises; [done|apply run_balanced|apply run_keeps_slots|apply run_raises].
Qed.

Lemma model_run_raises {A} (model : prog A) gt :
  raises_expected (model_run (run model) gt).
Proof.
  unfold model_run. apply new_bind_raises. intros r Hr _.
  apply new_bind_raises. intros t2 Ht2 _.
  apply get_trace_raises; [done| | |].
  - apply with_balanced, run_balanced.
  - apply with_keeps_slots, run_keeps_slots.
  - apply call_raises; [|apply run_balanced|apply run_keeps_slots|apply run_raises].
    intros size dim. by rewrite Hr.
Qed.

Lemma guide_run_wf {B} (guide : prog B) s :
  wf_stack s -> wf_stack (guide_run (run guide) s).2.
Proof.
  apply wf_stack_after; unfold guide_run.
  - apply bind_balanced; [apply new_balanced|]. intros t.
    apply get_trace_balanced, run_balanced.
  - apply bind_keeps_slots; [apply new_keeps_slots|]. intros t.
    apply get_trace_keeps_slots, run_keeps_slots.
Qed.

(** X8. From a handler stack as the module builds it (every trace handler
    on it entered, every plate built with dim < 0), a model raises only
    AssertionError (a parameter without initial value, a site name
    recorded twice, a plate with dim >= 0) or the RuntimeError of expand:
    never the UnboundLocalError, IndexError, KeyError, TypeError or
    AttributeError that the dispatch code could raise on other inputs.
    The same holds of elbo on a model and a guide. *)
Theorem model_raises_only_expected {A B} (model : prog A) (guide : prog B) s e :
  wf_stack s ->
  ((run model s).1 = Raise e -> e = AssertionError \/ e = RuntimeError) /\
  ((elbo (run model) (run guide) s).1 = Raise e ->
   e = AssertionError \/ e = RuntimeError).
Proof.
  intros Hwf. split; [by apply run_raises|].
  rewrite elbo_unfold. unfold bind at 1.
  pose proof (guide_run_raises guide s Hwf e) as Hg.
  pose proof (guide_run_wf guide s Hwf) as Hwf1.
  destruct (guide_run (run guide) s) as [[gt|e1] s1] eqn:Eg; simpl in *;
    [|intros [= <-]; by apply Hg].
  apply guide_run_recordable in Eg. unfold bind at 1.
  pose proof (model_run_raises model gt s1 Hwf1 e) as Hm.
  destruct (model_run (run model) gt s1) as [[mt|e2] s2] eqn:Em; simpl in *;
    [|intros [= <-]; by apply Hm].
  apply model_run_recordable in Em.
  destruct (site_terms_defined _ Eg) as [b Hb].
  destruct (site_terms_defined _ Em) as [a Ha].
  unfold bind, lift, ret.
  destruct (elbo_loop_defined tadd _ tzero _ Ha) as [r1 ->].
  by destruct (elbo_loop_defined tsub _ r1 _ Hb) as [r2 ->].
Qed.


(** ** [apply_stack] without a handler *)

(** X9. Called with no handler on the stack, [apply_stack] never returns:
    the first loop does not bind [pointer], and the second loop raises
    UnboundLocalError where it reads it.  The descriptor has been called
    by then: a message with its value set leaves the state alone, but a
    Sample-type message without value has drawn from the generator, and a
    Param-type message for a new name has stored its initial value. *)
Theorem apply_stack_without_handlers :
  forall msg s,
    PYRO_STACK s = [] ->
    (forall m, (apply_stack msg s).1 <> Ok m) /\
    (is_Some (m_value msg) -> apply_stack msg s = (Raise UnboundLocalError, s)) /\
    (forall d,
       m_value msg = None -> m_fn msg = DistFn d -> m_args msg = NoArgs ->
       (apply_stack msg s).1 = Raise UnboundLocalError /\
       rng (apply_stack msg s).2 = (dist_call d (rng s)).2) /\
    (forall name init c,
       m_value msg = None -> m_fn msg = ParamFn name ->
       m_args msg = ParamArgs (Some init) c -> PARAM_STORE s !! name = None ->
       (apply_stack msg s).1 = Raise UnboundLocalError /\
       PARAM_STORE (apply_stack msg s).2 !! name =
         Some (transform_to_inv c (detach init), c)).
Proof.
  intros msg s Hst.
  assert (apply_stack msg s =
          match fill_value msg s with
          | (Ok _, s1) => (Raise UnboundLocalError, s1)
          | (Raise e, s1) => (Raise e, s1)
          end) as ->.
  { unfold apply_stack, bind, enumerate. rewrite Hst. simpl.
    by destruct (fill_value msg s) as [[m|e] s1]. }
  split; [|split; [|split]].
  - intros m. by destruct (fill_value msg s) as [[m1|e] s1].
  - intros [v Hv]. unfold fill_value. by rewrite Hv.
  - intros d Hv Hfn Hargs. unfold fill_value, bind, call_fn, draw.
    rewrite Hv, Hfn, Hargs. by destruct (dist_call d (rng s)).
  - intros name init c Hv Hfn Hargs Hnone. unfold fill_value, bind, call_fn, param_fn.
    rewrite Hv, Hfn, Hargs. simpl. rewrite Hnone. simpl.
    by rewrite lookup_insert_eq.
Qed.


(** ** Broadcasting by a plate *)

(** The shape that [PlateMessenger.process_message] hands to [expand]. *)
Lemma plate_shape shape size dim shape2 :
  dim < 0 ->
  py_setitem (replicate (Z.to_nat (- dim - Z.of_nat (length shape))) 1 ++ shape)
             dim size = Some shape2 ->
  Z.of_nat (length shape2) = Z.max (Z.of_nat (length shape)) (- dim) /\
  py_index shape2 dim = Some size /\
  forall j, j < 0 -> j <> dim ->
    py_index shape2 j =
      if - j <=? Z.of_nat (length shape) then py_index shape j
      else if - j <=? - dim then Some 1 else None.
Proof.
  intros Hdim. unfold py_setitem.
  set (k := Z.to_nat (- dim - Z.of_nat (length shape))).
  set (shape1 := replicate k 1 ++ shape).
  assert (length shape1 = (k + length shape)%nat) as Hlen
    by (unfold shape1; by rewrite length_app, length_replicate).
  assert ((dim <? 0) = true) as -> by (apply Z.ltb_lt; lia).
  destruct (_ || _) eqn:Eb; [done|]. intros [= <-].
  apply orb_false_elim in Eb as [E1 E2].
  apply Z.ltb_ge in E1. apply Z.leb_gt in E2.
  rewrite Hlen in *.
  assert (length (<[Z.to_nat (Z.of_nat (k + length shape) + dim) := size]> shape1)
          = (k + length shape)%nat) as Hlen2 by (by rewrite length_insert).
  split; [rewrite Hlen2; lia|]. split.
  - unfold py_index. rewrite Hlen2.
    assert ((dim <? 0) = true) as -> by (apply Z.ltb_lt; lia).
    assert ((Z.of_nat (k + length shape) + dim <? 0) = false) as ->
      by (apply Z.ltb_ge; lia).
    apply list_lookup_insert_eq. lia.
  - intros j Hj Hne. unfold py_index at 1. rewrite Hlen2.
    assert ((j <? 0) = true) as -> by (apply Z.ltb_lt; lia).
    destruct (Z.of_nat (k + length shape) + j <? 0) eqn:Ej.
    + apply Z.ltb_lt in Ej.
      assert ((- j <=? Z.of_nat (length shape)) = false) as -> by (apply Z.leb_gt; lia).
      by assert ((- j <=? - dim) = false) as -> by (apply Z.leb_gt; lia).
    + apply Z.ltb_ge in Ej.
      rewrite list_lookup_insert_ne by lia. unfold shape1.
      destruct (- j <=? Z.of_nat (length shape)) eqn:Ein.
      * apply Z.leb_le in Ein.
        rewrite lookup_app_r by (rewrite length_replicate; lia).
        rewrite length_replicate. unfold py_index.
        assert ((j <? 0) = true) as -> by (apply Z.ltb_lt; lia).
        assert ((Z.of_nat (length shape) + j <? 0) = false) as ->
          by (apply Z.ltb_ge; lia).
        f_equal. lia.
      * apply Z.leb_gt in Ein.
        assert ((- j <=? - dim) = true) as -> by (apply Z.leb_le; lia).
        rewrite lookup_app_l by (rewrite length_replicate; lia).
        apply lookup_replicate_2. lia.
Qed.

(** What the hook of a plate returns for a Sample-type message. *)
Lemma plate_hook_spec :
  forall self size dim msg m1,
    (forall d shape d', expand d shape = Some d' -> batch_shape d' = shape) ->
    hcls self = PlateMessenger size dim -> dim < 0 ->
    m_type msg = sample_type ->
    process_message self msg = Ok m1 ->
    exists d d1,
      m_fn msg = DistFn d /\ m1 = set_fn msg (DistFn d1) /\
      Z.of_nat (length (batch_shape d1)) =
        Z.max (Z.of_nat (length (batch_shape d))) (- dim) /\
      py_index (batch_shape d1) dim = Some size /\
      (forall j, j < 0 -> j <> dim ->
         py_index (batch_shape d1) j =
           if - j <=? Z.of_nat (length (batch_shape d)) then py_index (batch_shape d) j
           else if - j <=? - dim then Some 1 else None) /\
      process_message self m1 = Ok m1.
Proof.
  intros self size dim msg m1 Hexp Hc Hdim Hty.
  assert (forall d1 m,
            m_type m = sample_type -> m_fn m = DistFn d1 ->
            - dim <= Z.of_nat (length (batch_shape d1)) ->
            py_index (batch_shape d1) dim = Some size ->
            process_message self m = Ok m) as Hfix.
  { intros d1 m Hm Hfn Hlen Hidx. unfold process_message.
    rewrite Hc, Hm, Hfn. simpl.
    assert ((Z.of_nat (length (batch_shape d1)) <? - dim) = false) as ->
      by (apply Z.ltb_ge; lia).
    rewrite Hidx. by rewrite Z.eqb_refl. }
  intros H. unfold process_message in H. rewrite Hc, Hty in H. simpl in H.
  revert H. destruct (m_fn msg) as [d|] eqn:Efn; [|done].
  set (len := Z.of_nat (length (batch_shape d))).
  match goal with
  | |- _ -> ?G =>
      assert ((exists d1, m1 = set_fn msg (DistFn d1) /\
                 - dim <= Z.of_nat (length (batch_shape d1)) /\
                 Z.of_nat (length (batch_shape d1)) = Z.max len (- dim) /\
                 py_index (batch_shape d1) dim = Some size /\
                 (forall j, j < 0 -> j <> dim ->
                    py_index (batch_shape d1) j =
                      if - j <=? len then py_index (batch_shape d) j
                      else if - j <=? - dim then Some 1 else None)) -> G) as Hgoal
  end.
  { intros (d1 & -> & Hge & Hlen & Hidx & Hother).
    exists d, d1. split; [done|]. split; [done|]. split; [done|]. split; [done|].
    split; [done|]. by apply (Hfix d1). }
  assert (forall shape2 d',
            py_setitem (replicate (Z.to_nat (- dim - len)) 1 ++ batch_shape d) dim size
              = Some shape2 ->
            expand d shape2 = Some d' ->
            exists d1, set_fn msg (DistFn d') = set_fn msg (DistFn d1) /\
              - dim <= Z.of_nat (length (batch_shape d1)) /\
              Z.of_nat (length (batch_shape d1)) = Z.max len (- dim) /\
              py_index (batch_shape d1) dim = Some size /\
              (forall j, j < 0 -> j <> dim ->
                 py_index (batch_shape d1) j =
                   if - j <=? len then py_index (batch_shape d) j
                   else if - j <=? - dim then Some 1 else None)) as Hexpand.
  { intros shape2 d' Hset He. exists d'.
    apply Hexp in He. rewrite He.
    destruct (plate_shape _ _ _ _ Hdim Hset) as (Hl & Hi & Ho).
    fold len in Hl, Ho. split; [done|]. split; [lia|]. done. }
  destruct (len <? - dim) eqn:El.
  - destruct (py_setitem _ dim size) as [shape2|] eqn:Eset; [|done].
    destruct (expand d shape2) as [d'|] eqn:Ee; [|done].
    intros [= <-]. apply Hgoal. by eapply Hexpand.
  - apply Z.ltb_ge in El.
    destruct (py_index (batch_shape d) dim) as [n|] eqn:Ei; [|done].
    destruct (n =? size) eqn:En; simpl.
    + apply Z.eqb_eq in En. subst n. intros [= <-]. apply Hgoal. exists d.
      split. { destruct msg. simpl in *. by subst. }
      split; [done|]. fold len. split; [lia|]. split; [done|].
      intros j Hj Hne. destruct (- j <=? len) eqn:Ej; [done|].
      apply Z.leb_gt in Ej.
      assert ((- j <=? - dim) = false) as -> by (apply Z.leb_gt; lia).
      unfold py_index.
      assert ((j <? 0) = true) as -> by (apply Z.ltb_lt; lia).
      fold len. by assert ((len + j <? 0) = true) as -> by (apply Z.ltb_lt; lia).
    + destruct (py_setitem _ dim size) as [shape2|] eqn:Eset; [|done].
      destruct (expand d shape2) as [d'|] eqn:Ee; [|done].
      intros [= <-]. apply Hgoal. by eapply Hexpand.
Qed.

(** X10. Under the contract of [expand] (the distribution it returns has
    the batch shape it was given), what a plate of [size] at [dim < 0]
    returns for a Sample-type message is the message with a distribution
    whose batch shape has [size] at [dim], has [max(len, -dim)] dimensions,
    and agrees with the old shape at every other position counted from the
    right, new positions holding 1.  Nothing else in the message changes,
    and a second pass of the same plate changes nothing.  A Param-type
    message passes the plate as it is. *)
Theorem plate_broadcasts :
  (forall self size dim msg m1,
     (forall d shape d', expand d shape = Some d' -> batch_shape d' = shape) ->
     hcls self = PlateMessenger size dim -> dim < 0 ->
     m_type msg = sample_type ->
     process_message self msg = Ok m1 ->
     exists d d1,
       m_fn msg = DistFn d /\ m1 = set_fn msg (DistFn d1) /\
       Z.of_nat (length (batch_shape d1)) =
         Z.max (Z.of_nat (length (batch_shape d))) (- dim) /\
       py_index (batch_shape d1) dim = Some size /\
       (forall j, j < 0 -> j <> dim ->
          py_index (batch_shape d1) j =
            if - j <=? Z.of_nat (length (batch_shape d)) then py_index (batch_shape d) j
            else if - j <=? - dim then Some 1 else None) /\
       process_message self m1 = Ok m1) /\
  (forall self size dim msg,
     hcls self = PlateMessenger size dim -> m_type msg = param_type ->
     process_message self msg = Ok msg).
Proof.
  split; [exact plate_hook_spec|].
  intros self size dim msg Hc Hty. unfold process_message. by rewrite Hc, Hty.
Qed.

(** Two lists of the same length that agree at every index counted from
    the right are equal. *)
Lemma py_index_ext (l1 l2 : list Z) :
  length l1 = length l2 ->
  (forall j, j < 0 -> py_index l1 j = py_index l2 j) -> l1 = l2.
Proof.
  intros Hlen H. apply list_eq. intros i.
  destruct (decide (i < length l1)%nat) as [Hi|Hi].
  - specialize (H (Z.of_nat i - Z.of_nat (length l1)) ltac:(lia)).
    unfold py_index in H. rewrite <- Hlen in H.
    assert ((Z.of_nat i - Z.of_nat (length l1) <? 0) = true) as E1
      by (apply Z.ltb_lt; lia).
    assert ((Z.of_nat (length l1) + (Z.of_nat i - Z.of_nat (length l1)) <? 0) = false)
      as E2 by (apply Z.ltb_ge; lia).
    rewrite E1, E2 in H.
    by replace (Z.to_nat (Z.of_nat (length l1) + (Z.of_nat i - Z.of_nat (length l1))))
      with i in H by lia.
  - rewrite !lookup_ge_None_2 by lia. done.
Qed.

(** X14. Nested plates commute on the batch shape: for two plates at
    different dims, under the contract of [expand], the distribution that
    a Sample-type message has after both hooks has the same batch shape
    in either order, with each plate's size at its dim. *)
Theorem plates_commute :
  forall p1 p2 size1 dim1 size2 dim2 msg m1 m12 m2 m21,
    (forall d shape d', expand d shape = Some d' -> batch_shape d' = shape) ->
    hcls p1 = PlateMessenger size1 dim1 -> hcls p2 = PlateMessenger size2 dim2 ->
    dim1 < 0 -> dim2 < 0 -> dim1 <> dim2 ->
    m_type msg = sample_type ->
    process_message p1 msg = Ok m1 -> process_message p2 m1 = Ok m12 ->
    process_message p2 msg = Ok m2 -> process_message p1 m2 = Ok m21 ->
    exists d12 d21,
      m_fn m12 = DistFn d12 /\ m_fn m21 = DistFn d21 /\
      batch_shape d12 = batch_shape d21 /\
      py_index (batch_shape d12) dim1 = Some size1 /\
      py_index (batch_shape d12) dim2 = Some size2.
Proof.
  intros p1 p2 size1 dim1 size2 dim2 msg m1 m12 m2 m21 Hexp Hp1 Hp2 Hd1 Hd2 Hne Hty
         H1 H12 H2 H21.
  destruct (plate_hook_spec p1 size1 dim1 msg m1 Hexp Hp1 Hd1 Hty H1)
    as (d & d1 & Hfn & -> & Hl1 & Hi1 & Ho1 & _).
  destruct (plate_hook_spec p2 size2 dim2 (set_fn msg (DistFn d1)) m12 Hexp Hp2 Hd2 Hty H12)
    as (d1' & d12 & Hfn1 & -> & Hl12 & Hi12 & Ho12 & _).
  simpl in Hfn1. injection Hfn1 as <-.
  destruct (plate_hook_spec p2 size2 dim2 msg m2 Hexp Hp2 Hd2 Hty H2)
    as (d' & d2 & Hfn' & -> & Hl2 & Hi2 & Ho2 & _).
  rewrite Hfn in Hfn'. injection Hfn' as <-.
  destruct (plate_hook_spec p1 size1 dim1 (set_fn msg (DistFn d2)) m21 Hexp Hp1 Hd1 Hty H21)
    as (d2' & d21 & Hfn2 & -> & Hl21 & Hi21 & Ho21 & _).
  simpl in Hfn2. injection Hfn2 as <-.
  set (n := Z.of_nat (length (batch_shape d))) in *.
  assert (py_index (batch_shape d12) dim1 = Some size1) as Hat1.
  { rewrite (Ho12 dim1) by done.
    assert ((- dim1 <=? Z.of_nat (length (batch_shape d1))) = true) as ->
      by (apply Z.leb_le; lia).
    done. }
  assert (py_index (batch_shape d21) dim2 = Some size2) as Hat2.
  { rewrite (Ho21 dim2) by done.
    assert ((- dim2 <=? Z.of_nat (length (batch_shape d2))) = true) as ->
      by (apply Z.leb_le; lia).
    done. }
  exists d12, d21. split; [done|]. split; [done|]. split; [|done].
  apply py_index_ext; [lia|]. intros j Hj.
  destruct (decide (j = dim1)) as [->|Hj1]; [by rewrite Hat1, Hi21|].
  destruct (decide (j = dim2)) as [->|Hj2]; [by rewrite Hat2, Hi12|].
  rewrite (Ho12 j), (Ho21 j) by done.
  rewrite Hl1, Hl2, (Ho1 j), (Ho2 j) by done. fold n.
  destruct (- j <=? n) eqn:En.
  - apply Z.leb_le in En.
    assert ((- j <=? Z.max n (- dim1)) = true) as -> by (apply Z.leb_le; lia).
    by assert ((- j <=? Z.max n (- dim2)) = true) as -> by (apply Z.leb_le; lia).
  - apply Z.leb_gt in En.
    destruct (- j <=? - dim1) eqn:E1; destruct (- j <=? - dim2) eqn:E2;
      rewrite ?Z.leb_le, ?Z.leb_gt in E1, E2.
    + assert ((- j <=? Z.max n (- dim1)) = true) as -> by (apply Z.leb_le; lia).
      by assert ((- j <=? Z.max n (- dim2)) = true) as -> by (apply Z.leb_le; lia).
    + assert ((- j <=? Z.max n (- dim1)) = true) as -> by (apply Z.leb_le; lia).
      by assert ((- j <=? Z.max n (- dim2)) = false) as -> by (apply Z.leb_gt; lia).
    + assert ((- j <=? Z.max n (- dim1)) = false) as -> by (apply Z.leb_gt; lia).
      by assert ((- j <=? Z.max n (- dim2)) = true) as -> by (apply Z.leb_le; lia).
    + assert ((- j <=? Z.max n (- dim1)) = false) as -> by (apply Z.leb_gt; lia).
      by assert ((- j <=? Z.max n (- dim2)) = false) as -> by (apply Z.leb_gt; lia).
Qed.


(** ** What the scope of [SVI.step] captures *)

Lemma param_sites_snoc tr name msg :
  param_sites (tr ++ [(name, msg)]) =
    param_sites tr ++ (if is_sample msg then [] else [msg]).
Proof.
  unfold param_sites, od_values. rewrite fmap_app, filter_app. f_equal.
  simpl. rewrite filter_cons, filter_nil. simpl.
  destruct (is_sample msg); by case_decide.
Qed.

Lemma pre_phase_app_cases l1 l2 msg :
  pre_phase (l1 ++ l2) msg = pre_phase l1 msg \/
  exists m1,
    pre_phase l1 msg = (l1, Ok m1) /\ (m1 = msg \/ m_stop m1 = false) /\
    pre_phase (l1 ++ l2) msg = (l1 ++ (pre_phase l2 m1).1, (pre_phase l2 m1).2).
Proof.
  revert msg. induction l1 as [|h l1 IH]; intros msg; simpl.
  - right. exists msg. split; [done|]. split; [by left|]. by destruct (pre_phase l2 msg).
  - destruct (process_message h msg) as [m|e]; [|by left].
    destruct (m_stop m) eqn:Es; [by left|].
    destruct (IH m) as [->|(m1 & -> & Hm1 & ->)]; [by left|].
    right. exists m1. split; [done|]. split; [|done].
    right. by destruct Hm1 as [->|].
Qed.

Lemma postprocess_loop_cons_ok h hs msg s s' :
  postprocess_loop (h :: hs) msg s = (Ok tt, s') ->
  exists s1,
    postprocess_message h msg (log s (EvPostprocess (hid h))) = (Ok tt, s1) /\
    postprocess_loop hs msg s1 = (Ok tt, s').
Proof.
  simpl. unfold bind.
  destruct (postprocess_message h msg _) as [[[]|e] s1]; [|done]. eauto.
Qed.

Lemma postprocess_loop_app_ok l1 l2 msg s s' :
  postprocess_loop (l1 ++ l2) msg s = (Ok tt, s') ->
  exists s1,
    postprocess_loop l1 msg s = (Ok tt, s1) /\ postprocess_loop l2 msg s1 = (Ok tt, s').
Proof.
  rewrite postprocess_loop_app. unfold bind.
  destruct (postprocess_loop l1 msg s) as [[[]|e] s1]; [|done]. eauto.
Qed.

Lemma postprocess_message_other h msg s r s1 i :
  hid h <> i -> postprocess_message h msg s = (r, s1) -> traces s1 !! i = traces s !! i.
Proof.
  intros Hne. unfold postprocess_message. destruct (hcls h); try by intros [= _ <-].
  destruct (traces s !! hid h) as [tr|]; [|by intros [= _ <-]].
  destruct (od_contains tr (m_name msg)); intros [= _ <-]; [done|].
  simpl. by rewrite lookup_insert_ne.
Qed.

Lemma postprocess_loop_other hs msg s r s1 i :
  Forall (fun x => hid x <> i) hs ->
  postprocess_loop hs msg s = (r, s1) -> traces s1 !! i = traces s !! i.
Proof.
  revert s. induction hs as [|h hs IH]; intros s Hall; simpl.
  - by intros [= _ <-].
  - inversion Hall as [|? ? Hh Hhs]; subst. unfold bind.
    destruct (postprocess_message h msg _) as [[[]|e] s0] eqn:E;
      apply (postprocess_message_other _ _ _ _ _ i Hh) in E; simpl in E.
    + intros H. apply IH in H; [|done]. congruence.
    + intros [= _ <-]. done.
Qed.

Lemma postprocess_message_trace_ok h msg s s1 tr :
  hcls h = trace -> traces s !! hid h = Some tr ->
  postprocess_message h msg s = (Ok tt, s1) ->
  traces s1 = <[hid h := tr ++ [(m_name msg, msg)]]> (traces s).
Proof.
  intros Hc Htr. destruct (od_contains tr (m_name msg)) eqn:Ec.
  - by rewrite (postprocess_message_duplicate h msg s tr).
  - rewrite (postprocess_message_record h msg s tr) by done. by intros [= <-].
Qed.

Lemma postprocess_message_block b f msg s :
  hcls b = block f -> postprocess_message b msg s = (Ok tt, s).
Proof. intros Hc. unfold postprocess_message. by rewrite Hc. Qed.

(** One dispatch under the capture. *)
Lemma apply_stack_captured tc t base msg s msg' s' :
  under_capture tc t (PYRO_STACK s) -> m_stop msg = false ->
  captured tc t base s ->
  apply_stack msg s = (Ok msg', s') -> captured tc t base s'.
Proof.
  intros (pre & c & b & h & inner & Hst & Hc & Hcc & Hb & Hh & Hhc & Hall) Hstop
         (Hne & Hn1 & Hn2 & trc & trt & Htc & Ht & Hps) H.
  pose proof H as Hframe. apply apply_stack_frame in Hframe as [_ Hnext].
  apply apply_stack_returns in H as (_ & msg1 & s2 & Hpre & Hf & Hp).
  pose proof Hf as Hty. apply fill_value_type in Hty.
  apply fill_value_frame in Hf as (_ & Htr2 & _). simpl in Htr2.
  apply Forall_app in Hall as [Hpre_ids Hinner_ids].
  assert (reverse (PYRO_STACK s) = reverse inner ++ [h; b; c] ++ reverse pre) as Hrev.
  { rewrite Hst, !reverse_app. simpl. by rewrite <- app_assoc. }
  rewrite Hrev in Hpre, Hp.
  split; [done|]. rewrite Hnext. split; [done|]. split; [done|].
  destruct (pre_phase_app_cases (reverse inner) ([h; b; c] ++ reverse pre) msg)
    as [Heq|(m1 & Hm1 & Hs1 & Heq)]; rewrite Heq in Hpre, Hp.
  - (* the pre-phase ends among the handlers entered after [t] *)
    destruct (pre_phase_prefix (reverse inner) msg) as [rest Hrest].
    assert (Forall (fun x => hid x <> tc /\ hid x <> t)
                   (reverse (pre_phase (reverse inner) msg).1)) as Hids.
    { apply Forall_reverse.
      assert (Forall (fun x => hid x <> tc /\ hid x <> t) (reverse inner)) as Hri
        by (by apply Forall_reverse).
      rewrite Hrest in Hri. by apply Forall_app in Hri as [? _]. }
    exists trc, trt.
    rewrite (postprocess_loop_other _ _ _ _ _ tc
               ltac:(eapply Forall_impl; [exact Hids|]; by intros ? [? ?]) Hp).
    rewrite (postprocess_loop_other _ _ _ _ _ t
               ltac:(eapply Forall_impl; [exact Hids|]; by intros ? [? ?]) Hp).
    by rewrite Htr2.
  - assert (m_stop m1 = false) as Hstop1 by (destruct Hs1; congruence).
    assert (m_type m1 = m_type msg) as Hty1.
    { apply (pre_phase_type (reverse inner)). by rewrite Hm1. }
    assert (Forall (fun x => hid x <> tc) inner /\ Forall (fun x => hid x <> t) inner)
      as [Hin_c Hin_t].
    { split; (eapply Forall_impl; [exact Hinner_ids|]); by intros ? [? ?]. }
    assert (pre_phase ([h; b; c] ++ reverse pre) m1 =
            if is_sample m1 then ([h; b], Ok (set_stop m1 true))
            else (h :: b :: c :: (pre_phase (reverse pre) m1).1,
                  (pre_phase (reverse pre) m1).2)) as Hcomp.
    { cbn [app pre_phase]. unfold process_message. rewrite Hhc, Hb, Hcc, Hstop1.
      destruct (is_sample m1); simpl; rewrite ?Hstop1; [done|].
      by destruct (pre_phase (reverse pre) m1). }
    rewrite Hcomp in Hpre, Hp. clear Hcomp.
    destruct (is_sample m1) eqn:Esample; cbn [fst snd] in Hpre, Hp.
    + (* a Sample-type message stops at the block *)
      injection Hpre as <-.
      assert (is_sample msg' = true) as Hs'.
      { unfold is_sample in *. by rewrite Hty. }
      rewrite reverse_app, reverse_involutive in Hp.
      change (reverse [h; b]) with [b; h] in Hp.
      change ([b; h] ++ inner) with (b :: h :: inner) in Hp.
      apply postprocess_loop_cons_ok in Hp as (s3 & Hp1 & Hp).
      rewrite (postprocess_message_block b is_sample) in Hp1 by done.
      injection Hp1 as <-.
      apply postprocess_loop_cons_ok in Hp as (s4 & Hp2 & Hp).
      apply (postprocess_message_trace_ok h _ _ _ trt) in Hp2;
        [|done|simpl; by rewrite Htr2, Hh].
      simpl in Hp2.
      exists trc, (trt ++ [(m_name msg', msg')]).
      rewrite (postprocess_loop_other _ _ _ _ _ tc Hin_c Hp).
      rewrite (postprocess_loop_other _ _ _ _ _ t Hin_t Hp).
      rewrite Hp2, Hh, lookup_insert_eq, lookup_insert_ne by done.
      rewrite Htr2. split; [done|]. split; [done|].
      rewrite param_sites_snoc, Hs', app_nil_r. done.
    + (* a Param-type message reaches the capturing handler *)
      assert (is_sample msg' = false) as Hs'.
      { unfold is_sample in *. rewrite Hty.
        apply pre_phase_type in Hpre as (-> & _). done. }
      destruct (pre_phase_prefix (reverse pre) m1) as [rest Hrest].
      set (r' := (pre_phase (reverse pre) m1).1) in *.
      assert (Forall (fun x => hid x <> tc /\ hid x <> t) (reverse r')) as Hids.
      { apply Forall_reverse.
        assert (Forall (fun x => hid x <> tc /\ hid x <> t) (reverse pre)) as Hri
          by (by apply Forall_reverse).
        rewrite Hrest in Hri. by apply Forall_app in Hri as [? _]. }
      replace (reverse (reverse inner ++ h :: b :: c :: r'))
        with (reverse r' ++ [c; b; h] ++ inner) in Hp.
      2: { rewrite reverse_app, reverse_involutive.
           change (h :: b :: c :: r') with ([h; b; c] ++ r').
           rewrite reverse_app. change (reverse [h; b; c]) with [c; b; h].
           by rewrite <- !app_assoc. }
      apply postprocess_loop_app_ok in Hp as (s3 & Hp0 & Hp).
      change ([c; b; h] ++ inner) with (c :: b :: h :: inner) in Hp.
      apply postprocess_loop_cons_ok in Hp as (s4 & Hp1 & Hp).
      apply postprocess_loop_cons_ok in Hp as (s5 & Hp2 & Hp).
      rewrite (postprocess_message_block b is_sample) in Hp2 by done.
      injection Hp2 as <-.
      apply postprocess_loop_cons_ok in Hp as (s6 & Hp3 & Hp).
      assert (traces s3 !! tc = Some trc /\ traces s3 !! t = Some trt) as [Htc3 Ht3].
      { rewrite (postprocess_loop_other _ _ _ _ _ tc
                   ltac:(eapply Forall_impl; [exact Hids|]; by intros ? [? ?]) Hp0).
        rewrite (postprocess_loop_other _ _ _ _ _ t
                   ltac:(eapply Forall_impl; [exact Hids|]; by intros ? [? ?]) Hp0).
        by rewrite Htr2. }
      apply (postprocess_message_trace_ok c _ _ _ trc) in Hp1;
        [|done|simpl; by rewrite Hc].
      simpl in Hp1.
      apply (postprocess_message_trace_ok h _ _ _ trt) in Hp3;
        [|done|simpl; by rewrite Hp1, Hc, Hh, lookup_insert_ne].
      simpl in Hp3.
      exists (trc ++ [(m_name msg', msg')]), (trt ++ [(m_name msg', msg')]).
      rewrite (postprocess_loop_other _ _ _ _ _ tc Hin_c Hp).
      rewrite (postprocess_loop_other _ _ _ _ _ t Hin_t Hp).
      rewrite Hp3, Hp1, Hc, Hh.
      rewrite lookup_insert_eq, lookup_insert_ne, lookup_insert_eq by done.
      split; [done|]. split; [done|].
      rewrite !param_sites_snoc, Hs', Hps. by rewrite <- app_assoc.
Qed.


Lemma under_capture_nonempty tc t st : under_capture tc t st -> st <> [].
Proof. intros (pre & c & b & h & inner & -> & _). by destruct pre. Qed.

Lemma under_capture_snoc tc t st self :
  under_capture tc t st -> hid self <> tc -> hid self <> t ->
  under_capture tc t (st ++ [self]).
Proof.
  intros (pre & c & b & h & inner & -> & Hc & Hcc & Hb & Hh & Hhc & Hall) H1 H2.
  exists pre, c, b, h, (inner ++ [self]).
  split; [by rewrite <- !app_assoc|]. repeat (split; [done|]).
  rewrite app_assoc. apply Forall_app. split; [done|]. by apply Forall_singleton.
Qed.

Lemma bind_pairs {A B} tc t base (m : M A) (k : A -> M B) :
  balanced m -> pairs tc t base m -> (forall a, pairs tc t base (k a)) ->
  pairs tc t base (bind m k).
Proof.
  intros Hb Hm Hk s b s' Hu Hc. unfold bind. specialize (Hb s).
  destruct (m s) as [[a|e] s1] eqn:E; [|done]. simpl in Hb.
  intros H. eapply Hk; [|eapply Hm; [| |exact E]; done|exact H]. by rewrite Hb.
Qed.

Lemma dispatch_pairs tc t base msg :
  m_stop msg = false -> pairs tc t base (bind (apply_stack msg) value_of).
Proof.
  intros Hstop s v s' Hu Hc. unfold bind.
  destruct (apply_stack msg s) as [[msg'|e] s1] eqn:E; [|done].
  intros H. apply value_of_frame in H as ->.
  by eapply apply_stack_captured.
Qed.

Lemma sample_pairs tc t base name d obs : pairs tc t base (sample name d obs).
Proof.
  intros s v s' Hu Hc. rewrite sample_dispatch by (by eapply under_capture_nonempty).
  by apply dispatch_pairs.
Qed.

Lemma param_pairs tc t base name init c : pairs tc t base (param name init c).
Proof.
  intros s v s' Hu Hc. rewrite param_dispatch by (by eapply under_capture_nonempty).
  by apply dispatch_pairs.
Qed.

Lemma new_bind_pairs {B} tc t base c (k : href -> M B) :
  (forall self, (tc < hid self)%nat -> (t < hid self)%nat -> pairs tc t base (k self)) ->
  pairs tc t base (bind (new c) k).
Proof.
  intros Hk s a s' Hu (Hne & Hn1 & Hn2 & trc & trt & Htc & Ht & Hps). unfold bind.
  destruct (new c s) as [[self|e] s1] eqn:E;
    apply new_spec in E as (Est & Etr & _ & _ & _ & E); [|done].
  destruct E as [-> En]. intros H.
  apply (Hk (Href (next_id s) c) Hn1 Hn2 s1 a s'); [| |exact H].
  - by rewrite Est.
  - split; [done|]. rewrite En. split; [lia|]. split; [lia|].
    exists trc, trt. by rewrite Etr.
Qed.

Lemma with_pairs {A} tc t base self (body : M A) :
  hid self <> tc -> hid self <> t -> balanced body ->
  pairs tc t base body -> pairs tc t base (with_ self body).
Proof.
  intros H1 H2 Hb Hp s a s' Hu Hcap. unfold with_.
  destruct (enter_stack self s) as [Hst [r Hr]].
  assert (captured tc t base (__enter__ self s).2) as Hcap1.
  { destruct Hcap as (Hne & Hn1 & Hn2 & trc & trt & Htc & Ht & Hps).
    split; [done|]. split.
    { unfold __enter__. by destruct (hcls self). }
    split.
    { unfold __enter__. by destruct (hcls self). }
    exists trc, trt. unfold __enter__.
    destruct (hcls self); simpl; rewrite ?lookup_insert_ne by done; done. }
  destruct (__enter__ self s) as [r0 s1]. simpl in *. subst r0.
  specialize (Hb s1).
  destruct (body s1) as [[x|e] s2] eqn:Eb; simpl in Hb;
    rewrite (exit_top self s2 (PYRO_STACK s)) by congruence; [|done].
  intros [= <- <-].
  assert (captured tc t base s2) as Hcap2.
  { eapply Hp; [|exact Hcap1|exact Eb]. rewrite Hst. by apply under_capture_snoc. }
  exact Hcap2.
Qed.

Lemma get_trace_pairs {A} tc t base self (fn : M A) :
  hid self <> tc -> hid self <> t -> balanced fn ->
  pairs tc t base fn -> pairs tc t base (get_trace self fn).
Proof.
  intros H1 H2 Hb Hp. unfold get_trace, __call__. apply bind_pairs.
  - by apply with_balanced.
  - by apply with_pairs.
  - intros _ s a s' _ Hc. destruct (traces s !! hid self); by intros [= _ <-].
Qed.

Lemma run_pairs {A} tc t base (p : prog A) : pairs tc t base (run p).
Proof.
  induction p as [A a|A name fn obs k IH|A name init c k IH|A B h body IHb k IH
                  |A B body IHb k IH]; simpl.
  - intros s a' s' _ Hc. by intros [= _ <-].
  - apply bind_pairs; [apply sample_balanced|apply sample_pairs|done].
  - apply bind_pairs; [apply param_balanced|apply param_pairs|done].
  - apply new_bind_pairs. intros self Hlt1 Hlt2.
    apply bind_pairs; [|apply with_pairs|done].
    + apply with_balanced, run_balanced.
    + lia.
    + lia.
    + apply run_balanced.
    + done.
  - apply new_bind_pairs. intros self Hlt1 Hlt2.
    apply bind_pairs; [|apply get_trace_pairs|done].
    + apply get_trace_balanced, run_balanced.
    + lia.
    + lia.
    + apply run_balanced.
    + done.
Qed.

(** A traced run directly under the capture: what the capturing trace
    gains are the Param-type sites of the trace that the run returns. *)
Lemma get_trace_captured {A} pre c b t (body : M A) s trc tr s' :
  PYRO_STACK s = pre ++ [c; b] ->
  hcls c = trace -> hcls b = block is_sample -> hcls t = trace ->
  Forall (fun x => hid x <> hid c /\ hid x <> hid t) pre ->
  hid c <> hid t -> (hid c < next_id s)%nat -> (hid t < next_id s)%nat ->
  traces s !! hid c = Some trc ->
  balanced body -> pairs (hid c) (hid t) (param_sites trc) body ->
  get_trace t body s = (Ok tr, s') ->
  PYRO_STACK s' = PYRO_STACK s /\ (hid c < next_id s')%nat /\
  exists trc', traces s' !! hid c = Some trc' /\
               param_sites trc' = param_sites trc ++ param_sites tr.
Proof.
  intros Hst Hc Hb Ht Hall Hne Hn1 Hn2 Htc Hbal Hp H.
  pose proof (get_trace_balanced t body Hbal s) as Hstack. rewrite H in Hstack.
  split; [done|].
  unfold get_trace, __call__, bind, with_ in H.
  assert (__enter__ t s =
          (Ok (Some []), set_traces (set_stack s (PYRO_STACK s ++ [t]))
                           (<[hid t := []]> (traces s)))) as Hent
    by (unfold __enter__; by rewrite Ht).
  rewrite Hent in H. set (s1 := set_traces _ _) in H.
  assert (captured (hid c) (hid t) (param_sites trc) s1) as Hcap1.
  { split; [done|]. split; [done|]. split; [done|]. exists trc, [].
    unfold s1. simpl. rewrite lookup_insert_ne, lookup_insert_eq by done.
    split; [done|]. split; [done|]. by rewrite app_nil_r. }
  assert (under_capture (hid c) (hid t) (PYRO_STACK s1)) as Hu1.
  { exists pre, c, b, t, []. unfold s1. simpl. rewrite Hst, <- app_assoc.
    rewrite app_nil_r. by repeat (split; [done|]). }
  pose proof (Hbal s1) as Hst2.
  destruct (body s1) as [[a|e] s2] eqn:Eb; simpl in Hst2;
    rewrite (exit_top t s2 (PYRO_STACK s)) in H by (by rewrite Hst2); [|done].
  apply (Hp s1 a s2 Hu1 Hcap1) in Eb as (_ & Hn1' & _ & trc' & trt' & Htc' & Ht' & Hps).
  simpl in H. unfold OrderedDict in *. rewrite Ht' in H. injection H as <- <-.
  split; [done|]. by exists trc'.
Qed.


Lemma capture_scope_returns {A} (loss : M A) s l sites s' :
  balanced loss ->
  capture_scope loss s = (Ok (l, sites), s') ->
  exists s4 param_capture,
    loss (in_capture s) = (Ok l, s4) /\
    traces s4 !! next_id s = Some param_capture /\ sites = od_values param_capture.
Proof.
  intros Hbal H. unfold capture_scope, bind at 1 in H.
  change (new trace s) with (Ok (Href (next_id s) trace), set_next_id s (S (next_id s)))
    in H.
  cbv beta iota in H.
  set (tc := Href (next_id s) trace) in *. set (s0 := set_next_id s _) in *.
  unfold bind at 1 in H.
  destruct (with_ tc _ s0) as [[l0|e] s5] eqn:Ew; [|done].
  destruct (traces s5 !! hid tc) as [pc|] eqn:Et; [|done]. injection H as <- <- <-.
  unfold with_ at 1 in Ew.
  change (__enter__ tc s0)
    with (Ok (Some (@nil (string * message))),
          set_traces (set_stack s0 (PYRO_STACK s ++ [tc])) (<[next_id s := []]> (traces s)))
    in Ew.
  cbv beta iota in Ew. set (s1 := set_traces _ _) in *.
  unfold bind at 1 in Ew.
  change (new (block is_sample) s1)
    with (Ok (Href (S (next_id s)) (block is_sample)), set_next_id s1 (S (S (next_id s))))
    in Ew.
  cbv beta iota in Ew.
  set (b := Href (S (next_id s)) (block is_sample)) in *. set (s2 := set_next_id s1 _) in *.
  unfold with_ at 1 in Ew.
  change (__enter__ b s2)
    with (Ok (@None OrderedDict), set_stack s2 ((PYRO_STACK s ++ [tc]) ++ [b])) in Ew.
  cbv beta iota in Ew.
  assert (set_stack s2 ((PYRO_STACK s ++ [tc]) ++ [b]) = in_capture s) as Hin.
  { unfold in_capture, set_stack. simpl. by rewrite <- app_assoc. }
  rewrite Hin in Ew. clear Hin.
  pose proof (Hbal (in_capture s)) as Hst.
  destruct (loss (in_capture s)) as [[x|e] s4] eqn:El; simpl in Hst.
  - rewrite (exit_top b s4 (PYRO_STACK s ++ [tc])) in Ew
      by (rewrite Hst; simpl; by rewrite <- app_assoc).
    rewrite (exit_top tc _ (PYRO_STACK s)) in Ew by done.
    injection Ew as <- <-. exists s4, pc. done.
  - rewrite (exit_top b s4 (PYRO_STACK s ++ [tc])) in Ew
      by (rewrite Hst; simpl; by rewrite <- app_assoc).
    by rewrite (exit_top tc _ (PYRO_STACK s)) in Ew.
Qed.


Lemma elbo_returns {A B} (model : M A) (guide : M B) s l s4 :
  elbo model guide s = (Ok l, s4) ->
  exists gt s1 mt,
    guide_run guide s = (Ok gt, s1) /\ model_run model gt s1 = (Ok mt, s4).
Proof.
  rewrite elbo_unfold. unfold bind at 1.
  destruct (guide_run guide s) as [[gt|e] s1] eqn:Eg; [|done].
  unfold bind at 1. destruct (model_run model gt s1) as [[mt|e] s2] eqn:Em; [|done].
  unfold bind, lift, ret.
  destruct (elbo_loop tadd _ _); [|done]. destruct (elbo_loop tsub _ _); [|done].
  intros [= _ <-]. by exists gt, s1, mt.
Qed.

Lemma guide_run_captured {B} pre c b (guide : prog B) s trc gt s1 :
  PYRO_STACK s = pre ++ [c; b] -> hcls c = trace -> hcls b = block is_sample ->
  Forall (fun x => (hid x < hid c)%nat) pre -> (hid c < next_id s)%nat ->
  traces s !! hid c = Some trc ->
  guide_run (run guide) s = (Ok gt, s1) ->
  PYRO_STACK s1 = PYRO_STACK s /\ (hid c < next_id s1)%nat /\
  exists trc', traces s1 !! hid c = Some trc' /\
               param_sites trc' = param_sites trc ++ param_sites gt.
Proof.
  intros Hst Hc Hb Hpre Hn Htc. unfold guide_run, bind.
  change (new trace s) with (Ok (Href (next_id s) trace), set_next_id s (S (next_id s))).
  cbv beta iota. intros H.
  apply (get_trace_captured pre c b _ _ _ trc) in H; try done; simpl; try lia.
  - eapply Forall_impl; [exact Hpre|]. simpl. intros x Hx. lia.
  - apply run_balanced.
  - apply run_pairs.
Qed.

Lemma model_run_captured {A} pre c b (model : prog A) g s trc mt s1 :
  PYRO_STACK s = pre ++ [c; b] -> hcls c = trace -> hcls b = block is_sample ->
  Forall (fun x => (hid x < hid c)%nat) pre -> (hid c < next_id s)%nat ->
  traces s !! hid c = Some trc ->
  model_run (run model) g s = (Ok mt, s1) ->
  PYRO_STACK s1 = PYRO_STACK s /\ (hid c < next_id s1)%nat /\
  exists trc', traces s1 !! hid c = Some trc' /\
               param_sites trc' = param_sites trc ++ param_sites mt.
Proof.
  intros Hst Hc Hb Hpre Hn Htc. unfold model_run, bind at 1.
  change (new (replay g) s)
    with (Ok (Href (next_id s) (replay g)), set_next_id s (S (next_id s))).
  cbv beta iota. unfold bind at 1.
  change (new trace (set_next_id s (S (next_id s))))
    with (Ok (Href (S (next_id s)) trace),
          set_next_id (set_next_id s (S (next_id s))) (S (S (next_id s)))).
  cbv beta iota. intros H.
  apply (get_trace_captured pre c b _ _ _ trc) in H; try done; simpl; try lia.
  - eapply Forall_impl; [exact Hpre|]. simpl. intros x Hx. lia.
  - apply with_balanced, run_balanced.
  - apply with_pairs; simpl; [lia|lia|apply run_balanced|apply run_pairs].
Qed.

Lemma elbo_keeps {A B} tid (model : prog A) (guide : prog B) :
  keeps tid (elbo (run model) (run guide)).
Proof.
  unfold elbo. apply new_bind_keeps. intros t1 H1.
  apply bind_keeps.
  { apply get_trace_balanced, run_balanced. }
  { apply get_trace_keeps; [lia|apply run_balanced|apply run_keeps]. }
  intros gt. apply new_bind_keeps. intros r Hr. apply new_bind_keeps. intros t2 H2.
  apply bind_keeps.
  { apply get_trace_balanced, with_balanced, run_balanced. }
  { apply get_trace_keeps; [lia|apply with_balanced, run_balanced|].
    apply with_keeps; [lia|apply run_balanced|apply run_keeps]. }
  intros mt s Hh Hn Hc. unfold bind, lift, ret.
  destruct (elbo_loop tadd _ _); [|done]. by destruct (elbo_loop tsub _ _).
Qed.

Lemma param_sites_clean tr : no_sample_sites tr = true -> param_sites tr = od_values tr.
Proof.
  unfold no_sample_sites, param_sites. induction (od_values tr) as [|m l IH]; [done|].
  simpl. intros [Hm Hl]%andb_prop. rewrite filter_cons.
  destruct (is_sample m); [done|]. case_decide; [|done]. by rewrite IH.
Qed.

(** Every entry is stored under the name of its message, and no two
    entries have the same name. *)
Lemma named_set tr msg :
  (NoDup (m_name <$> od_values tr) /\ Forall (fun e => e.1 = m_name e.2) tr) ->
  od_contains tr (m_name msg) = false ->
  let tr' := od_set tr (m_name msg) msg in
  NoDup (m_name <$> od_values tr') /\ Forall (fun e => e.1 = m_name e.2) tr'.
Proof.
  intros [Hnd Hk] Hc. cbv zeta. rewrite (od_set_fresh _ _ _ Hc). split.
  - unfold od_values. rewrite !fmap_app. simpl. apply NoDup_app.
    split; [done|]. split; [|apply NoDup_singleton].
    intros x Hx ->%list_elem_of_singleton.
    assert (od_contains tr (m_name msg) = true); [|congruence].
    apply od_contains_keys. unfold od_keys.
    apply list_elem_of_fmap in Hx as (m & Hm & Hin).
    apply list_elem_of_fmap in Hin as (e & -> & He).
    apply list_elem_of_fmap. exists e. split; [|done].
    rewrite Forall_forall in Hk. rewrite Hk by done. done.
  - apply Forall_app. split; [done|]. by apply Forall_singleton.
Qed.

Lemma elbo_named {A B} tid (model : prog A) (guide : prog B) :
  preserves
    (slot (fun tr => NoDup (m_name <$> od_values tr) /\
                     Forall (fun e => e.1 = m_name e.2) tr) tid)
    (elbo (run model) (run guide)).
Proof.
  set (Q := fun tr : OrderedDict =>
              NoDup (m_name <$> od_values tr) /\ Forall (fun e => e.1 = m_name e.2) tr).
  assert (Q []) as Q_empty by (split; [apply NoDup_nil_2|apply Forall_nil_2]).
  assert (forall tr msg, Q tr -> recordable msg = true ->
            od_contains tr (m_name msg) = false -> Q (od_set tr (m_name msg) msg))
    as Q_set by (intros tr msg HQ _ Hc; by apply named_set).
  unfold elbo.
  apply bind_preserves; [by apply new_slot|]. intros t1.
  apply bind_preserves; [apply get_trace_slot; [done|by apply run_slot]|]. intros gt.
  apply bind_preserves; [by apply new_slot|]. intros r.
  apply bind_preserves; [by apply new_slot|]. intros t2.
  apply bind_preserves.
  { apply get_trace_slot; [done|]. unfold __call__.
    apply with_preserves; [by apply enter_slot|by apply exit_slot|by apply run_slot]. }
  intros mt. unfold lift, bind, ret. intros s H.
  destruct (elbo_loop tadd _ _); [|done]. by destruct (elbo_loop tsub _ _).
Qed.

(** X12. When the scope that opens [SVI.step] returns, with [elbo] as the
    loss, the sites of [param_capture] are the Param-type sites of the
    trace of the guide followed by those of the trace of the model, as
    [elbo] takes them inside the scope, and no two of them have the same
    name.  So the step does not return when the model and the guide use a
    parameter of the same name. *)
Theorem svi_step_captures_param_sites :
  forall A B (model : prog A) (guide : prog B) s loss sites s',
    Forall (fun h => (hid h < next_id s)%nat) (PYRO_STACK s) ->
    capture_scope (elbo (run model) (run guide)) s = (Ok (loss, sites), s') ->
    exists gt s1 mt s2,
      guide_run (run guide) (in_capture s) = (Ok gt, s1) /\
      model_run (run model) gt s1 = (Ok mt, s2) /\
      sites = param_sites gt ++ param_sites mt /\
      NoDup (m_name <$> sites).
Proof.
  intros A B model guide s loss sites s' Hold H.
  apply capture_scope_returns in H as (s4 & pc & Hl & Hpc & ->).
  2: { unfold elbo.
       apply bind_balanced; [apply new_balanced|]. intros t1.
       apply bind_balanced; [apply get_trace_balanced, run_balanced|]. intros gt.
       apply bind_balanced; [apply new_balanced|]. intros r.
       apply bind_balanced; [apply new_balanced|]. intros t2.
       apply bind_balanced; [apply get_trace_balanced, with_balanced, run_balanced|].
       intros mt s0. unfold bind, lift, ret.
       destruct (elbo_loop tadd _ _); [|done]. by destruct (elbo_loop tsub _ _). }
  set (tc := Href (next_id s) trace). set (b := Href (S (next_id s)) (block is_sample)).
  assert (clean (next_id s) s4) as Hclean.
  { pose proof (elbo_keeps (next_id s) model guide (in_capture s)) as Hk.
    rewrite Hl in Hk. apply Hk.
    - exists (PYRO_STACK s ++ [tc]), b, is_sample, [].
      split; [simpl; by rewrite <- app_assoc|]. by repeat split.
    - simpl. lia.
    - intros tr. simpl. rewrite lookup_insert_eq. by intros [= <-]. }
  assert (NoDup (m_name <$> od_values pc)) as Hnd.
  { pose proof (elbo_named (next_id s) model guide (in_capture s)) as Hk.
    rewrite Hl in Hk. apply Hk; [|exact Hpc].
    intros tr. simpl. rewrite lookup_insert_eq. intros [= <-].
    split; [apply NoDup_nil_2|apply Forall_nil_2]. }
  apply elbo_returns in Hl as (gt & s1 & mt & Hg & Hm).
  pose proof Hg as Hg'.
  apply (guide_run_captured (PYRO_STACK s) tc b _ _ []) in Hg'
    as (Hst1 & Hn1 & trc1 & Htc1 & Hps1); try done.
  2: { simpl. lia. }
  2: { simpl. by rewrite lookup_insert_eq. }
  pose proof Hm as Hm'.
  apply (model_run_captured (PYRO_STACK s) tc b _ _ _ trc1) in Hm'
    as (Hst2 & Hn2 & trc2 & Htc2 & Hps2); try done.
  simpl in Htc2. unfold OrderedDict in *. rewrite Hpc in Htc2. injection Htc2 as <-.
  exists gt, s1, mt, s4. split; [done|]. split; [done|]. split; [|done].
  rewrite <- (param_sites_clean pc) by (by apply Hclean).
  rewrite Hps2, Hps1. done.
Qed.


(** ** Blocks with any [hide_fn] *)

Section Shield.
Variable f : message -> bool.
Hypothesis f_by_type_and_name : by_type_and_name f.
Variable tid : nat.

Lemma pre_phase_hidden inner b outer msg :
  hcls b = block f -> f msg = true ->
  (pre_phase (inner ++ b :: outer) msg).1 `prefix_of` inner ++ [b].
Proof.
  intros Hb. revert msg. induction inner as [|h inner IH]; intros msg Hf; simpl.
  - unfold process_message. rewrite Hb, Hf. simpl. done.
  - destruct (process_message h msg) as [m|e] eqn:E.
    + destruct (m_stop m); simpl.
      * apply prefix_cons, prefix_nil.
      * apply prefix_cons, IH.
        apply process_message_type in E as (E1 & E2 & _).
        by rewrite (f_by_type_and_name m msg).
    + apply prefix_cons, prefix_nil.
Qed.

Lemma postprocess_message_free h msg s :
  f msg = false -> free_of f tid s -> free_of f tid (postprocess_message h msg s).2.
Proof.
  intros Hf Hs. unfold postprocess_message. destruct (hcls h); try done.
  destruct (traces s !! hid h) as [tr0|] eqn:Et; [|done].
  destruct (od_contains tr0 (m_name msg)) eqn:Ec; [done|].
  intros tr. simpl. destruct (decide (hid h = tid)) as [Heq|Hne].
  - rewrite Heq, lookup_insert_eq. intros [= <-].
    rewrite (od_set_fresh _ _ _ Ec). unfold od_values. rewrite fmap_app.
    apply Forall_app. split; [|by apply Forall_singleton].
    apply Hs. by rewrite <- Heq.
  - rewrite lookup_insert_ne by done. apply Hs.
Qed.

Lemma postprocess_loop_free hs msg s :
  f msg = false -> free_of f tid s -> free_of f tid (postprocess_loop hs msg s).2.
Proof.
  intros Hf. revert s. induction hs as [|h hs IH]; intros s Hs; simpl; [done|].
  unfold bind.
  pose proof (postprocess_message_free h msg (log s (EvPostprocess (hid h))) Hf Hs) as H1.
  destruct (postprocess_message h msg _) as [[[]|e] s1]; simpl in *; [|done].
  by apply IH.
Qed.

Lemma behind_nonempty st : behind f tid st -> st <> [].
Proof. intros (pre & b & extra & -> & _). by destruct pre. Qed.

Lemma apply_stack_free msg s :
  behind f tid (PYRO_STACK s) -> free_of f tid s -> free_of f tid (apply_stack msg s).2.
Proof.
  intros Hh Hs. pose proof (behind_nonempty _ Hh) as Hst.
  rewrite (apply_stack_unfold msg s Hst).
  destruct (pre_phase (reverse (PYRO_STACK s)) msg) as [reached [msg1|e]] eqn:Epre;
    simpl; [|done].
  set (s1 := log_all s _).
  destruct (fill_value msg1 s1) as [[msg2|e] s2] eqn:Ef.
  - assert (free_of f tid s2) as Hs2.
    { apply fill_value_frame in Ef as (_ & Ht & _). intros tr. rewrite Ht. apply Hs. }
    apply fill_value_site in Ef as (Hname2 & Hty2 & _).
    assert (m_type msg1 = m_type msg /\ m_name msg1 = m_name msg) as [Hty1 Hname1].
    { pose proof (pre_phase_type (reverse (PYRO_STACK s)) msg msg1) as H.
      rewrite Epre in H. by destruct (H eq_refl) as (? & ? & _). }
    assert (f msg2 = f msg) as Hf2 by (apply f_by_type_and_name; congruence).
    unfold bind.
    assert (free_of f tid (postprocess_loop (reverse reached) msg2 s2).2) as H.
    { destruct (f msg) eqn:Efm; [|by apply postprocess_loop_free].
      destruct Hh as (pre & b & extra & Est & Hb & Hex).
      assert (reached `prefix_of` reverse extra ++ [b]) as [rest Hr].
      { replace reached with (pre_phase (reverse (PYRO_STACK s)) msg).1
          by (by rewrite Epre).
        rewrite Est, reverse_app, reverse_cons, <- app_assoc. simpl.
        by apply pre_phase_hidden. }
      assert (Forall (fun h => hid h <> tid) (reverse reached)) as Hall.
      { apply Forall_reverse.
        assert (Forall (fun h => hid h <> tid) (reverse extra ++ [b])) as Hall.
        { inversion Hex; subst. apply Forall_app. split.
          - by apply Forall_reverse.
          - by apply Forall_singleton. }
        rewrite Hr in Hall. by apply Forall_app in Hall as [? _]. }
      intros tr.
      destruct (postprocess_loop (reverse reached) msg2 s2) as [r s3] eqn:Ep.
      simpl. rewrite (postprocess_loop_other _ _ _ _ _ tid Hall Ep). apply Hs2. }
    by destruct (postprocess_loop (reverse reached) msg2 s2) as [[[]|e] s3].
  - apply fill_value_frame in Ef as (_ & Ht & _). intros tr. simpl. rewrite Ht. apply Hs.
Qed.

Lemma bind_shields {A B} (m : M A) (k : A -> M B) :
  balanced m -> shields f tid m -> (forall a, shields f tid (k a)) ->
  shields f tid (bind m k).
Proof.
  intros Hb Hm Hk s Hh Hn Hc. unfold bind.
  specialize (Hb s). destruct (Hm s Hh Hn Hc) as [Hn1 Hc1].
  destruct (m s) as [[a|e] s1]; simpl in *; [|done].
  apply Hk; [by rewrite Hb|done|done].
Qed.

Lemma new_bind_shields {B} c (k : href -> M B) :
  (forall self, (tid < hid self)%nat -> shields f tid (k self)) ->
  shields f tid (bind (new c) k).
Proof.
  intros Hk s Hh Hn Hc. unfold bind.
  destruct (new c s) as [[self|e] s1] eqn:E;
    apply new_spec in E as (Est & Etr & _ & _ & _ & E).
  - destruct E as [-> En]. apply Hk; simpl.
    + done.
    + by rewrite Est.
    + lia.
    + intros tr. rewrite Etr. apply Hc.
  - by subst s1.
Qed.

Lemma dispatch_shields msg : shields f tid (bind (apply_stack msg) value_of).
Proof.
  intros s Hh Hn Hc. unfold bind.
  pose proof (apply_stack_free msg s Hh Hc) as H.
  destruct (apply_stack msg s) as [[m|e] s1] eqn:E;
    apply apply_stack_frame in E as [_ E]; simpl in *.
  - unfold value_of. destruct (m_value m); simpl; split; (lia || done).
  - split; [lia|done].
Qed.

Lemma sample_shields name d obs : shields f tid (sample name d obs).
Proof.
  intros s Hh Hn Hc. rewrite sample_dispatch by (by eapply behind_nonempty).
  by apply dispatch_shields.
Qed.

Lemma param_shields name init c : shields f tid (param name init c).
Proof.
  intros s Hh Hn Hc. rewrite param_dispatch by (by eapply behind_nonempty).
  by apply dispatch_shields.
Qed.

Lemma with_shields {A} self (body : M A) :
  hid self <> tid -> balanced body -> shields f tid body ->
  shields f tid (with_ self body).
Proof.
  intros Hne Hb Hk s Hh Hn Hc. unfold with_.
  destruct (enter_stack self s) as [Hst [r Hr]].
  assert ((tid < next_id (__enter__ self s).2)%nat /\ free_of f tid (__enter__ self s).2)
    as [Hn1 Hc1].
  { unfold __enter__. destruct (hcls self); simpl; try done.
    split; [done|]. intros tr. simpl. rewrite lookup_insert_ne by done. apply Hc. }
  destruct (__enter__ self s) as [r0 s1]. simpl in *. subst r0.
  specialize (Hb s1).
  destruct (Hk s1) as [Hn2 Hc2]; [|done|done|].
  { rewrite Hst. destruct Hh as (pre & b & extra & -> & Hcb & Hex).
    exists pre, b, (extra ++ [self]). split; [by rewrite <- app_assoc|].
    split; [done|]. rewrite app_comm_cons. apply Forall_app.
    split; [done|by apply Forall_singleton]. }
  destruct (body s1) as [[a|e] s2]; simpl in *;
    rewrite (exit_top self s2 (PYRO_STACK s)) by congruence; done.
Qed.

Lemma get_trace_shields {A} self (fn : M A) :
  hid self <> tid -> balanced fn -> shields f tid fn ->
  shields f tid (get_trace self fn).
Proof.
  intros Hne Hb Hk. unfold get_trace, __call__. apply bind_shields.
  - by apply with_balanced.
  - by apply with_shields.
  - intros _ s _ Hn Hc. by destruct (traces s !! hid self).
Qed.

Lemma run_shields {A} (p : prog A) : shields f tid (run p).
Proof.
  induction p as [A a|A name fn obs k IH|A name init c k IH|A B h body IHb k IH
                  |A B body IHb k IH]; simpl.
  - by intros s.
  - apply bind_shields; [apply sample_balanced|apply sample_shields|done].
  - apply bind_shields; [apply param_balanced|apply param_shields|done].
  - apply new_bind_shields. intros self Hlt.
    apply bind_shields; [|apply with_shields|done].
    + apply with_balanced, run_balanced.
    + lia.
    + apply run_balanced.
    + done.
  - apply new_bind_shields. intros self Hlt.
    apply bind_shields; [|apply get_trace_shields|done].
    + apply get_trace_balanced, run_balanced.
    + lia.
    + apply run_balanced.
    + done.
Qed.

End Shield.

Lemma traced_block_free {B} f (model : prog B) s tr :
  by_type_and_name f ->
  (run (GetTrace (With (block f) model Ret) Ret) s).1 = Ok tr ->
  Forall (fun site => f site = false) (od_values tr).
Proof.
  intros Hf.
  change (run (GetTrace (With (block f) model Ret) Ret) s)
    with ((do self <- new trace;
           do tr <- get_trace self
                      (do b <- new (block f); do x <- __call__ b (run model); ret x);
           ret tr) s).
  unfold bind at 1.
  change (new trace s) with (Ok (Href (next_id s) trace), set_next_id s (S (next_id s))).
  cbv beta iota. set (t := Href (next_id s) trace). set (s0 := set_next_id s _).
  unfold get_trace, __call__. unfold bind at 1. unfold bind at 1. unfold with_ at 1.
  change (__enter__ t s0)
    with (Ok (Some (@nil (string * message))),
          set_traces (set_stack s0 (PYRO_STACK s ++ [t])) (<[next_id s := []]> (traces s))).
  cbv beta iota. set (s1 := set_traces _ _).
  set (inner := bind (new (block f)) _).
  assert (free_of f (next_id s) (inner s1).2 /\ PYRO_STACK (inner s1).2 = PYRO_STACK s1)
    as [Hfree Hstack].
  { split.
    - unfold inner, bind at 1.
      change (new (block f) s1)
        with (Ok (Href (S (next_id s)) (block f)), set_next_id s1 (S (S (next_id s)))).
      cbv beta iota. set (b := Href (S (next_id s)) (block f)). set (s2 := set_next_id s1 _).
      unfold bind at 1. unfold with_.
      change (__enter__ b s2) with (Ok (@None OrderedDict), set_stack s2 (PYRO_STACK s1 ++ [b])).
      cbv beta iota. set (s3 := set_stack s2 _).
      destruct (run_shields f Hf (next_id s) model s3) as [_ Hc].
      + exists (PYRO_STACK s1), b, []. split; [done|]. split; [done|].
        apply Forall_singleton. simpl. lia.
      + simpl. lia.
      + intros tr0. simpl. rewrite lookup_insert_eq. by intros [= <-].
      + pose proof (run_balanced model s3) as Hb.
        destruct (run model s3) as [[a|e] s4]; simpl in Hb, Hc;
          rewrite (exit_top b s4 (PYRO_STACK s1)) by done; simpl; done.
    - apply bind_balanced; [apply new_balanced|]. intros b.
      apply bind_balanced; [apply with_balanced, run_balanced|]. by intros x s'. }
  destruct (inner s1) as [[x|e] s4]; simpl in Hfree, Hstack.
  - rewrite (exit_top t s4 (PYRO_STACK s)) by done. simpl.
    destruct (traces s4 !! next_id s) as [tr0|] eqn:Et; simpl; [|done].
    intros [= <-]. by apply Hfree.
  - rewrite (exit_top t s4 (PYRO_STACK s)) by done. done.
Qed.

(** X13. A block hides from the handlers outside it every message that
    its [hide_fn] selects, for any [hide_fn] that goes by the type and the
    name of the message: the trace of a model run inside the block has no
    site that [hide_fn] selects.  With the default [hide_fn], which
    selects everything, that trace is empty. *)
Theorem block_hides_selected_sites :
  (forall B f (model : prog B) s tr,
     by_type_and_name f ->
     (run (GetTrace (With (block f) model Ret) Ret) s).1 = Ok tr ->
     Forall (fun site => f site = false) (od_values tr)) /\
  (forall B (model : prog B) s tr,
     (run (GetTrace (With (block default_hide_fn) model Ret) Ret) s).1 = Ok tr ->
     tr = []).
Proof.
  split.
  - intros B f model s tr. apply traced_block_free.
  - intros B model s tr H. apply traced_block_free in H; [|done].
    destruct tr as [|[k site] tr]; [done|]. by inversion H.
Qed.


(** ** Invariants of the traces under a fixed part of the stack *)

Section Scoped.
Variable bound : nat.
Variable C : list href -> Prop.
Variable J : gmap nat OrderedDict -> Prop.
Hypothesis C_nonempty : forall st, C st -> st <> [].
Hypothesis C_snoc : forall st self, C st -> (bound < hid self)%nat -> C (st ++ [self]).
Hypothesis J_fresh : forall m i, (bound < i)%nat -> J m -> J (<[i := []]> m).
Hypothesis J_dispatch :
  forall msg s msg' s',
    m_stop msg = false -> C (PYRO_STACK s) -> J (traces s) ->
    apply_stack msg s = (Ok msg', s') -> J (traces s').

Lemma bind_scoped {A B} (m : M A) (k : A -> M B) :
  balanced m -> scoped bound C J m -> (forall a, scoped bound C J (k a)) ->
  scoped bound C J (bind m k).
Proof.
  intros Hb Hm Hk s b s' HC Hn HJ. unfold bind. specialize (Hb s).
  destruct (m s) as [[a|e] s1] eqn:E; [|done]. simpl in Hb.
  destruct (Hm s a s1 HC Hn HJ E) as [Hn1 HJ1].
  apply Hk; [by rewrite Hb|done|done].
Qed.

Lemma dispatch_scoped msg :
  m_stop msg = false -> scoped bound C J (bind (apply_stack msg) value_of).
Proof.
  intros Hstop s v s' HC Hn HJ. unfold bind.
  destruct (apply_stack msg s) as [[msg'|e] s1] eqn:E; [|done].
  intros H. apply value_of_frame in H as ->.
  pose proof E as Hf. apply apply_stack_frame in Hf as [_ Hf].
  split; [lia|]. by eapply J_dispatch.
Qed.

Lemma sample_scoped name d obs : scoped bound C J (sample name d obs).
Proof.
  intros s v s' HC. rewrite sample_dispatch by (by apply C_nonempty).
  by apply dispatch_scoped.
Qed.

Lemma param_scoped name init c : scoped bound C J (param name init c).
Proof.
  intros s v s' HC. rewrite param_dispatch by (by apply C_nonempty).
  by apply dispatch_scoped.
Qed.

Lemma new_bind_scoped {B} c (k : href -> M B) :
  (forall self, (bound < hid self)%nat -> scoped bound C J (k self)) ->
  scoped bound C J (bind (new c) k).
Proof.
  intros Hk s a s' HC Hn HJ. unfold bind.
  destruct (new c s) as [[self|e] s1] eqn:E;
    apply new_spec in E as (Est & Etr & _ & _ & _ & E); [|done].
  destruct E as [-> En].
  apply (Hk (Href (next_id s) c) Hn s1 a s'); [by rewrite Est|lia|by rewrite Etr].
Qed.

Lemma with_scoped {A} self (body : M A) :
  (bound < hid self)%nat -> balanced body ->
  scoped bound C J body -> scoped bound C J (with_ self body).
Proof.
  intros Hlt Hb Hp s a s' HC Hn HJ. unfold with_.
  destruct (enter_stack self s) as [Hst [r Hr]].
  assert ((bound < next_id (__enter__ self s).2)%nat /\ J (traces (__enter__ self s).2))
    as [Hn1 HJ1].
  { unfold __enter__. destruct (hcls self); simpl; try done. split; [done|].
    by apply J_fresh. }
  destruct (__enter__ self s) as [r0 s1]. simpl in *. subst r0.
  specialize (Hb s1).
  destruct (body s1) as [[x|e] s2] eqn:Eb; simpl in Hb;
    rewrite (exit_top self s2 (PYRO_STACK s)) by congruence; [|done].
  intros [= <- <-]. apply (Hp s1 x s2); try done. rewrite Hst. by apply C_snoc.
Qed.

Lemma get_trace_scoped {A} self (fn : M A) :
  (bound < hid self)%nat -> balanced fn ->
  scoped bound C J fn -> scoped bound C J (get_trace self fn).
Proof.
  intros Hlt Hb Hp. unfold get_trace, __call__. apply bind_scoped.
  - by apply with_balanced.
  - by apply with_scoped.
  - intros _ s a s' _ Hn HJ. destruct (traces s !! hid self); by intros [= _ <-].
Qed.

Lemma run_scoped {A} (p : prog A) : scoped bound C J (run p).
Proof.
  induction p as [A a|A name fn obs k IH|A name init c k IH|A B h body IHb k IH
                  |A B body IHb k IH]; simpl.
  - intros s a' s' _ Hn HJ. by intros [= _ <-].
  - apply bind_scoped; [apply sample_balanced|apply sample_scoped|done].
  - apply bind_scoped; [apply param_balanced|apply param_scoped|done].
  - apply new_bind_scoped. intros self Hlt.
    apply bind_scoped; [|apply with_scoped|done].
    + apply with_balanced, run_balanced.
    + done.
    + apply run_balanced.
    + done.
  - apply new_bind_scoped. intros self Hlt.
    apply bind_scoped; [|apply get_trace_scoped|done].
    + apply get_trace_balanced, run_balanced.
    + done.
    + apply run_balanced.
    + done.
Qed.

End Scoped.

(** ** Replay inside [elbo] *)

(** What a post-phase that returns has done to the trace of an object:
    nothing, or it has recorded the message at its end. *)
Lemma postprocess_loop_appends hs msg s s1 i tr1 :
  postprocess_loop hs msg s = (Ok tt, s1) -> traces s1 !! i = Some tr1 ->
  exists tr more,
    traces s !! i = Some tr /\ tr1 = tr ++ more /\
    Forall (fun e => e = (m_name msg, msg)) more.
Proof.
  revert s. induction hs as [|h hs IH]; intros s H Htr1.
  - injection H as <-. exists tr1, []. by rewrite app_nil_r.
  - apply postprocess_loop_cons_ok in H as (s0 & Hm & Hl).
    destruct (IH s0 Hl Htr1) as (tr0 & more & Htr0 & -> & Hmore).
    unfold postprocess_message in Hm.
    destruct (hcls h); simplify_eq; try by (exists tr0, more).
    simpl in Hm. destruct (traces s !! hid h) as [tr|] eqn:Et; [|done].
    destruct (od_contains tr (m_name msg)) eqn:Ec; [done|].
    injection Hm as <-. simpl in Htr0.
    destruct (decide (hid h = i)) as [<-|Hne].
    + rewrite lookup_insert_eq in Htr0. injection Htr0 as <-.
      rewrite (od_set_fresh _ _ _ Ec). exists tr, ((m_name msg, msg) :: more).
      split; [done|]. split; [by rewrite <- app_assoc|]. by apply Forall_cons_2.
    + rewrite lookup_insert_ne in Htr0 by done. by exists tr0, more.
Qed.

Lemma od_get_elem_of (tr : OrderedDict) name site :
  od_get tr name = Some site -> (name, site) ∈ tr.
Proof.
  induction tr as [|[k v] tr IH]; simpl; [done|].
  destruct (String.eqb k name) eqn:Ek.
  - apply String.eqb_eq in Ek as ->. intros [= ->]. apply list_elem_of_here.
  - intros H. apply list_elem_of_further. by apply IH.
Qed.

(** One dispatch under the replay. *)
Lemma apply_stack_replayed gt t name gsite msg s msg' s' :
  od_get gt name = Some gsite -> is_Some (m_value gsite) ->
  m_stop msg = false -> under_replay gt t name (PYRO_STACK s) ->
  replayed_at t name (m_value gsite) (traces s) ->
  apply_stack msg s = (Ok msg', s') ->
  replayed_at t name (m_value gsite) (traces s').
Proof.
  intros Hg [v Hv] Hstop (pre & h & r & inner & Hst & Hh & Hhc & Hr & Hleave & Hids) HJ H.
  apply apply_stack_returns in H as (_ & msg1 & s2 & Hpre & Hf & Hp).
  pose proof Hf as Hsite. apply fill_value_site in Hsite as (Hname2 & _).
  assert (traces s2 = traces s) as Htr2
    by (by apply fill_value_frame in Hf as (_ & Htr2 & _)).
  assert (reverse (PYRO_STACK s) = reverse inner ++ [r; h] ++ reverse pre) as Hrev.
  { rewrite Hst, !reverse_app. simpl. by rewrite <- app_assoc. }
  rewrite Hrev in Hpre, Hp.
  apply Forall_app in Hids as [Hpre_ids Hin_ids].
  apply Forall_cons in Hin_ids as [Hr_id Hin_ids].
  assert (m_name msg = name -> m_value msg' = m_value gsite \/
          traces s' !! t = traces s !! t) as Hcases.
  { intros Hname.
    destruct (pre_phase_app_cases (reverse inner) ([r; h] ++ reverse pre) msg)
      as [Heq|(m1 & Hm1 & Hs1 & Heq)]; rewrite Heq in Hpre, Hp.
    - right. destruct (pre_phase_prefix (reverse inner) msg) as [rest Hrest].
      rewrite <- Htr2. apply (postprocess_loop_other _ _ _ _ _ t) in Hp; [done|].
      apply Forall_reverse.
      assert (Forall (fun x => hid x <> t) (reverse inner)) as Hri
        by (by apply Forall_reverse).
      rewrite Hrest in Hri. by apply Forall_app in Hri as [? _].
    - left. cbn [fst snd] in Hpre.
      assert (m_name m1 = name) as Hname1.
      { pose proof (pre_phase_type (reverse inner) msg m1) as H.
        rewrite Hm1 in H. destruct (H eq_refl) as (_ & -> & _). done. }
      apply (pre_phase_replay_first r gt (h :: reverse pre) m1 gsite) in Hpre;
        [|done|by rewrite Hname1|].
      + unfold fill_value, bind, ret in Hf. rewrite Hpre, Hv in Hf.
        injection Hf as <- _. by rewrite Hpre, Hv.
      + simpl. rewrite Hname1. apply andb_true_intro. split.
        * unfold leaves_value. by rewrite Hhc.
        * by rewrite forallb_reverse. }
  intros tr1 site Htr1 Hin.
  destruct (postprocess_loop_appends _ _ _ _ t tr1 Hp Htr1)
    as (tr & more & Htr & -> & Hmore).
  rewrite Htr2 in Htr.
  apply elem_of_app in Hin as [Hin|Hin]; [by apply (HJ tr)|].
  rewrite Forall_forall in Hmore. pose proof (Hmore _ Hin) as Heq.
  injection Heq as Hname ->.
  assert (m_name msg = name) as Hname0.
  { pose proof (pre_phase_type _ _ _ Hpre) as (_ & Hn & _). congruence. }
  destruct (Hcases Hname0) as [Hval|Hsame]; [done|].
  assert (tr ++ more = tr) as Hlen by (unfold OrderedDict in *; congruence).
  apply (f_equal length) in Hlen. rewrite length_app in Hlen.
  destruct more; [by apply elem_of_nil in Hin|simpl in Hlen; lia].
Qed.


Lemma model_run_replayed {A} (model : prog A) gt s mt s' name site gsite :
  Forall (fun h => (hid h < next_id s)%nat) (PYRO_STACK s) ->
  forallb (leaves_value name) (PYRO_STACK s) = true ->
  is_Some (m_value gsite) -> od_get gt name = Some gsite ->
  model_run (run model) gt s = (Ok mt, s') ->
  od_get mt name = Some site -> m_value site = m_value gsite.
Proof.
  intros Hold Hleave Hv Hg H Hm.
  unfold model_run, bind at 1 in H.
  change (new (replay gt) s)
    with (Ok (Href (next_id s) (replay gt)), set_next_id s (S (next_id s))) in H.
  cbv beta iota in H. unfold bind at 1 in H.
  change (new trace (set_next_id s (S (next_id s))))
    with (Ok (Href (S (next_id s)) trace),
          set_next_id (set_next_id s (S (next_id s))) (S (S (next_id s)))) in H.
  cbv beta iota in H.
  set (r := Href (next_id s) (replay gt)) in *.
  set (t2 := Href (S (next_id s)) trace) in *.
  set (s0 := set_next_id _ (S (S (next_id s)))) in *.
  unfold get_trace, __call__, bind in H. unfold with_ at 1 in H.
  change (__enter__ t2 s0)
    with (Ok (Some (@nil (string * message))),
          set_traces (set_stack s0 (PYRO_STACK s ++ [t2]))
                     (<[S (next_id s) := []]> (traces s))) in H.
  cbv beta iota in H. set (s1 := set_traces _ _) in *.
  assert (scoped (S (next_id s)) (under_replay gt (S (next_id s)) name)
                 (replayed_at (S (next_id s)) name (m_value gsite)) (run model)) as Hsc.
  { apply run_scoped.
    - intros st (pre & h & r0 & inner & -> & _). by destruct pre.
    - intros st self (pre & h & r0 & inner & -> & Hh & Hhc & Hr & Hl & Hids) Hlt.
      exists pre, h, r0, (inner ++ [self]). split; [by rewrite <- !app_assoc|].
      repeat (split; [done|]).
      change (pre ++ r0 :: inner ++ [self]) with (pre ++ (r0 :: inner) ++ [self]).
      rewrite app_assoc. apply Forall_app. split; [done|].
      apply Forall_singleton. lia.
    - intros m i Hi HJ tr site0 Htr. rewrite lookup_insert_ne in Htr by lia.
      by apply HJ.
    - intros msg s5 msg' s6 Hstop HC HJ Ha. by eapply apply_stack_replayed. }
  unfold with_ at 1 in H.
  change (__enter__ r s1)
    with (Ok (@None OrderedDict), set_stack s1 ((PYRO_STACK s ++ [t2]) ++ [r])) in H.
  cbv beta iota in H. set (s3 := set_stack s1 _) in *.
  pose proof (run_balanced model s3) as Hb.
  destruct (run model s3) as [[a|e] s4] eqn:Er; simpl in Hb.
  - destruct (Hsc s3 a s4) as [_ HJ]; try done.
    + exists (PYRO_STACK s), t2, r, []. split; [simpl; by rewrite <- app_assoc|].
      repeat (split; [done|]). apply Forall_app. split.
      * eapply Forall_impl; [exact Hold|]. simpl. intros x Hx. lia.
      * apply Forall_singleton. simpl. lia.
    + simpl. lia.
    + intros tr site0. simpl. rewrite lookup_insert_eq. intros [= <-] Hin.
      by apply elem_of_nil in Hin.
    + rewrite (exit_top r s4 (PYRO_STACK s ++ [t2])) in H by done.
      rewrite (exit_top t2 _ (PYRO_STACK s)) in H by done.
      simpl in H. destruct (traces s4 !! S (next_id s)) as [tr|] eqn:Et; [|done].
      injection H as <- <-. apply (HJ tr site Et). by apply od_get_elem_of.
  - rewrite (exit_top r s4 (PYRO_STACK s ++ [t2])) in H by done.
    by rewrite (exit_top t2 _ (PYRO_STACK s)) in H.
Qed.

(** X15. The model trace that [elbo] takes carries the values of the
    guide: a site of the model trace whose name the guide trace has, has
    the value recorded there, whatever its kind, whether it was observed,
    and whatever replays the model enters itself, as long as no handler
    outside of [elbo] replays that name.  Stated for a reference trace
    whose entry has a value, and for the trace of a guide run, whose
    entries all have one. *)
Theorem model_trace_takes_guide_values :
  (forall A (model : prog A) gt s mt s' name site gsite,
     Forall (fun h => (hid h < next_id s)%nat) (PYRO_STACK s) ->
     forallb (leaves_value name) (PYRO_STACK s) = true ->
     is_Some (m_value gsite) -> od_get gt name = Some gsite ->
     model_run (run model) gt s = (Ok mt, s') ->
     od_get mt name = Some site -> m_value site = m_value gsite) /\
  (forall A B (model : prog A) (guide : prog B) s0 gt s mt s' name site gsite,
     guide_run (run guide) s0 = (Ok gt, s) ->
     Forall (fun h => (hid h < next_id s)%nat) (PYRO_STACK s) ->
     forallb (leaves_value name) (PYRO_STACK s) = true ->
     od_get gt name = Some gsite ->
     model_run (run model) gt s = (Ok mt, s') ->
     od_get mt name = Some site ->
     m_value site = m_value gsite /\ is_Some (m_value site)).
Proof.
  split.
  - intros A model gt s mt s' name site gsite. apply model_run_replayed.
  - intros A B model guide s0 gt s mt s' name site gsite Hgr Hold Hleave Hg Hm Hs.
    assert (is_Some (m_value gsite)) as Hv.
    { apply guide_run_recordable in Hgr. apply od_get_elem_of in Hg.
      unfold all_recordable in Hgr. rewrite Forall_forall in Hgr.
      specialize (Hgr _ Hg). simpl in Hgr. unfold recordable in Hgr.
      by destruct (m_value gsite). }
    rewrite (model_run_replayed model gt s mt s' name site gsite) by done. done.
Qed.


(** ** C5: parameters under handlers *)

(** The post-phase returns when the trace handlers it goes through are
    distinct objects whose traces do not have the name of the message. *)
Lemma postprocess_loop_returns hs msg s :
  NoDup (hid <$> hs) -> unrecorded (m_name msg) hs s ->
  exists s', postprocess_loop hs msg s = (Ok tt, s').
Proof.
  revert s. induction hs as [|h hs IH]; intros s Hnd Hun; simpl; [by eexists|].
  rewrite fmap_cons in Hnd. apply NoDup_cons in Hnd as [Hh Hnd].
  inversion Hun as [|? ? Hrec Hrest]; subst. unfold bind.
  assert (exists s1, postprocess_message h msg (log s (EvPostprocess (hid h))) = (Ok tt, s1)
                     /\ unrecorded (m_name msg) hs s1) as (s1 & -> & Hun1).
  { unfold postprocess_message. destruct (hcls h) eqn:Eh;
      try (eexists; split; [done|]; exact Hrest).
    destruct (Hrec eq_refl) as (tr & Htr & Hc). simpl. rewrite Htr, Hc.
    eexists. split; [done|].
    unfold unrecorded in *. rewrite Forall_forall in Hrest. apply Forall_forall.
    intros h' Hin Hc'. destruct (Hrest h' Hin Hc') as (tr' & Htr' & Hc'').
    exists tr'. split; [|done]. simpl. rewrite lookup_insert_ne; [done|].
    intros Heq. apply Hh. rewrite Heq. apply list_elem_of_fmap. by exists h'. }
  by apply IH.
Qed.

Lemma reached_NoDup (st reached rest : list href) :
  reverse st = reached ++ rest -> NoDup (hid <$> st) -> NoDup (hid <$> reverse reached).
Proof.
  intros Hrev Hnd.
  assert (st = reverse rest ++ reverse reached) as Hst
    by (by rewrite <- reverse_app, <- Hrev, reverse_involutive).
  rewrite Hst, fmap_app in Hnd. by apply NoDup_app in Hnd as (_ & _ & ?).
Qed.

Lemma reached_unrecorded name (st reached rest : list href) (s s2 : state) :
  reverse st = reached ++ rest -> traces s2 = traces s ->
  unrecorded name st s -> unrecorded name (reverse reached) s2.
Proof.
  intros Hrev Htr Hun. unfold unrecorded in *.
  rewrite Htr. apply Forall_reverse.
  apply Forall_reverse in Hun. rewrite Hrev in Hun.
  by apply Forall_app in Hun as [? _].
Qed.

(** A dispatch whose pre-phase leaves the value set returns it when no
    hook raises. *)
Lemma dispatch_value_set_returns msg s v :
  PYRO_STACK s <> [] ->
  (forall m, (pre_phase (reverse (PYRO_STACK s)) msg).2 = Ok m -> m_value m = Some v) ->
  hooks_return msg s ->
  ((do m <- apply_stack msg; value_of m) s).1 = Ok v.
Proof.
  intros Hst Hv ([msg1 Hok] & Hnd & Hun). unfold bind at 1.
  rewrite (apply_stack_unfold msg s Hst).
  pose proof (pre_phase_type (reverse (PYRO_STACK s)) msg msg1 Hok) as (_ & Hname & _).
  destruct (pre_phase_prefix (reverse (PYRO_STACK s)) msg) as [rest Hrest].
  specialize (Hv msg1 Hok).
  destruct (pre_phase (reverse (PYRO_STACK s)) msg) as [reached res]; simpl in *.
  subst res. set (s1 := log_all s _).
  unfold fill_value. rewrite Hv. unfold bind, ret.
  destruct (postprocess_loop_returns (reverse reached) msg1 s1) as [s3 ->].
  - by eapply reached_NoDup.
  - rewrite Hname. by eapply (reached_unrecorded _ (PYRO_STACK s)).
  - unfold value_of. by rewrite Hv.
Qed.

(** [param] on the dispatch path, for a name that no handler replays:
    the pre-phase returns, the closure is called, and the post-hooks of
    the handlers reached get the message with the value it returned. *)
Lemma param_under_handlers name init c0 s :
  PYRO_STACK s <> [] ->
  forallb (leaves_value name) (PYRO_STACK s) = true ->
  exists reached rest msg1 s1,
    reverse (PYRO_STACK s) = reached ++ rest /\ m_name msg1 = name /\
    PARAM_STORE s1 = PARAM_STORE s /\ traces s1 = traces s /\
    param name init c0 s =
      match param_fn name init c0 s1 with
      | (Ok v, s2) =>
          match postprocess_loop (reverse reached) (set_value msg1 (Some v)) s2 with
          | (Ok _, s3) => (Ok v, s3)
          | (Raise e, s3) => (Raise e, s3)
          end
      | (Raise e, s2) => (Raise e, s2)
      end.
Proof.
  intros Hst Hl. rewrite param_dispatch by done. unfold bind at 1.
  set (msg := Message param_type name (ParamFn name) (ParamArgs init c0) None false).
  rewrite (apply_stack_unfold msg s Hst).
  pose proof (pre_phase_value (reverse (PYRO_STACK s)) msg) as Hv.
  pose proof (pre_phase_fn_param (reverse (PYRO_STACK s)) msg) as Hfn.
  pose proof (pre_phase_type (reverse (PYRO_STACK s)) msg) as Hty.
  destruct (pre_phase_prefix (reverse (PYRO_STACK s)) msg) as [rest Hrest].
  destruct (pre_phase_param_ok (reverse (PYRO_STACK s)) msg eq_refl) as [msg1 Hok].
  destruct (pre_phase (reverse (PYRO_STACK s)) msg) as [reached res]; simpl in *.
  subst res. specialize (Hv msg1). rewrite forallb_reverse in Hv.
  specialize (Hv Hl eq_refl). specialize (Hfn msg1 eq_refl eq_refl).
  destruct (Hty msg1 eq_refl) as (_ & Hname & Hargs).
  set (s1 := log_all s _).
  exists reached, rest, msg1, s1. repeat (split; [done|]).
  unfold fill_value, call_fn. rewrite Hv, Hfn, Hargs. unfold bind, ret.
  destruct (param_fn name init c0 s1) as [[v|e] s2]; [|done].
  destruct (postprocess_loop (reverse reached) _ s2) as [[[]|e] s3]; [|done].
  done.
Qed.

(** C5. Once [name] is in the parameter store with the pair [(u, c)], the
    closure of [param(name, init_b, c_b)] returns [transform_to(c)(u)]
    whatever [init_b] and [c_b] are and leaves the store as it is; so does
    [param] itself on an empty stack.  Under handlers that do not replay
    [name] it leaves the store as it is, returns nothing else, and does
    return that value when the trace handlers on the stack are distinct
    objects that have not recorded [name].  A first call
    [param(name, init_a, c)] and a later call [param(name, init_b, c_b)]
    return the same value, the forward transform of the unconstrained
    value that the first call stored: on an empty stack, and under such
    handlers in whatever state the later call finds the stored pair. *)
Theorem param_idempotence :
  (forall name u c init_b c_b s,
     PARAM_STORE s !! name = Some (u, c) ->
     param_fn name init_b c_b s = (Ok (transform_to c u), log s (EvParamFn name))) /\
  (forall name u c init_b c_b s,
     PYRO_STACK s = [] -> PARAM_STORE s !! name = Some (u, c) ->
     param name init_b c_b s = (Ok (transform_to c u), log s (EvParamFn name))) /\
  (forall name init_a init_b c c_b s,
     PYRO_STACK s = [] -> PARAM_STORE s !! name = None ->
     exists v s1 s2,
       param name (Some init_a) c s = (Ok v, s1) /\
       param name init_b c_b s1 = (Ok v, s2) /\
       PARAM_STORE s1 !! name = Some (transform_to_inv c (detach init_a), c) /\
       PARAM_STORE s2 = PARAM_STORE s1 /\
       v = transform_to c (transform_to_inv c (detach init_a))) /\
  (forall name u c init_b c_b s,
     PYRO_STACK s <> [] ->
     forallb (leaves_value name) (PYRO_STACK s) = true ->
     PARAM_STORE s !! name = Some (u, c) ->
     let out := param name init_b c_b s in
     PARAM_STORE out.2 = PARAM_STORE s /\
     (forall x, out.1 = Ok x -> x = transform_to c u) /\
     (NoDup (hid <$> PYRO_STACK s) -> unrecorded name (PYRO_STACK s) s ->
      out.1 = Ok (transform_to c u))) /\
  (forall name init_a init_b c c_b s s',
     PYRO_STACK s <> [] -> forallb (leaves_value name) (PYRO_STACK s) = true ->
     NoDup (hid <$> PYRO_STACK s) -> unrecorded name (PYRO_STACK s) s ->
     PARAM_STORE s !! name = None ->
     PYRO_STACK s' <> [] -> forallb (leaves_value name) (PYRO_STACK s') = true ->
     NoDup (hid <$> PYRO_STACK s') -> unrecorded name (PYRO_STACK s') s' ->
     PARAM_STORE s' !! name =
       PARAM_STORE (param name (Some init_a) c s).2 !! name ->
     let v := transform_to c (transform_to_inv c (detach init_a)) in
     (param name (Some init_a) c s).1 = Ok v /\
     PARAM_STORE (param name (Some init_a) c s).2 !! name =
       Some (transform_to_inv c (detach init_a), c) /\
     (param name init_b c_b s').1 = Ok v).
Proof.
  assert (forall name u c init_b c_b s,
            PYRO_STACK s <> [] ->
            forallb (leaves_value name) (PYRO_STACK s) = true ->
            PARAM_STORE s !! name = Some (u, c) ->
            PARAM_STORE (param name init_b c_b s).2 = PARAM_STORE s /\
            (forall x, (param name init_b c_b s).1 = Ok x -> x = transform_to c u) /\
            (NoDup (hid <$> PYRO_STACK s) -> unrecorded name (PYRO_STACK s) s ->
             (param name init_b c_b s).1 = Ok (transform_to c u))) as Hlater.
  { intros name u c init_b c_b s Hst Hl Hs.
    destruct (param_under_handlers name init_b c_b s Hst Hl)
      as (reached & rest & msg1 & s1 & Hrev & Hname & Hps1 & Htr1 & ->).
    rewrite (param_fn_stored name u c) by (by rewrite Hps1).
    destruct (postprocess_loop (reverse reached) _ _) as [[[]|e] s3] eqn:Ep.
    - apply postprocess_loop_frame in Ep as (_ & _ & Hps & _). simpl in *.
      split; [congruence|]. split; [by intros x [= <-]|done].
    - pose proof Ep as Hf. apply postprocess_loop_frame in Hf as (_ & _ & Hps & _).
      simpl in *. split; [congruence|]. split; [done|]. intros Hnd Hun.
      destruct (postprocess_loop_returns (reverse reached)
                  (set_value msg1 (Some (transform_to c u))) (log s1 (EvParamFn name)))
        as [s4 Hret].
      + by eapply reached_NoDup.
      + simpl. rewrite Hname. by eapply (reached_unrecorded _ (PYRO_STACK s)).
      + congruence. }
  split; [|split; [|split; [|split]]].
  - intros. by apply param_fn_stored.
  - intros name u c init_b c_b s Hst Hs. unfold param. rewrite Hst.
    by apply param_fn_stored.
  - intros name init_a init_b c c_b s Hst Hs.
    eexists _, _, _. split; [|split; [|split; [|split]]].
    + unfold param. rewrite Hst. by apply param_fn_first.
    + unfold param at 1. simpl. rewrite Hst.
      apply param_fn_stored. simpl. apply lookup_insert_eq.
    + simpl. apply lookup_insert_eq.
    + done.
    + done.
  - intros name u c init_b c_b s Hst Hl Hs out. by apply Hlater.
  - intros name init_a init_b c c_b s s' Hst Hl Hnd Hun Hs Hst' Hl' Hnd' Hun' Hs' v.
    assert ((param name (Some init_a) c s).1 = Ok v /\
            PARAM_STORE (param name (Some init_a) c s).2 !! name =
              Some (transform_to_inv c (detach init_a), c)) as [H1 H2].
    { destruct (param_under_handlers name (Some init_a) c s Hst Hl)
        as (reached & rest & msg1 & s1 & Hrev & Hname & Hps1 & Htr1 & ->).
      rewrite (param_fn_first name init_a c) by (by rewrite Hps1).
      destruct (postprocess_loop_returns (reverse reached)
                  (set_value msg1 (Some v))
                  (set_store (log s1 (EvParamFn name))
                     (<[name := (transform_to_inv c (detach init_a), c)]>
                        (PARAM_STORE s1))))
        as [s4 Hret].
      + by eapply reached_NoDup.
      + simpl. rewrite Hname. by eapply (reached_unrecorded _ (PYRO_STACK s)).
      + fold v. rewrite Hret. simpl.
        apply postprocess_loop_frame in Hret as (_ & _ & -> & _). simpl.
        split; [done|]. apply lookup_insert_eq. }
    split; [done|]. split; [done|].
    rewrite H2 in Hs'.
    destruct (Hlater name _ _ init_b c_b s' Hst' Hl' Hs') as (_ & _ & H3).
    by apply H3.
Qed.


(** ** C4: replay around any model *)

Lemma enter_next_id self s : next_id (__enter__ self s).2 = next_id s.
Proof. unfold __enter__. by destruct (hcls self). Qed.

Lemma run_next_id {A} bound (p : prog A) :
  preserves (fun s => (bound < next_id s)%nat) (run p).
Proof.
  assert (forall self, preserves (fun s => (bound < next_id s)%nat) (__enter__ self))
    as Henter by (intros self s H; by rewrite enter_next_id).
  assert (forall self, preserves (fun s => (bound < next_id s)%nat) (__exit__ self))
    as Hexit.
  { intros self s H. unfold __exit__. destruct (py_index _ _); [|done].
    by destruct (hid h =? hid self)%nat. }
  assert (forall c, preserves (fun s => (bound < next_id s)%nat) (new c)) as Hnew.
  { intros c s H. destruct (new c s) as [[h|e] s1] eqn:E;
      apply new_spec in E as (_ & _ & _ & _ & _ & E); simpl.
    - destruct E as [_ ->]. lia.
    - by subst. }
  induction p as [A a|A name fn obs k IH|A name init c k IH|A B h body IHb k IH
                  |A B body IHb k IH]; simpl.
  - by intros s.
  - apply bind_preserves; [|done]. intros s H.
    destruct (sample name fn obs s) as [r s1] eqn:E.
    apply sample_frame in E as [_ E]. simpl. lia.
  - apply bind_preserves; [|done]. intros s H.
    destruct (param name init c s) as [r s1] eqn:E.
    apply param_frame in E as [_ E]. simpl. lia.
  - apply bind_preserves; [done|]. intros self.
    apply bind_preserves; [|done]. by apply with_preserves.
  - apply bind_preserves; [done|]. intros self.
    apply bind_preserves; [|done]. unfold get_trace, __call__.
    apply bind_preserves; [by apply with_preserves|].
    intros _ s H. by destruct (traces s !! hid self).
Qed.

Lemma enters_only_any {A} (p : prog A) : enters_only (fun _ => True) p.
Proof.
  induction p as [A a|A name fn obs k IH|A name init c k IH|A B h body IHb k IH
                  |A B body IHb k IH]; simpl; auto.
Qed.

Section SampleSites.
Variable bound : nat.
Variable C : list href -> Prop.
Variable P : handler -> Prop.
Variable Q : string -> dist -> option tensor -> state -> Prop.
Hypothesis C_snoc :
  forall st self, C st -> (bound < hid self)%nat -> P (hcls self) -> C (st ++ [self]).
Hypothesis Q_at : forall name d obs s, C (PYRO_STACK s) -> Q name d obs s.

Lemma at_sample_sites_under {A} (p : prog A) s :
  enters_only P p -> C (PYRO_STACK s) -> (bound < next_id s)%nat ->
  at_sample_sites Q p s.
Proof.
  revert s.
  induction p as [A a|A name fn obs k IH|A name init c k IH|A B h body IHb k IH
                  |A B body IHb k IH]; intros s Hp HC Hn; cbn [at_sample_sites].
  - done.
  - split; [by apply Q_at|].
    destruct (sample name fn obs s) as [[v|e] s1] eqn:E; [|done].
    apply sample_frame in E as [E1 E2]. apply IH; [apply Hp|by rewrite E1|lia].
  - destruct (param name init c s) as [[v|e] s1] eqn:E; [|done].
    apply param_frame in E as [E1 E2]. apply IH; [apply Hp|by rewrite E1|lia].
  - destruct Hp as (HP & Hb & Hk).
    destruct (new h s) as [[self|e] s1] eqn:En; [|done].
    apply new_spec in En as (Est & _ & _ & _ & _ & [-> Hn1]). split.
    + apply IHb; [done| |rewrite enter_next_id; lia].
      rewrite (proj1 (enter_stack _ _)), Est. by apply C_snoc.
    + pose proof (with_balanced (Href (next_id s) h) (run body) (run_balanced body) s1)
        as Hst.
      pose proof (with_preserves (fun s => (bound < next_id s)%nat) (Href (next_id s) h)
                    (run body)) as Hnext.
      unfold __call__.
      destruct (with_ (Href (next_id s) h) (run body) s1) as [[b|e] s2] eqn:Ec; [|done].
      simpl in Hst. apply IH; [done|by rewrite Hst, Est|].
      change s2 with (Ok b, s2).2. rewrite <- Ec. apply Hnext.
      * intros s0 H0. by rewrite enter_next_id.
      * intros s0 H0. unfold __exit__. destruct (py_index _ _); [|done].
        by destruct (hid h0 =? _)%nat.
      * apply run_next_id.
      * lia.
  - destruct Hp as (HP & Hb & Hk).
    change (new trace s)
      with (Ok (Href (next_id s) trace), set_next_id s (S (next_id s))).
    cbv beta iota. set (s1 := set_next_id s (S (next_id s))). split.
    + apply IHb; [done| |rewrite enter_next_id; simpl; lia].
      rewrite (proj1 (enter_stack _ _)). by apply C_snoc.
    + pose proof (get_trace_balanced (Href (next_id s) trace) (run body)
                    (run_balanced body) s1) as Hst.
      pose proof (run_next_id bound (GetTrace body Ret) s) as Hnext.
      destruct (get_trace (Href (next_id s) trace) (run body) s1) as [[tr|e] s2] eqn:Ec;
        [|done].
      simpl in Hst. apply IH; [done|by rewrite Hst|].
      assert (run (GetTrace body Ret) s = (Ok tr, s2)) as Hrun.
      { change (run (GetTrace body Ret) s)
          with ((do self <- new trace; do tr <- get_trace self (run body); ret tr) s).
        unfold bind at 1.
        change (new trace s)
          with (Ok (Href (next_id s) trace), set_next_id s (S (next_id s))).
        cbv beta iota. unfold bind. fold s1. by rewrite Ec. }
      rewrite Hrun in Hnext. by apply Hnext.
Qed.

End SampleSites.

Lemma process_message_no_block h msg m :
  not_a_block (hcls h) -> process_message h msg = Ok m -> m_stop m = m_stop msg.
Proof.
  unfold not_a_block, process_message. destruct (hcls h); try done; intros _ H;
    repeat case_match; by simplify_eq.
Qed.

Lemma pre_phase_no_block hs msg m :
  Forall (fun h => not_a_block (hcls h)) hs -> m_stop msg = false ->
  (pre_phase hs msg).2 = Ok m -> m_stop m = false.
Proof.
  revert msg. induction hs as [|h hs IH]; intros msg Hall Hstop; simpl.
  - by intros [= <-].
  - inversion Hall as [|? ? Hh Hhs]; subst.
    destruct (process_message h msg) as [m1|e] eqn:E; [|done].
    apply (process_message_no_block _ _ _ Hh) in E. rewrite E, Hstop. simpl.
    apply IH; [done|congruence].
Qed.

Lemma pre_phase_quiet_returns hs msg :
  forallb quiet hs = true -> exists m, (pre_phase hs msg).2 = Ok m.
Proof.
  revert msg. induction hs as [|h hs IH]; intros msg; simpl; [eauto|].
  intros [Hq Hqs]%andb_prop.
  assert (exists m, process_message h msg = Ok m) as [m ->].
  { unfold quiet, process_message in *. destruct (hcls h); try done; eauto.
    - destruct (od_contains guide_trace (m_name msg)) eqn:Ec; [|eauto].
      apply od_contains_get in Ec as [site ->]. eauto.
    - destruct (hide_fn msg); eauto. }
  destruct (m_stop m); simpl; [eauto|]. by apply IH.
Qed.

(** A sample site under a replay of its name, with any handlers entered
    after the replay: it resolves to the recorded value when its message
    reaches the replay, and in any case when none of those handlers is a
    block. *)
Lemma sample_under_replay outer r inner guide_trace name site v d obs s :
  PYRO_STACK s = outer ++ r :: inner -> hcls r = replay guide_trace ->
  od_get guide_trace name = Some site -> m_value site = Some v ->
  forallb (leaves_value name) outer = true ->
  Forall (fun h => hid h <> hid r) inner ->
  reaches r (Message sample_type name (DistFn d) NoArgs obs false) s \/
    Forall (fun h => not_a_block (hcls h)) inner ->
  resolves_to v name d obs s.
Proof.
  intros Hst Hr Hg Hsite Hl Hids Hcase.
  set (msg := Message sample_type name (DistFn d) NoArgs obs false) in *.
  assert (PYRO_STACK s <> []) as Hne by (rewrite Hst; by destruct outer).
  assert (reverse (PYRO_STACK s) = reverse inner ++ r :: reverse outer) as Hrev.
  { rewrite Hst, reverse_app, reverse_cons, <- app_assoc. done. }
  assert (forall m, (pre_phase (reverse (PYRO_STACK s)) msg).2 = Ok m ->
                    m_value m = Some v) as Hv.
  { intros m Hm. unfold reaches in Hcase. rewrite Hrev in Hm, Hcase.
    destruct (pre_phase_app_cases (reverse inner) (r :: reverse outer) msg)
      as [Heq|(m1 & Hm1 & Hs1 & Heq)].
    - exfalso. rewrite Heq in Hm, Hcase.
      destruct (pre_phase_prefix (reverse inner) msg) as [rest Hrest].
      destruct Hcase as [Hin|Hnb].
      + assert (r ∈ inner) as Hin'.
        { apply elem_of_reverse. rewrite Hrest. apply elem_of_app. by left. }
        rewrite Forall_forall in Hids. by apply (Hids r Hin').
      + assert (m_stop m = false) as Hstop.
        { apply (pre_phase_no_block (reverse inner) msg); [by apply Forall_reverse|done|done]. }
        destruct (pre_phase_cut (reverse inner ++ r :: reverse outer) msg)
          as (rest' & Hcut & Hstop').
        rewrite Heq in Hcut, Hstop'. rewrite Hm in Hstop'.
        rewrite Hrest in Hcut at 1. rewrite <- app_assoc in Hcut.
        apply app_inv_head in Hcut. subst rest'.
        rewrite Hstop' in Hstop; [done|]. by destruct rest.
    - rewrite Heq in Hm. cbn [snd] in Hm.
      assert (m_name m1 = name) as Hname.
      { pose proof (pre_phase_type (reverse inner) msg m1) as H.
        rewrite Hm1 in H. by destruct (H eq_refl) as (_ & -> & _). }
      rewrite <- Hsite.
      apply (pre_phase_replay_first r guide_trace (reverse outer) m1 site m);
        [done|by rewrite Hname|by rewrite Hname, forallb_reverse|done]. }
  unfold resolves_to. rewrite sample_dispatch by done. fold msg.
  destruct (apply_stack_value_set msg s v Hne Hv) as (H1 & H2 & _ & H4 & H5).
  split; [done|]. split; [done|]. split; [done|]. split.
  - intros Hret. by apply dispatch_value_set_returns.
  - intros Hq. apply H5; [done|]. apply pre_phase_quiet_returns.
    by rewrite forallb_reverse.
Qed.

(** Inside [replay(M, G)], whatever [M] enters. *)
Lemma replay_around_model {A} P (model : prog A) guide_trace name site v s
    (Q : string -> dist -> option tensor -> state -> Prop) :
  forallb (leaves_value name) (PYRO_STACK s) = true ->
  od_get guide_trace name = Some site -> m_value site = Some v ->
  enters_only P model ->
  (forall name' d obs s' outer inner,
     PYRO_STACK s' = outer ++ Href (next_id s) (replay guide_trace) :: inner ->
     forallb (leaves_value name) outer = true ->
     Forall (fun h => hid h <> next_id s /\ P (hcls h)) inner ->
     Q name' d obs s') ->
  at_sample_sites Q (With (replay guide_trace) model Ret) s.
Proof.
  intros Hl Hg Hsite Hp HQ. cbn [at_sample_sites].
  change (new (replay guide_trace) s)
    with (Ok (Href (next_id s) (replay guide_trace)), set_next_id s (S (next_id s))).
  cbv beta iota. set (r := Href (next_id s) (replay guide_trace)).
  split; [|by destruct (__call__ r (run model) _) as [[b|e] s2]].
  apply (at_sample_sites_under (next_id s)
           (fun st => exists outer inner,
                        st = outer ++ r :: inner /\
                        forallb (leaves_value name) outer = true /\
                        Forall (fun h => hid h <> next_id s /\ P (hcls h)) inner) P).
  - intros st self (outer & inner & -> & Ho & Hi) Hlt HP.
    exists outer, (inner ++ [self]). split; [by rewrite <- app_assoc|].
    split; [done|]. apply Forall_app. split; [done|].
    apply Forall_singleton. split; [lia|done].
  - intros name' d obs s' (outer & inner & Hst & Ho & Hi). by eapply HQ.
  - done.
  - exists (PYRO_STACK s), []. by rewrite (proj1 (enter_stack _ _)).
  - rewrite enter_next_id. simpl. lia.
Qed.

(** C4. With a replay handler innermost whose reference trace has a site
    [name] with recorded value [v], [sample(name, d, obs)] draws nothing
    from [d], whatever [d] is, and returns [v] whenever it returns (the
    handlers outside the replay leaving the value alone); it does return
    when those handlers cannot raise.  So the model that samples [name],
    run as [replay(M, G)()] on an empty stack, returns [v].  For any model
    [M] run as [replay(M, G)()], every sample site [name] that [M]
    executes resolves to [v] when its message reaches the replay handler,
    whatever handlers [M] has entered; and every such site does when [M]
    enters no block.  To resolve to [v] is to draw nothing, to return no
    other value, and to return [v] when no hook raises: inside a trace
    scope of [M] too, until that trace has the name. *)
Theorem replay_fidelity :
  (forall outer r guide_trace name site v d obs s,
     PYRO_STACK s = outer ++ [r] -> hcls r = replay guide_trace ->
     od_get guide_trace name = Some site -> m_value site = Some v ->
     forallb (leaves_value name) outer = true ->
     let out := sample name d obs s in
     invocations (new_events s out.2) = 0%nat /\
     rng out.2 = rng s /\
     (forall x, out.1 = Ok x -> x = v) /\
     (forallb quiet outer = true -> out.1 = Ok v)) /\
  (forall guide_trace name site v d obs s,
     PYRO_STACK s = [] ->
     od_get guide_trace name = Some site -> m_value site = Some v ->
     let out := run (With (replay guide_trace) (Sample name d obs Ret) Ret) s in
     out.1 = Ok v /\ rng out.2 = rng s) /\
  (forall A (model : prog A) guide_trace name site v s,
     forallb (leaves_value name) (PYRO_STACK s) = true ->
     od_get guide_trace name = Some site -> m_value site = Some v ->
     at_sample_sites
       (fun name' d obs s' =>
          name' = name ->
          reaches (Href (next_id s) (replay guide_trace))
                  (Message sample_type name' (DistFn d) NoArgs obs false) s' ->
          resolves_to v name' d obs s')
       (With (replay guide_trace) model Ret) s) /\
  (forall A (model : prog A) guide_trace name site v s,
     forallb (leaves_value name) (PYRO_STACK s) = true ->
     od_get guide_trace name = Some site -> m_value site = Some v ->
     enters_only not_a_block model ->
     at_sample_sites
       (fun name' d obs s' => name' = name -> resolves_to v name' d obs s')
       (With (replay guide_trace) model Ret) s).
Proof.
  split; [|split; [|split]].
  - intros outer r guide_trace name site v d obs s Hst Hr Hg Hsite Hl out.
    assert (PYRO_STACK s <> []) as Hne by (rewrite Hst; by destruct outer).
    unfold out. rewrite sample_dispatch by done.
    set (msg := Message sample_type name (DistFn d) NoArgs obs false).
    destruct (dispatch_under_replay outer r guide_trace site v msg s Hst Hr Hg Hsite Hl)
      as (H1 & H2 & _ & H3 & H4).
    by repeat split.
  - intros guide_trace name site v d obs s Hst Hg Hsite out.
    set (r := Href (next_id s) (replay guide_trace)).
    set (s1 := set_stack (set_next_id s (S (next_id s))) [r]).
    set (msg := Message sample_type name (DistFn d) NoArgs obs false).
    destruct (dispatch_under_replay [] r guide_trace site v msg s1)
      as (_ & H2 & _ & _ & H4); try done.
    specialize (H4 eq_refl).
    assert ((do x <- sample name d obs; ret x) s1 =
            (let o := (do m <- apply_stack msg; value_of m) s1 in (Ok v, o.2))) as Hs.
    { unfold bind at 1. rewrite sample_dispatch by done. fold msg.
      destruct ((do m <- apply_stack msg; value_of m) s1) as [[x|e] s2];
        simpl in *; [|done]. by injection H4 as ->. }
    assert (PYRO_STACK ((do m <- apply_stack msg; value_of m) s1).2 = [r]) as Hst2.
    { unfold msg. rewrite <- (sample_dispatch name d obs s1) by done.
      apply sample_balanced. }
    set (s2 := ((do m <- apply_stack msg; value_of m) s1).2) in *.
    assert (run (With (replay guide_trace) (Sample name d obs Ret) Ret) s =
            (Ok v, set_stack s2 [])) as Hrun.
    { change (run (With (replay guide_trace) (Sample name d obs Ret) Ret) s)
        with ((do self <- new (replay guide_trace);
               do b <- __call__ self (do x <- sample name d obs; ret x); ret b) s).
      unfold bind at 1. change (new (replay guide_trace) s)
        with (Ok r, set_next_id s (S (next_id s))).
      cbv beta iota. unfold bind at 1. unfold __call__, with_.
      assert (__enter__ r (set_next_id s (S (next_id s))) = (Ok None, s1)) as ->.
      { unfold __enter__, s1. simpl. by rewrite Hst. }
      rewrite Hs. cbv zeta. fold s2. cbv beta iota.
      by rewrite (exit_top r s2 []). }
    unfold out. rewrite Hrun. simpl. split; [done|]. by rewrite H2.
  - intros A model guide_trace name site v s Hl Hg Hsite.
    apply (replay_around_model (fun _ => True) model guide_trace name site v s);
      [done|done|done|apply enters_only_any|].
    intros name' d obs s' outer inner Hst Ho Hi -> Hreach.
    apply (sample_under_replay outer (Href (next_id s) (replay guide_trace)) inner
             guide_trace name site); try done.
    + eapply Forall_impl; [exact Hi|]. by intros h [? _].
    + by left.
  - intros A model guide_trace name site v s Hl Hg Hsite Hp.
    apply (replay_around_model not_a_block model guide_trace name site v s);
      try done.
    intros name' d obs s' outer inner Hst Ho Hi ->.
    apply (sample_under_replay outer (Href (next_id s) (replay guide_trace)) inner
             guide_trace name site); try done.
    + eapply Forall_impl; [exact Hi|]. by intros h [? _].
    + right. eapply Forall_impl; [exact Hi|]. by intros h [_ ?].
Qed.

End MoreProperties.

(** * The optimizer wrapper *)

Section AdamProperties.
Context `{opt : TorchOptim}.

Lemma occurrences_cons p q params :
  Adam.occurrences p (q :: params) =
    if decide (q = p) then S (Adam.occurrences p params) else Adam.occurrences p params.
Proof.
  unfold Adam.occurrences. rewrite filter_cons. by destruct (decide (q = p)).
Qed.

Lemma steps_succ n start :
  Adam.steps (S n) start = Adam.steps n (step start.1 start.2).
Proof. unfold Adam.steps. by rewrite Nat.iter_succ_r. Qed.

(** One pass of the loop body, seen from the parameter [p]. *)
Lemma loop_body_at self mem q p :
  let out := Adam.loop_body (self, mem) q in
  let start :=
    (default (torch_optim_Adam p (Adam.optim_args self)) (Adam.optim_objs self !! p),
     mem p) in
  Adam.optim_args out.1 = Adam.optim_args self /\
  if decide (q = p)
  then Adam.optim_objs out.1 !! p = Some (step start.1 start.2).1 /\
       out.2 p = (step start.1 start.2).2
  else Adam.optim_objs out.1 !! p = Adam.optim_objs self !! p /\ out.2 p = mem p.
Proof.
  unfold Adam.loop_body. destruct (decide (q = p)) as [->|Hne].
  - destruct (Adam.optim_objs self !! p) as [o|] eqn:Eo; simpl;
      destruct (step _ (mem p)) as [o' x]; simpl;
      rewrite lookup_insert_eq; by destruct (decide (p = p)).
  - destruct (Adam.optim_objs self !! q) as [o|] eqn:Eo; simpl;
      destruct (step _ (mem q)) as [o' x]; simpl;
      rewrite ?lookup_insert_ne by done; by destruct (decide (p = q)); simplify_eq.
Qed.

Lemma call_args self params mem :
  Adam.optim_args (Adam.__call__ self params mem).1 = Adam.optim_args self.
Proof.
  revert self mem. induction params as [|q params IH]; intros self mem; [done|].
  change (Adam.__call__ self (q :: params) mem)
    with (foldl Adam.loop_body (Adam.loop_body (self, mem) q) params).
  assert (Adam.optim_args (Adam.loop_body (self, mem) q).1 = Adam.optim_args self) as Hb.
  { unfold Adam.loop_body. destruct (Adam.optim_objs self !! q); simpl;
      by destruct (step _ (mem q)). }
  destruct (Adam.loop_body (self, mem) q) as [self1 mem1]. simpl in Hb.
  rewrite <- Hb. apply IH.
Qed.

Lemma call_at self params mem p :
  let out := Adam.__call__ self params mem in
  let n := Adam.occurrences p params in
  let fin :=
    Adam.steps n
      (default (torch_optim_Adam p (Adam.optim_args self)) (Adam.optim_objs self !! p),
       mem p) in
  out.2 p = fin.2 /\
  Adam.optim_objs out.1 !! p =
    match n with 0%nat => Adam.optim_objs self !! p | S _ => Some fin.1 end /\
  Adam.optim_args out.1 = Adam.optim_args self.
Proof.
  revert self mem. induction params as [|q params IH]; intros self mem; [done|].
  cbv zeta. rewrite occurrences_cons.
  change (Adam.__call__ self (q :: params) mem)
    with (foldl Adam.loop_body (Adam.loop_body (self, mem) q) params).
  pose proof (loop_body_at self mem q p) as Hb. cbv zeta in Hb.
  destruct (Adam.loop_body (self, mem) q) as [self1 mem1]. simpl in Hb.
  destruct Hb as [Hargs Hb].
  specialize (IH self1 mem1). cbv zeta in IH.
  change (foldl Adam.loop_body (self1, mem1) params)
    with (Adam.__call__ self1 params mem1).
  destruct IH as (IH1 & IH2 & IH3). rewrite Hargs in *.
  destruct (decide (q = p)) as [->|Hne]; destruct Hb as [Hb1 Hb2].
  - rewrite steps_succ. cbn [fst snd]. rewrite Hb1, Hb2 in *. simpl in *.
    rewrite <- surjective_pairing in *.
    split; [done|]. split; [|done].
    rewrite IH2. by destruct (Adam.occurrences p params).
  - by rewrite Hb1, Hb2 in *.
Qed.

(** X11. [Adam.__call__] treats each parameter by itself: a parameter
    that occurs [n] times in [params] is stepped [n] times by one
    optimizer, the one that [optim_objs] held for it or else one built from
    [optim_args]; this optimizer is what [optim_objs] holds afterwards.
    The optimizer and the contents of a parameter that does not occur are
    left alone.  So the order of [params] does not matter. *)
Theorem adam_steps_each_parameter_by_occurrence :
  (forall self params mem p,
     let out := Adam.__call__ self params mem in
     let n := Adam.occurrences p params in
     let fin :=
       Adam.steps n
         (default (torch_optim_Adam p (Adam.optim_args self))
                  (Adam.optim_objs self !! p),
          mem p) in
     out.2 p = fin.2 /\
     Adam.optim_objs out.1 !! p =
       match n with 0%nat => Adam.optim_objs self !! p | S _ => Some fin.1 end /\
     Adam.optim_args out.1 = Adam.optim_args self) /\
  (forall self params params' mem,
     params ≡ₚ params' ->
     (Adam.__call__ self params mem).1 = (Adam.__call__ self params' mem).1 /\
     forall p, (Adam.__call__ self params mem).2 p = (Adam.__call__ self params' mem).2 p).
Proof.
  split; [apply call_at|].
  intros self params params' mem Hperm.
  assert (forall p, Adam.occurrences p params = Adam.occurrences p params') as Hocc.
  { intros p. unfold Adam.occurrences. by rewrite Hperm. }
  split.
  - pose proof (fun p => call_at self params mem p) as H1.
    pose proof (fun p => call_at self params' mem p) as H2.
    cbv zeta in H1, H2.
    pose proof (call_args self params mem) as A1.
    pose proof (call_args self params' mem) as A2.
    destruct (Adam.__call__ self params mem).1 as [a1 o1].
    destruct (Adam.__call__ self params' mem).1 as [a2 o2]. simpl in *.
    f_equal.
    + congruence.
    + apply map_eq. intros p.
      destruct (H1 p) as (_ & -> & _). destruct (H2 p) as (_ & -> & _).
      by rewrite Hocc.
  - intros p.
    destruct (call_at self params mem p) as (-> & _).
    destruct (call_at self params' mem p) as (-> & _).
    by rewrite Hocc.
Qed.

End AdamProperties.

(** * The properties at concrete inputs *)

Module Witnesses.
Import Concrete.
#[local] Existing Instance ZTorch.

Lemma ZTorch_exact : ExactArith ZTorch.
Proof. split; simpl; intros; lia. Qed.

(** C6 at [s_nested]: exiting the outer trace handler while the inner one
    is on top raises; a model run inside a scope leaves the stack alone. *)
Lemma stack_balance_witness :
  __exit__ t0 s_nested = (Raise AssertionError, s_nested) /\
  PYRO_STACK (with_ t0 (run model1) s_init).2 = PYRO_STACK s_init.
Proof.
  destruct (stack_balance (T := ZTorch)) as (H1 & H2 & H3 & H4). split.
  - apply (H3 t0 t2 s_nested); [vm_compute; reflexivity|vm_compute; lia].
  - apply H2.
Defined.

(** C1 at [s_nested] and for [model1]. *)
Lemma dispatch_order_and_block_scoping_witness :
  (exists tr,
     (run (GetTrace (With (block is_sample) model1 Ret) Ret) s_init).1 = Ok tr /\
     no_sample_sites tr = true) /\
  (exists v s',
     sample "x" d1 None s_nested = (Ok v, s') /\
     traces s' =
       <[2%nat := [] ++ [("x", Message sample_type "x" (DistFn d1) NoArgs (Some v) true)]]>
         (traces s_nested)) /\
  (pre_phase (reverse (PYRO_STACK s_nested)) msg_x).1 <> [] /\
  (pre_phase ([t2] ++ b1 :: [t0]) msg_x).1 `prefix_of` [t2] ++ [b1] /\
  (exists m, pre_phase (take 1 [t2; b1; t0]) msg_x = (take 1 [t2; b1; t0], Ok m) /\
             m_stop m = false).
Proof.
  destruct (dispatch_order_and_block_scoping (T := ZTorch))
    as (H1 & H5 & H2 & H3 & H4).
  split; [|split; [|split; [|split]]].
  - eexists. split; [vm_compute; reflexivity|].
    eapply (proj2 (H3 _ model1 s_init)). vm_compute. reflexivity.
  - apply (H4 [t0] b1 t2 "x" d1 None s_nested []); vm_compute; reflexivity.
  - apply (H1 msg_x s_nested). vm_compute. discriminate.
  - apply (H2 [t2] b1 [t0] is_sample msg_x); [reflexivity|].
    intros m Hm. unfold is_sample. rewrite Hm. reflexivity.
  - apply (H5 [t2; b1; t0] msg_x 1%nat). vm_compute. lia.
Defined.

(** C2 under a plain Messenger. *)
Lemma descriptor_called_iff_unset_witness :
  invocations (new_events s_plain (apply_stack msg_x s_plain).2) = 1%nat /\
  (sample "x" d1 (Some 3) s_plain).1 = Ok 3 /\
  rng (sample "x" d1 (Some 3) s_plain).2 = 5.
Proof.
  destruct (descriptor_called_iff_unset (T := ZTorch)) as (H1 & H2). split.
  - rewrite (H1 msg_x s_plain);
      [vm_compute; reflexivity|vm_compute; discriminate|reflexivity].
  - destruct (H2 "x" d1 3 s_plain) as (A & B & C & D);
      [vm_compute; discriminate|vm_compute; reflexivity|].
    split; [apply D; vm_compute; reflexivity|exact B].
Defined.

(** C3 for [model1] and [guide1], and for one shared site. *)
Lemma elbo_value_witness :
  (exists a b s2,
     elbo (run model1) (run guide1) s_init =
       (Ok (tneg (tsub (tsum_list a) (tsum_list b))), s2)) /\
  (elbo (run (Sample "x" d1 None Ret)) (run guide1) s_init).1 = Ok 10.
Proof.
  destruct (elbo_value (T := ZTorch) (E := ZTorch_exact)) as (H1 & H2). split.
  - edestruct (H1 _ _ model1 guide1 s_init) as (a & b & _ & _ & H).
    + vm_compute. reflexivity.
    + vm_compute. reflexivity.
    + exists a, b. eexists. exact H.
  - refine (eq_trans (H2 "x" d1 d2 s_init _) _); [reflexivity|].
    vm_compute. reflexivity.
Defined.

(** C7: the trace of [model1], and a second site x under a trace handler
    that has recorded x. *)
Lemma trace_names_unique_witness :
  (exists tr, (run (GetTrace model1 Ret) s_init).1 = Ok tr /\ unique_names tr) /\
  postprocess_message t0 msg_x s_traced = (Raise AssertionError, s_traced) /\
  (exists e, (apply_stack msg_x s_traced).1 = Raise e) /\
  (sample "x" d1 None s_traced).1 = Raise AssertionError /\
  od_get (g_x ++ [("p", msg_p)]) "p" = Some msg_p.
Proof.
  destruct (trace_names_unique (T := ZTorch)) as (H1 & H2 & H3 & H4 & H5 & H6).
  split; [|split; [|split; [|split]]].
  - destruct (run (GetTrace model1 Ret) s_init) as [r s'] eqn:E.
    assert (exists tr, r = Ok tr) as [tr ->].
    { apply (f_equal fst) in E. vm_compute in E. rewrite <- E. eexists. reflexivity. }
    exists tr. split; [reflexivity|]. exact (H1 _ model1 s_init tr s' E).
  - apply (H3 t0 msg_x s_traced g_x); vm_compute; reflexivity.
  - apply (H4 t0 msg_x s_traced g_x);
      [vm_compute; discriminate|vm_compute; apply list_elem_of_here
      |vm_compute; reflexivity..].
  - apply (H5 t0 "x" d1 None s_traced g_x); vm_compute; reflexivity.
  - apply (H6 t0 msg_p s_traced g_x); vm_compute; reflexivity.
Defined.

(** C8: with an observed value the bypass draws (10 plus the seed 5),
    where the protocol over zero handlers returns the observation. *)
Lemma bypass_ignores_obs :
  (sample "x" d1 (Some 3) s_init).1 = Ok 15 /\
  (sample_by_dispatch "x" d1 (Some 3) s_init).1 = Ok 3 /\
  sample "x" d1 (Some 3) s_init <> sample_by_dispatch "x" d1 (Some 3) s_init.
Proof.
  split; [vm_compute; reflexivity|]. split; [vm_compute; reflexivity|].
  intros H. apply (f_equal fst) in H. vm_compute in H. discriminate.
Qed.

(** C8 without an observed value, at the fresh state. *)
Lemma bypass_matches_dispatch_without_obs_witness :
  sample "x" d1 None s_init = sample_by_dispatch "x" d1 None s_init /\
  param "p" (Some 7) 2 s_init = param_by_dispatch "p" (Some 7) 2 s_init.
Proof.
  destruct (bypass_matches_dispatch_without_obs (T := ZTorch)) as (H1 & H2).
  split; [apply H1|apply H2]; reflexivity.
Defined.

(** C9 at [plate("p", 3, -1)]. *)
Lemma plate_iter_example :
  (new (PlateMessenger 3 (-1)) s_init).1 = Ok (Href 0 (PlateMessenger 3 (-1))) /\
  iterate (Href 0 (PlateMessenger 3 (-1))) = Raise TypeError /\
  range 3 = [0; 1; 2].
Proof. repeat split. Qed.

(** C10 under a replay handler whose trace has x. *)
Lemma replay_overwrites_any_kind_witness :
  process_message r3 (set_value msg_x (Some 3)) = Ok (set_value msg_x (Some 25)) /\
  (sample "x" d1 (Some 3) s_replay).1 = Ok 25 /\
  (param "x" (Some 1) 0 s_replay).1 = Ok 25.
Proof.
  destruct (replay_overwrites_any_kind (T := ZTorch)) as (H1 & H2 & H3).
  split; [|split].
  - apply (H1 r3 g_x (set_value msg_x (Some 3)) site_x); reflexivity.
  - apply (H2 r3 g_x "x" site_x 25 d1 3 s_replay); reflexivity.
  - destruct (H3 r3 g_x "x" site_x 25 (Some 1) 0 s_replay) as (A & _);
      [reflexivity..|].
    exact A.
Defined.

End Witnesses.

(** * More instances, on the same concrete data *)

Module MoreWitnesses.
Import Concrete ConcreteRest.
#[local] Existing Instance ZTorch.
#[local] Existing Instance ZOptim.


(** X1 for [model1] and [guide1], with p in the store. *)
Lemma param_store_entries_persist_witness :
  PARAM_STORE (run model1 s_stored).2 !! "p" = Some (7, 2) /\
  PARAM_STORE (elbo (run model1) (run guide1) s_stored).2 !! "p" = Some (7, 2).
Proof.
  destruct (param_store_entries_persist (T := ZTorch)) as (H1 & H2).
  split; [apply H1|apply H2]; vm_compute; reflexivity.
Defined.

(** X2 under a plain Messenger and an empty store. *)
Lemma param_without_init_raises_witness :
  (param "p" None 2 s_plain).1 = Raise AssertionError /\
  PARAM_STORE (param "p" None 2 s_plain).2 = PARAM_STORE s_plain.
Proof.
  destruct (param_without_init_raises (T := ZTorch) "p" 2 s_plain) as (A & B & _);
    [vm_compute; reflexivity..|].
  split; [exact A|exact B].
Defined.

(** X3 for the site x under a plain Messenger. *)
Lemma apply_stack_keeps_site_witness :
  exists msg' s',
    apply_stack msg_x s_plain = (Ok msg', s') /\
    is_Some (m_value msg') /\ m_name msg' = "x".
Proof.
  destruct (apply_stack msg_x s_plain) as [r s'] eqn:E.
  assert (exists m, r = Ok m) as [m ->].
  { apply (f_equal fst) in E. vm_compute in E. rewrite <- E. eexists. reflexivity. }
  exists m, s'. split; [reflexivity|].
  destruct (apply_stack_keeps_site (T := ZTorch) msg_x s_plain m s' E) as (A & B & _).
  split; [exact A|exact B].
Defined.

(** X4 under the innermost trace handler of [s_nested], and for a scope
    opened at the fresh state. *)
Lemma trace_round_trip_witness :
  (exists tr site,
     traces (sample "x" d1 None s_nested).2 !! 2%nat = Some (tr ++ [("x", site)]) /\
     m_value site = Some 15) /\
  (exists tr site,
     traces (param "p" (Some 9) 2 s_nested).2 !! 2%nat = Some (tr ++ [("p", site)]) /\
     m_value site = Some 9) /\
  (exists site,
     traces (with_ t0 (sample "x" d1 None) s_init).2 !! 0%nat = Some [("x", site)] /\
     m_value site = Some 15).
Proof.
  destruct (trace_round_trip (T := ZTorch)) as (H1 & H2 & H3).
  split; [|split].
  - destruct (H1 [t0; b1] t2 "x" d1 None s_nested 15 (sample "x" d1 None s_nested).2)
      as (tr & site & A & _ & B & _); [vm_compute; reflexivity..|].
    exists tr, site. split; [exact A|exact B].
  - destruct (H2 [t0; b1] t2 "p" (Some 9 : option (@tensor ZTorch)) 2 s_nested 9
                (param (T := ZTorch) "p" (Some 9) 2 s_nested).2)
      as (tr & site & A & _ & B & _); [vm_compute; reflexivity..|].
    exists tr, site. split; [exact A|exact B].
  - destruct (H3 t0 "x" d1 None s_init 15 (with_ t0 (sample "x" d1 None) s_init).2)
      as (site & A & B & _); [vm_compute; reflexivity..|].
    exists site. split; [exact A|exact B].
Defined.

(** X5: a param site recorded after the site x. *)
Lemma trace_append_only_witness :
  exists more,
    traces (run (Param "p" (Some 9) 2 Ret) s_traced).2 !! 0%nat = Some (g_x ++ more).
Proof.
  apply (trace_append_only (T := ZTorch) _ (Param (T := ZTorch) "p" (Some 9) 2 Ret)
           0%nat g_x s_traced);
    [vm_compute; lia|vm_compute; reflexivity].
Defined.

(** X6 under a plain Messenger. *)
Lemma quiet_handlers_are_transparent_witness :
  (sample "x" d1 None s_plain).1 = (sample "x" d1 None (set_stack s_plain [])).1 /\
  (param "p" (Some 9) 2 s_plain).1 = (param "p" (Some 9) 2 (set_stack s_plain [])).1.
Proof.
  destruct (quiet_handlers_are_transparent (T := ZTorch)) as (H1 & H2). split.
  - destruct (H1 "x" d1 s_plain) as (A & _); [vm_compute; reflexivity..|]. exact A.
  - destruct (H2 "p" (Some 9 : option (@tensor ZTorch)) 2 s_plain) as (A & _); [vm_compute; reflexivity..|].
    exact A.
Defined.

(** X7: the site x behind the block of [s_nested], with and without the
    outer trace handler. *)
Lemma block_isolates_from_outer_handlers_witness :
  (apply_stack msg_x (set_stack s_nested ([t0] ++ b1 :: [t2]))).1 =
    (apply_stack msg_x (set_stack s_nested ([] ++ b1 :: [t2]))).1 /\
  (sample "x" d1 None (set_stack s_nested ([t0] ++ b1 :: [t2]))).1 =
    (sample "x" d1 None (set_stack s_nested ([] ++ b1 :: [t2]))).1.
Proof.
  destruct (block_isolates_from_outer_handlers (T := ZTorch)) as (H1 & H2). split.
  - destruct (H1 [t0] [] b1 is_sample [t2] msg_x s_nested) as (A & _); [reflexivity| |].
    + intros m Hm. unfold is_sample. rewrite Hm. reflexivity.
    + exact A.
  - destruct (H2 [t0] [] b1 is_sample [t2] "x" d1 None s_nested) as (A & _);
      [reflexivity| |].
    + intros m Hm. exact Hm.
    + exact A.
Defined.

(** X8: under a trace handler that has recorded x, [model1] raises the
    assertion of the trace handler. *)
Lemma model_raises_only_expected_witness :
  wf_stack s_traced /\
  (run model1 s_traced).1 = Raise AssertionError /\
  (AssertionError = AssertionError \/ AssertionError = RuntimeError).
Proof.
  assert (wf_stack s_traced) as Hwf.
  { apply Forall_cons_2; [|apply Forall_nil_2].
    exists g_x. vm_compute. reflexivity. }
  split; [exact Hwf|]. split; [vm_compute; reflexivity|].
  destruct (model_raises_only_expected (T := ZTorch) model1 guide1 s_traced
              AssertionError Hwf) as (A & _).
  apply A. vm_compute. reflexivity.
Defined.


(** X9 for the site x and for a new parameter, on the empty stack. *)
Lemma apply_stack_without_handlers_witness :
  (apply_stack msg_x s_init).1 = Raise UnboundLocalError /\
  rng (apply_stack msg_x s_init).2 = 6 /\
  (apply_stack msg_p s_init).1 = Raise UnboundLocalError /\
  PARAM_STORE (apply_stack msg_p s_init).2 !! "p" = Some (7, 2).
Proof.
  destruct (apply_stack_without_handlers (T := ZTorch) msg_x s_init eq_refl)
    as (_ & _ & H3 & _).
  destruct (apply_stack_without_handlers (T := ZTorch) msg_p s_init eq_refl)
    as (_ & _ & _ & H4).
  destruct (H3 d1) as [A B]; [reflexivity..|].
  destruct (H4 "p" 9 2) as [C D]; [reflexivity..|].
  split; [exact A|]. split; [exact B|]. split; [exact C|exact D].
Defined.

(** X10: the plate of size 3 at dim -2 makes the batch shape [4] into
    [3; 4]. *)
Lemma plate_broadcasts_witness :
  exists d1',
    process_message p5 msg_b = Ok (set_fn msg_b (DistFn d1')) /\
    py_index (batch_shape d1') (-2) = Some 3 /\
    py_index (batch_shape d1') (-1) = Some 4.
Proof.
  destruct (plate_broadcasts (T := ZTorch)) as (H & _).
  destruct (H p5 3 (-2) msg_b (set_fn msg_b (DistFn d34)))
    as (d & d1' & Hd & Hm & _ & Hi & Ho & _).
  - intros d shape d' [= <-]. reflexivity.
  - reflexivity.
  - lia.
  - reflexivity.
  - reflexivity.
  - exists d1'. injection Hd as <-. injection Hm as <-.
    split; [reflexivity|]. split; [exact Hi|].
    rewrite (Ho (-1)) by lia. reflexivity.
Defined.

(** X11: two lists with the same parameters in another order. *)
Lemma adam_steps_each_parameter_by_occurrence_witness :
  (Adam.__call__ adam0 ["a"; "b"; "a"] mem0).2 "a" = 6 /\
  (Adam.__call__ adam0 ["a"; "b"; "a"] mem0).1 =
    (Adam.__call__ adam0 ["b"; "a"; "a"] mem0).1.
Proof.
  destruct (adam_steps_each_parameter_by_occurrence (opt := ZOptim)) as (H1 & H2).
  split.
  - destruct (H1 adam0 ["a"; "b"; "a"] mem0 "a") as (A & _). rewrite A. reflexivity.
  - destruct (H2 adam0 ["a"; "b"; "a"] ["b"; "a"; "a"] mem0) as (A & _); [|exact A].
    apply perm_swap.
Defined.

(** X12 for [model1] and [guide2]: the parameters q and p are captured. *)
Lemma svi_step_captures_param_sites_witness :
  exists loss sites,
    (capture_scope (elbo (run model1) (run guide2)) s_init).1 = Ok (loss, sites) /\
    m_name <$> sites = ["q"; "p"] /\ NoDup (m_name <$> sites).
Proof.
  destruct (capture_scope (elbo (run model1) (run guide2)) s_init) as [r s'] eqn:E.
  assert (exists loss sites, r = Ok (loss, sites) /\ m_name <$> sites = ["q"; "p"])
    as (loss & sites & -> & Hnames).
  { apply (f_equal fst) in E. vm_compute in E. rewrite <- E.
    eexists _, _. split; reflexivity. }
  exists loss, sites. split; [reflexivity|]. split; [exact Hnames|].
  destruct (svi_step_captures_param_sites (T := ZTorch) _ _ model1 guide2 s_init
              loss sites s' (Forall_nil_2 _) E) as (gt & s1 & mt & s2 & _ & _ & _ & Hnd).
  exact Hnd.
Defined.

(** X13 for [model1] inside a block that hides the name x, and inside a
    block with the default [hide_fn]. *)
Lemma block_hides_selected_sites_witness :
  (exists tr,
     (run (GetTrace (With (block hide_x) model1 Ret) Ret) s_init).1 = Ok tr /\
     od_keys tr = ["p"] /\
     Forall (fun site => hide_x site = false) (od_values tr)) /\
  (run (GetTrace (With (block default_hide_fn) model1 Ret) Ret) s_init).1 = Ok [].
Proof.
  destruct (block_hides_selected_sites (T := ZTorch)) as (H1 & H2). split.
  - destruct (run (GetTrace (With (block hide_x) model1 Ret) Ret) s_init)
      as [r s'] eqn:E.
    assert (exists tr, r = Ok tr /\ od_keys tr = ["p"]) as (tr & -> & Hk).
    { apply (f_equal fst) in E. vm_compute in E. rewrite <- E.
      eexists. split; reflexivity. }
    exists tr. split; [reflexivity|]. split; [exact Hk|].
    apply (H1 _ hide_x model1 s_init tr).
    + intros m m' _ Hn. unfold hide_x. rewrite Hn. reflexivity.
    + rewrite E. reflexivity.
  - destruct (run (GetTrace (With (block default_hide_fn) model1 Ret) Ret) s_init)
      as [r s'] eqn:E.
    assert (exists tr, r = Ok tr) as (tr & ->).
    { apply (f_equal fst) in E. vm_compute in E. rewrite <- E. eexists. reflexivity. }
    simpl. f_equal. apply (H2 _ model1 s_init tr). rewrite E. reflexivity.
Defined.


(** X14: the batch shape [1] through the plates of size 3 at dim -2 and
    of size 5 at dim -1. *)
Lemma plates_commute_witness :
  exists d12 d21,
    m_fn msg_35 = DistFn d12 /\ m_fn msg_35 = DistFn d21 /\
    batch_shape d12 = batch_shape d21 /\
    py_index (batch_shape d12) (-2) = Some 3 /\
    py_index (batch_shape d12) (-1) = Some 5.
Proof.
  apply (plates_commute (T := ZTorch) p5 p6 3 (-2) 5 (-1) msg_1 msg_31 msg_35 msg_5 msg_35);
    [intros d shape d' [= <-]; reflexivity|reflexivity|reflexivity|lia|lia|lia
    |reflexivity..].
Defined.

(** X15: the site x of [model1] under the replay of the trace [g_x]. *)
Lemma model_trace_takes_guide_values_witness :
  exists mt site,
    (model_run (run model1) g_x s_init).1 = Ok mt /\
    od_get mt "x" = Some site /\ m_value site = Some 25.
Proof.
  destruct (model_run (run model1) g_x s_init) as [r s'] eqn:E.
  assert (exists mt site, r = Ok mt /\ od_get mt "x" = Some site)
    as (mt & site & -> & Hs).
  { apply (f_equal fst) in E. vm_compute in E. rewrite <- E.
    eexists _, _. split; reflexivity. }
  exists mt, site. split; [reflexivity|]. split; [exact Hs|].
  destruct (model_trace_takes_guide_values (T := ZTorch)) as (H1 & _).
  apply (H1 _ model1 g_x s_init mt s' "x" site site_x);
    [apply Forall_nil_2|reflexivity|eexists; reflexivity|reflexivity|exact E|exact Hs].
Defined.


(** C4 with the replay handler inside a plain Messenger, as a model, and
    around the models [model_blocked] and [model_traced]. *)
Lemma replay_fidelity_witness :
  (sample "x" d1 None s_replay_in).1 = Ok 25 /\
  (run (With (replay g_x) (Sample "x" d1 None Ret) Ret) s_init).1 = Ok 25 /\
  at_sample_sites
    (fun name' d obs s' =>
       name' = "x" ->
       reaches (Href 0 (replay g_x))
               (Message sample_type name' (DistFn d) NoArgs obs false) s' ->
       resolves_to 25 name' d obs s')
    (With (replay g_x) model_blocked Ret) s_init /\
  resolves_to 25 "x" d1 None s_replay_trace /\
  (sample "x" d1 None s_replay_trace).1 = Ok 25.
Proof.
  destruct (replay_fidelity (T := ZTorch)) as (H1 & H2 & H3 & H4).
  assert (resolves_to 25 "x" d1 None s_replay_trace) as Hres.
  { assert (enters_only not_a_block model_traced) as Hp
      by (split; [exact I|split; [intros v; exact I|intros tr; exact I]]).
    destruct (H4 _ model_traced g_x "x" site_x 25 s_init eq_refl eq_refl eq_refl Hp)
      as [[[Hq _] _] _].
    exact (Hq eq_refl). }
  split; [|split; [|split; [|split]]].
  - destruct (H1 [m4] r3 g_x "x" site_x 25 d1 None s_replay_in) as (_ & _ & _ & D);
      [vm_compute; reflexivity..|].
    apply D. vm_compute. reflexivity.
  - destruct (H2 g_x "x" site_x 25 d1 None s_init) as (A & _);
      [vm_compute; reflexivity..|].
    exact A.
  - apply (H3 _ model_blocked g_x "x" site_x 25 s_init); reflexivity.
  - exact Hres.
  - destruct Hres as (_ & _ & _ & Hr & _). apply Hr. split; [|split].
    + eexists. vm_compute. reflexivity.
    + apply NoDup_cons_2; [|apply NoDup_singleton].
      intros Hin. apply list_elem_of_singleton in Hin. discriminate.
    + apply Forall_cons_2; [intros Hc; discriminate|].
      apply Forall_singleton. intros _. exists []. split; reflexivity.
Defined.

(** C4: inside a block that the model enters itself, the site x draws
    (10 plus the seed 5) although the reference trace has x = 25. *)
Lemma replay_hidden_by_own_block :
  od_get g_x "x" = Some site_x /\ m_value site_x = Some 25 /\
  (run (With (replay g_x) model_blocked Ret) s_init).1 = Ok 15 /\
  (run (With (replay g_x) model_blocked Ret) s_init).1 <> Ok 25.
Proof.
  split; [reflexivity|]. split; [reflexivity|]. split; [vm_compute; reflexivity|].
  intros H. vm_compute in H. discriminate.
Qed.

(** C5 on an empty stack and under a trace handler. *)
Lemma param_idempotence_witness :
  param "p" (Some 100) 50 s_stored = (Ok 9, log s_stored (EvParamFn "p")) /\
  (exists v s1 s2,
     param "p" (Some 7) 2 s_init = (Ok v, s1) /\
     param "p" (Some 100) 50 s1 = (Ok v, s2) /\ v = 7) /\
  (param "p" (Some 100) 50 s_traced_p).1 = Ok 7 /\
  ((param "p" (Some 7) 2 s_traced_empty).1 = Ok 7 /\
   (param "p" (Some 100) 50 s_traced_p).1 = Ok 7).
Proof.
  destruct (param_idempotence (T := ZTorch)) as (H1 & H2 & H3 & H4 & H5).
  assert (NoDup (hid <$> [t0])) as Hnd by apply NoDup_singleton.
  assert (forall store,
            unrecorded "p" [t0] (State [t0] store (<[0%nat := []]> ∅) 1%nat 5 []))
    as Hun.
  { intros store. apply Forall_singleton. intros _. exists []. split; reflexivity. }
  split; [|split; [|split]].
  - apply (H2 "p" 7 2 (Some 100) 50 s_stored); vm_compute; reflexivity.
  - destruct (H3 "p" 7 (Some 100) 2 50 s_init) as (v & s1 & s2 & A & B & _ & _ & E);
      [vm_compute; reflexivity..|].
    exists v, s1, s2. split; [exact A|]. split; [exact B|].
    rewrite E. vm_compute. reflexivity.
  - destruct (H4 "p" 5 2 (Some 100) 50 s_traced_p) as (_ & _ & C);
      [vm_compute; discriminate|vm_compute; reflexivity|vm_compute; reflexivity|].
    apply C; [exact Hnd|apply Hun].
  - destruct (H5 "p" 7 (Some 100) 2 50 s_traced_empty s_traced_p) as (A & _ & C);
      [vm_compute; discriminate|vm_compute; reflexivity|exact Hnd|apply Hun
      |vm_compute; reflexivity
      |vm_compute; discriminate|vm_compute; reflexivity|exact Hnd|apply Hun
      |vm_compute; reflexivity|].
    split; [exact A|exact C].
Defined.

End MoreWitnesses.
